(** * Portfolio optimisation dashboard: a shallow embedding of
      [portfolio-theory.py] and the properties of its analytics pipeline.

    Conventions of the embedding:
    - a Python/NumPy float is an exact real number ([R]); rounding and the
      non-finite values (NaN, inf) are outside the model, so statements
      about quotients carry the hypothesis under which the script divides
      by a non-zero number;
    - a pandas [Series] is the list of its values, all series of one run
      sharing the monthly date index (the asset file and the benchmark file
      cover the same months), so label alignment is positional;
    - a pandas [DataFrame] that is only read is an ordered list of named
      columns; the one frame the script mutates ([returns]) is a finite map
      from column names to series held in the run's state;
    - a Streamlit run is a list of display events;
    - the quadratic-programming solvers and the covariance shrinkage of the
      third-party optimisation library are parameters of the development;
      its closed-form helpers are written out from the library's documented
      formulas under [Module PyPfOpt]. *)

From Stdlib Require Import Reals Lra Lia List.
From stdpp Require Import base option list strings gmap.

Open Scope R_scope.

(** ** NumPy / pandas primitives on series *)

Module Series.

Definition series := list R.

Definition Rsum (xs : series) : R := foldr Rplus 0 xs.

(** [Series.mean]: arithmetic mean of the values. *)
Definition mean (xs : series) : R := Rsum xs / INR (length xs).

(** Element-wise arithmetic of two series on a common index. *)
Fixpoint zip_with_R (f : R -> R -> R) (xs ys : series) : series :=
  match xs, ys with
  | x :: xs', y :: ys' => f x y :: zip_with_R f xs' ys'
  | _, _ => []
  end.

Definition sub (xs ys : series) : series := zip_with_R Rminus xs ys.
Definition div (xs ys : series) : series := zip_with_R Rdiv xs ys.

(** [Series.pct_change().dropna()]: the first row has no predecessor and
    is dropped. *)
Definition pct_change (ps : series) : series :=
  zip_with_R (fun prev cur => cur / prev - 1) ps (tl ps).

(** [Series.cumprod] and [Series.cummax] as left-to-right scans. *)
Fixpoint scan (f : R -> R -> R) (acc : R) (xs : series) : series :=
  match xs with
  | [] => []
  | x :: xs' => f acc x :: scan f (f acc x) xs'
  end.

Definition cumprod (xs : series) : series :=
  match xs with
  | [] => []
  | x :: xs' => x :: scan Rmult x xs'
  end.

Definition cummax (xs : series) : series :=
  match xs with
  | [] => []
  | x :: xs' => x :: scan Rmax x xs'
  end.

(** [Series.min] of a non-empty series (NaN, here 0, on an empty one). *)
Definition smin (xs : series) : R :=
  match xs with
  | [] => 0
  | x :: xs' => foldl Rmin x xs'
  end.

(** [np.std] and [np.var] applied to a Series dispatch to the Series method
    with [ddof=0]: the population moments. *)
Definition np_var (xs : series) : R :=
  Rsum (map (fun x => (x - mean xs) * (x - mean xs)) xs) / INR (length xs).

Definition np_std (xs : series) : R := sqrt (np_var xs).

(** [np.cov(x, y)[0, 1]]: NumPy's default is the unbiased estimate,
    normalised by [n - 1]. *)
Definition np_cov01 (xs ys : series) : R :=
  Rsum (zip_with_R Rmult (map (fun x => x - mean xs) xs)
                         (map (fun y => y - mean ys) ys))
  / (INR (length xs) - 1).

End Series.

(** ** Dense matrices (the values of a square DataFrame or ndarray) *)

Module Matrix.

Definition matrix := list (list R).

Definition vget (v : list R) (i : nat) : R := nth i v 0.
Definition mget (A : matrix) (i j : nat) : R := nth j (nth i A []) 0.

(** Sum of [f 0 .. f (n-1)]. *)
Definition big_sum (f : nat -> R) (n : nat) : R := Series.Rsum (map f (seq 0 n)).

Definition mk_vector (n : nat) (f : nat -> R) : list R := map f (seq 0 n).

Definition mk_matrix (r c : nat) (f : nat -> nat -> R) : matrix :=
  map (fun i => mk_vector c (f i)) (seq 0 r).

(** [np.diag] of a square matrix. *)
Definition diag (A : matrix) : list R := mk_vector (length A) (fun i => mget A i i).

(** Vector dot product, [a.dot(b)]. *)
Definition dot (a b : list R) : R := Series.Rsum (Series.zip_with_R Rmult a b).

(** Matrix-vector product, [A @ v], for an [n]-column matrix. *)
Definition matvec (n : nat) (A : matrix) (v : list R) : list R :=
  map (fun row => big_sum (fun j => vget row j * vget v j) n) A.

(** Laplace expansion of the determinant along the first row. *)
Definition drop_nth {A : Type} (j : nat) (l : list A) : list A :=
  take j l ++ drop (S j) l.

Definition minor (j : nat) (A : matrix) : matrix := map (drop_nth j) (tl A).

Fixpoint det (n : nat) (A : matrix) : R :=
  match n with
  | O => 1
  | S k => big_sum (fun j => (-1) ^ j * mget A 0 j * det k (minor j A)) n
  end.

Definition set_col (j : nat) (b : list R) (A : matrix) : matrix :=
  zip_with (fun row bi => <[j := bi]> row) A b.

(** [np.linalg.solve A b] for a non-singular [n x n] system, by Cramer's
    rule (over the reals the solution is unique, whatever the method). *)
Definition solve (n : nat) (A : matrix) (b : list R) : list R :=
  mk_vector n (fun j => det n (set_col j b A) / det n A).

End Matrix.

(** ** Read-only data frames *)

(** A price table: named columns in file order, one price per month. *)
Definition frame := list (string * Series.series).

Definition columns (df : frame) : list string := map fst df.

(** [DataFrame.pct_change().dropna()], column by column. *)
Definition pct_change_frame (df : frame) : frame :=
  map (fun c => (fst c, Series.pct_change (snd c))) df.

(** [df[cols].dot(values)]: the matrix product of the selected columns with
    a plain list of coefficients; one entry per row of the frame. *)
Definition frame_dot (cols : list Series.series) (values : list R) : Series.series :=
  Matrix.mk_vector (length (hd [] cols))
    (fun t => Series.Rsum (Series.zip_with_R Rmult (map (fun c => Matrix.vget c t) cols) values)).

(** ** Closed-form helpers of the optimisation library *)

Module PyPfOpt.
Import Matrix.

(** [expected_returns.mean_historical_return(prices, compounding, frequency)]:
    per asset, the annualised geometric mean of the periodic returns when
    [compounding] holds, and the annualised arithmetic mean otherwise. *)
Definition mean_historical_return_1 (compounding : bool) (frequency : R)
    (prices : Series.series) : R :=
  let returns := Series.pct_change prices in
  if compounding
  then Rpower (foldr Rmult 1 (map (Rplus 1) returns))
              (frequency / INR (length returns)) - 1
  else Series.mean returns * frequency.

Definition mean_historical_return (prices : frame) (compounding : bool)
    (frequency : R) : list R :=
  map (fun c => mean_historical_return_1 compounding frequency (snd c)) prices.

(** [base_optimizer.portfolio_performance]: expected return [w . mu],
    volatility [sqrt (w' Sigma w)] and Sharpe ratio
    [(mu_p - risk_free_rate) / sigma_p]. *)
Definition portfolio_variance (w : list R) (cov : matrix) : R :=
  dot w (matvec (length w) cov w).

Definition portfolio_performance (w mu : list R) (cov : matrix)
    (risk_free_rate : R) : R * R * R :=
  let sigma := sqrt (portfolio_variance w cov) in
  let mu_p := dot w mu in
  (mu_p, sigma, (mu_p - risk_free_rate) / sigma).

(** [black_litterman.market_implied_prior_returns]: the equilibrium
    returns [delta * Sigma w_mkt + rf] implied by market capitalisations. *)
Definition market_implied_prior_returns (market_caps : list R)
    (risk_aversion : R) (cov : matrix) (risk_free_rate : R) : list R :=
  let mkt_weights := map (fun c => c / Series.Rsum market_caps) market_caps in
  map (fun x => risk_aversion * x + risk_free_rate)
      (matvec (length market_caps) cov mkt_weights).

(** [BlackLittermanModel(cov, absolute_views=views, pi=pi).bl_returns()]
    with the library defaults [tau = 0.05] and
    [omega = diag (diag (tau P Sigma P'))]:
    [pi + tau Sigma P' (P tau Sigma P' + omega)^-1 (Q - P pi)].
    A view on a ticker outside the universe, or a prior of the wrong
    length, raises ([None]). *)
Definition tau : R := 5 / 100.

Definition ticker_index (tickers : list string) (t : string) : option nat :=
  fst <$> list_find (fun x => x = t) tickers.

Definition bl_returns (tickers : list string) (cov : matrix)
    (absolute_views : list (string * R)) (pi : list R) : option (list R) :=
  idxs ← mapM (fun v => ticker_index tickers (fst v)) absolute_views;
  if negb (length pi =? length tickers)%nat then None else
  let n := length tickers in
  let K := length absolute_views in
  let Q := map snd absolute_views in
  let P := mk_matrix K n (fun i j => if (j =? nth i idxs O)%nat then 1 else 0) in
  let tau_sigma_P :=
    mk_matrix n K (fun i j => tau * big_sum (fun l => mget cov i l * mget P j l) n) in
  let P_tau_sigma_P :=
    mk_matrix K K (fun i j => big_sum (fun l => mget P i l * mget tau_sigma_P l j) n) in
  let omega :=
    mk_matrix K K (fun i j => if (i =? j)%nat then mget P_tau_sigma_P i i else 0) in
  let A := mk_matrix K K (fun i j => mget P_tau_sigma_P i j + mget omega i j) in
  let b := mk_vector K (fun i => vget Q i - big_sum (fun l => mget P i l * vget pi l) n) in
  let solution := solve K A b in
  Some (mk_vector n
          (fun i => vget pi i + big_sum (fun j => mget tau_sigma_P i j * vget solution j) K)).

End PyPfOpt.

(** ** The solver interface of the optimisation library

    [EfficientFrontier(expected_returns, cov_matrix, weight_bounds)] only
    records its arguments; the solvers either return the optimal weights or
    raise ([None]). *)

Record EfficientFrontier := mkEF {
  ef_expected_returns : list R;
  ef_cov_matrix : Matrix.matrix;
  ef_weight_bounds : R * R
}.

Class Optimizer := {
  (** [CovarianceShrinkage(prices, frequency).ledoit_wolf()] *)
  ledoit_wolf : frame -> R -> Matrix.matrix;
  (** [ef.max_sharpe(risk_free_rate)] *)
  max_sharpe : EfficientFrontier -> R -> option (list R);
  (** [ef.efficient_return(target_return)] *)
  efficient_return : EfficientFrontier -> R -> option (list R);
  (** [ef.min_volatility()] *)
  min_volatility : EfficientFrontier -> option (list R);
  (** the cut-off and rounding applied by [ef.clean_weights()] *)
  clean_weights : list R -> list R;
  (** [plotting.plot_efficient_frontier(ef, ...)]: [false] when it raises *)
  plot_efficient_frontier : EfficientFrontier -> bool
}.

(** ** Display events, widgets and the state of one run *)

Inductive event :=
| StError (msg : string)
| StWrite (msg : string)
| StSubheader (title : string)
| StMarkdown (body : string)
| StMetric (caption : string) (value : R)
| StWeights (d : list (string * R))
| StDataframe (caption : string) (index : list string) (cols : list (string * list R))
| StPyplot (figure : string).

Inductive label :=
| LabelMaxSharpe
| LabelEfficientReturn (percent : R)
| LabelMinimumVolatility.

Inductive exn :=
| NameError (variable : string)
| KeyError (key : string)
| OptimizationError
| PlottingError
| ValueError.

Record widgets := mkWidgets {
  optimization_method : string;
  lower_bound : R;
  upper_bound : R;
  rfr : R;
  target_return : R;
  quality_view : option R;
  value_view : option R;
  growth_view : option R;
  minvol_view : option R
}.

(** The options offered by the method select box. *)
Definition method_options : list string :=
  ["Efficient Return"; "Max Sharpe"; "Minimum Volatility"]%string.

(** The module-level names bound inside the [try] blocks ([None]: not yet
    bound), the mutable [returns] frame and the events displayed so far. *)
Record state := mkState {
  returns : gmap string Series.series;
  weights : option (list R);
  optimization_label : option label;
  cleaned_weights : option (list (string * R));
  expected_return : option R;
  portfolio_volatility : option R;
  sharpe_ratio : option R;
  display : list event
}.

Definition set_returns (f : gmap string Series.series -> gmap string Series.series)
    (s : state) : state :=
  mkState (f (returns s)) (weights s) (optimization_label s) (cleaned_weights s)
          (expected_return s) (portfolio_volatility s) (sharpe_ratio s) (display s).

Definition set_weights (v : list R) (s : state) : state :=
  mkState (returns s) (Some v) (optimization_label s) (cleaned_weights s)
          (expected_return s) (portfolio_volatility s) (sharpe_ratio s) (display s).

Definition set_optimization_label (v : label) (s : state) : state :=
  mkState (returns s) (weights s) (Some v) (cleaned_weights s)
          (expected_return s) (portfolio_volatility s) (sharpe_ratio s) (display s).

Definition set_cleaned_weights (v : list (string * R)) (s : state) : state :=
  mkState (returns s) (weights s) (optimization_label s) (Some v)
          (expected_return s) (portfolio_volatility s) (sharpe_ratio s) (display s).

Definition set_performance (p : R * R * R) (s : state) : state :=
  mkState (returns s) (weights s) (optimization_label s) (cleaned_weights s)
          (Some (fst (fst p))) (Some (snd (fst p))) (Some (snd p)) (display s).

Definition add_event (e : event) (s : state) : state :=
  mkState (returns s) (weights s) (optimization_label s) (cleaned_weights s)
          (expected_return s) (portfolio_volatility s) (sharpe_ratio s) (display s ++ [e]).

(** ** A state-and-exception monad for the script *)

Definition M (A : Type) : Type := state -> (exn + A) * state.

Definition ret {A : Type} (a : A) : M A := fun s => (inr a, s).

Definition bind {A B : Type} (m : M A) (k : A -> M B) : M B :=
  fun s => match m s with
           | (inl e, s') => (inl e, s')
           | (inr a, s') => k a s'
           end.

Definition raise {A : Type} (e : exn) : M A := fun s => (inl e, s).

Definition modify (f : state -> state) : M unit := fun s => (inr tt, f s).

#[global] Instance M_ret : MRet M := @ret.
#[global] Instance M_bind : MBind M := fun A B k m => bind m k.

(** Reading a module-level name that was never bound raises [NameError]. *)
Definition name {A : Type} (variable : string) (proj : state -> option A) : M A :=
  fun s => match proj s with
           | Some v => (inr v, s)
           | None => (inl (NameError variable), s)
           end.

Definition st (e : event) : M unit := modify (add_event e).

Definition or_raise {A : Type} (e : exn) (o : option A) : M A :=
  match o with Some a => ret a | None => raise e end.

(** [try: body / except: handler] with a bare [except]. *)
Definition try_except (body handler : M unit) : M unit :=
  fun s => match body s with
           | (inl _, s') => handler s'
           | (inr tt, s') => (inr tt, s')
           end.

(** [returns[keys]]: a missing column raises [KeyError]. *)
Definition select_columns (keys : list string) : M (list Series.series) :=
  fun s => match mapM (fun k => returns s !! k) keys with
           | Some cols => (inr cols, s)
           | None => (inl (KeyError "not in index"), s)
           end.

Definition column (key : string) : M Series.series :=
  fun s => match returns s !! key with
           | Some c => (inr c, s)
           | None => (inl (KeyError key), s)
           end.

(** [returns[key] = value] *)
Definition assign_column (key : string) (value : Series.series) : M unit :=
  modify (set_returns (insert key value)).

(** ** The analytics expressions of the script

    One definition per assignment of the metrics block; the parameters are
    the names the right-hand side reads. *)

#[global] Instance Rlt_decision : RelDecision Rlt := Rlt_dec.

Definition portfolio_returns (cols : list Series.series) (values : list R) : Series.series :=
  frame_dot cols values.

Definition cumulative_returns (portfolio_returns : Series.series) : Series.series :=
  Series.cumprod (map (Rplus 1) portfolio_returns).

Definition rolling_max (cumulative_returns : Series.series) : Series.series :=
  Series.cummax cumulative_returns.

Definition drawdowns (cumulative_returns rolling_max : Series.series) : Series.series :=
  Series.div (Series.sub cumulative_returns rolling_max) rolling_max.

Definition max_drawdown (drawdowns : Series.series) : R := Series.smin drawdowns.

Definition benchmark_returns (bmk_prices : Series.series) : Series.series :=
  Series.pct_change bmk_prices.

Definition active_returns (portfolio_returns benchmark_returns : Series.series) : Series.series :=
  Series.sub portfolio_returns benchmark_returns.

Definition active_risk (active_returns : Series.series) : R :=
  Series.np_std active_returns * sqrt 12.

Definition mrfr (rfr : R) : R := rfr / 12.

Definition excess_returns (Portfolio : Series.series) (mrfr : R) : Series.series :=
  map (fun r => r - mrfr) Portfolio.

Definition downside_returns (excess_returns : Series.series) : Series.series :=
  filter (fun e => e < 0) excess_returns.

(** When no month has a negative excess return, [downside_returns] is empty
    and pandas' [mean] of it is NaN, so the script reports a Sortino ratio
    of [nan]; the reals have no such value, and the statements about the
    Sortino ratio are made for the runs with a month below [rfr / 12]. *)
Definition downside_risk (downside_returns : Series.series) : R :=
  sqrt (Series.mean (map (fun d => d ^ 2) downside_returns)) * sqrt 12.

Definition sortino_ratio (excess_returns : Series.series) (downside_risk : R) : R :=
  (Series.mean excess_returns * 12) / downside_risk.

Definition covariance (Portfolio MSCI_USA : Series.series) : R :=
  Series.np_cov01 Portfolio MSCI_USA.

Definition benchmark_variance (MSCI_USA : Series.series) : R := Series.np_var MSCI_USA.

Definition beta (covariance benchmark_variance : R) : R := covariance / benchmark_variance.

Definition portfolio_return (Portfolio : Series.series) : R := Series.mean Portfolio * 12.

Definition benchmark_return (MSCI_USA : Series.series) : R := Series.mean MSCI_USA * 12.

Definition alpha (portfolio_return rfr beta benchmark_return : R) : R :=
  portfolio_return - (rfr + beta * (benchmark_return - rfr)).

Definition information_ratio (portfolio_return benchmark_return active_risk : R) : R :=
  (portfolio_return - benchmark_return) / active_risk.

(** The view dictionary filled by the four check boxes, in source order. *)
Definition view_entry (ticker : string) (v : option R) : list (string * R) :=
  match v with Some q => [(ticker, q)] | None => [] end.

Definition viewdict (w : widgets) : list (string * R) :=
  view_entry "USA QUALITY" (quality_view w) ++
  view_entry "USA LARGE VALUE" (value_view w) ++
  view_entry "USA LARGE GROWTH" (growth_view w) ++
  view_entry "USA MINIMUM VOLATILITY" (minvol_view w).

(** The two lines written by both [except] handlers. *)
Definition adjust_messages : list event :=
  [StWrite "Please adjust the input parameters";
   StWrite "Please ensure target return is lower than maximum possible return"].

Definition bounds_error : event := StError "Lower bound must be less than upper bound".

Definition except_handler : M unit :=
  st (StWrite "Please adjust the input parameters");;
  st (StWrite "Please ensure target return is lower than maximum possible return").

(** ** The script *)

Section Script.
Context `{Optimizer}.

(** *** Objective tab: estimation of the inputs of both optimisations *)

Definition expected_returns (data : frame) : list R :=
  PyPfOpt.mean_historical_return data true 12.

Definition cov_matrix (data : frame) : Matrix.matrix := ledoit_wolf data 12.

Definition asset_std_devs (data : frame) : list R :=
  map sqrt (Matrix.diag (cov_matrix data)).

Definition asset_assumptions (data : frame) : event :=
  StDataframe "asset_assumptions" (columns data)
    [("Expected Return"%string, expected_returns data);
     ("Standard Deviation"%string, asset_std_devs data)].

(** [data.head()]: the first five rows. *)
Definition data_head (data : frame) : event :=
  StDataframe "data.head()" (columns data)
    (map (fun c => (fst c, take 5 (snd c))) data).

(** Lines 37-97; the markdown body is abbreviated to its first words. *)
Definition objective_tab (data : frame) : M unit :=
  st (StSubheader "Objective");;
  st (StMarkdown "The investor has a portfolio of **$100 million** ...");;
  st (StSubheader "Uploaded Data Preview");;
  st (data_head data);;
  modify (set_returns (fun _ => list_to_map (pct_change_frame data)));;
  st (StSubheader "Correlation Matrix");;
  st (StPyplot "Correlation Matrix");;
  st (StSubheader "Asset Risk and Return Assumptions");;
  st (StWrite "Here are the expected returns and standard deviations for each asset:");;
  st (asset_assumptions data).

(** *** MVO tab *)

(** Lines 126-146: the bounds check and the dispatch on the method. *)
Definition mvo_optimization (data : frame) (w : widgets) : M unit :=
  if Rge_dec (lower_bound w) (upper_bound w)
  then st (StError "Lower bound must be less than upper bound")
  else
    let ef := mkEF (expected_returns data) (cov_matrix data)
                   (lower_bound w, upper_bound w) in
    ws ← (if String.eqb (optimization_method w) "Max Sharpe" then
            ws ← or_raise OptimizationError (max_sharpe ef (rfr w));
            modify (set_weights ws);;
            modify (set_optimization_label LabelMaxSharpe);;
            mret ws
          else if String.eqb (optimization_method w) "Efficient Return" then
            ws ← or_raise OptimizationError (efficient_return ef (target_return w));
            modify (set_weights ws);;
            modify (set_optimization_label (LabelEfficientReturn (target_return w * 100)));;
            mret ws
          else
            ws ← or_raise OptimizationError (min_volatility ef);
            modify (set_weights ws);;
            modify (set_optimization_label LabelMinimumVolatility);;
            mret ws);
    modify (set_cleaned_weights (zip (columns data) (clean_weights ws)));;
    modify (set_performance
              (PyPfOpt.portfolio_performance ws (ef_expected_returns ef)
                 (ef_cov_matrix ef) (rfr w))).

(** Lines 150-210: the frontier plot, the weights and the pie chart. *)
Definition mvo_charts (data : frame) (w : widgets) : M unit :=
  let efplot := mkEF (expected_returns data) (cov_matrix data)
                     (lower_bound w, upper_bound w) in
  (if plot_efficient_frontier efplot then mret tt else raise PlottingError);;
  _ ← name "portfolio_volatility" portfolio_volatility;
  _ ← name "expected_return" expected_return;
  _ ← name "optimization_label" optimization_label;
  st (StSubheader "Efficient Frontier");;
  st (StPyplot "Efficient Frontier");;
  st (StSubheader "Optimized Portfolio Weights");;
  cw ← name "cleaned_weights" cleaned_weights;
  st (StWeights cw);;
  _ ← name "cleaned_weights" cleaned_weights;
  st (StPyplot "Optimized Portfolio Allocation").

(** Lines 217-293: performance, drawdown and benchmark-relative metrics. *)
Definition mvo_metrics (bmk_prices : Series.series) (w : widgets) : M unit :=
  st (StSubheader "Portfolio Performance");;
  er ← name "expected_return" expected_return;
  st (StMetric "Expected Annual Return" er);;
  vol ← name "portfolio_volatility" portfolio_volatility;
  st (StMetric "Annual Volatility (Risk)" vol);;
  sr ← name "sharpe_ratio" sharpe_ratio;
  st (StMetric "Sharpe Ratio" sr);;
  st (StSubheader "Additional Metrics and Drawdown Analysis");;
  cw ← name "cleaned_weights" cleaned_weights;
  cols ← select_columns (map fst cw);
  cw' ← name "cleaned_weights" cleaned_weights;
  let portfolio_returns := portfolio_returns cols (map snd cw') in
  let cumulative_returns := cumulative_returns portfolio_returns in
  let rolling_max := rolling_max cumulative_returns in
  let drawdowns := drawdowns cumulative_returns rolling_max in
  let max_drawdown := max_drawdown drawdowns in
  st (StMetric "Maximum Drawdown" max_drawdown);;
  st (StPyplot "Portfolio Drawdown");;
  st (StSubheader "Benchmark relative metrics");;
  let benchmark_returns := benchmark_returns bmk_prices in
  let active_returns := active_returns portfolio_returns benchmark_returns in
  let active_risk := active_risk active_returns in
  assign_column "Portfolio" portfolio_returns;;
  assign_column "MSCI USA" benchmark_returns;;
  let mrfr := mrfr (rfr w) in
  Portfolio ← column "Portfolio";
  let excess_returns := excess_returns Portfolio mrfr in
  let downside_returns := downside_returns excess_returns in
  let downside_risk := downside_risk downside_returns in
  let sortino_ratio := sortino_ratio excess_returns downside_risk in
  Portfolio ← column "Portfolio";
  MSCI_USA ← column "MSCI USA";
  let covariance := covariance Portfolio MSCI_USA in
  MSCI_USA ← column "MSCI USA";
  let benchmark_variance := benchmark_variance MSCI_USA in
  let beta := beta covariance benchmark_variance in
  Portfolio ← column "Portfolio";
  let portfolio_return := portfolio_return Portfolio in
  MSCI_USA ← column "MSCI USA";
  let benchmark_return := benchmark_return MSCI_USA in
  let alpha := alpha portfolio_return (rfr w) beta benchmark_return in
  let information_ratio := information_ratio portfolio_return benchmark_return active_risk in
  st (StMetric "Active Risk (Tracking Error)" active_risk);;
  st (StMetric "Sortino Ratio" sortino_ratio);;
  st (StMetric "Beta" beta);;
  st (StMetric "Alpha" alpha);;
  st (StMetric "Information Ratio" information_ratio).

Definition mvo_tab (data : frame) (bmk_prices : Series.series) (w : widgets) : M unit :=
  try_except
    (mvo_optimization data w;; mvo_charts data w;; mvo_metrics bmk_prices w)
    except_handler.

(** *** Black-Litterman tab *)

(** Lines 347-367: the same check and dispatch over the posterior returns. *)
Definition bl_optimization (data : frame) (w : widgets) (rets : list R) : M unit :=
  if Rge_dec (lower_bound w) (upper_bound w)
  then st (StError "Lower bound must be less than upper bound")
  else
    let efbl := mkEF rets (cov_matrix data) (lower_bound w, upper_bound w) in
    ws ← (if String.eqb (optimization_method w) "Max Sharpe" then
            ws ← or_raise OptimizationError (max_sharpe efbl (rfr w));
            modify (set_weights ws);;
            modify (set_optimization_label LabelMaxSharpe);;
            mret ws
          else if String.eqb (optimization_method w) "Efficient Return" then
            ws ← or_raise OptimizationError (efficient_return efbl (target_return w));
            modify (set_weights ws);;
            modify (set_optimization_label (LabelEfficientReturn (target_return w * 100)));;
            mret ws
          else
            ws ← or_raise OptimizationError (min_volatility efbl);
            modify (set_weights ws);;
            modify (set_optimization_label LabelMinimumVolatility);;
            mret ws);
    modify (set_cleaned_weights (zip (columns data) (clean_weights ws)));;
    modify (set_performance
              (PyPfOpt.portfolio_performance ws (ef_expected_returns efbl)
                 (ef_cov_matrix efbl) (rfr w))).

(** Lines 371-431. *)
Definition bl_charts (data : frame) (w : widgets) (rets : list R) : M unit :=
  let efplot := mkEF rets (cov_matrix data) (lower_bound w, upper_bound w) in
  (if plot_efficient_frontier efplot then mret tt else raise PlottingError);;
  _ ← name "portfolio_volatility" portfolio_volatility;
  _ ← name "expected_return" expected_return;
  _ ← name "optimization_label" optimization_label;
  st (StSubheader "Efficient Frontier");;
  st (StPyplot "Efficient Frontier");;
  st (StSubheader "Optimized Portfolio Weights");;
  cw ← name "cleaned_weights" cleaned_weights;
  st (StWeights cw);;
  _ ← name "cleaned_weights" cleaned_weights;
  st (StPyplot "Optimized Portfolio Allocation").

(** Lines 438-514. *)
Definition bl_metrics (bmk_prices : Series.series) (w : widgets) : M unit :=
  st (StSubheader "Portfolio Performance");;
  er ← name "expected_return" expected_return;
  st (StMetric "Expected Annual Return" er);;
  vol ← name "portfolio_volatility" portfolio_volatility;
  st (StMetric "Annual Volatility (Risk)" vol);;
  sr ← name "sharpe_ratio" sharpe_ratio;
  st (StMetric "Sharpe Ratio" sr);;
  st (StSubheader "Additional Metrics and Drawdown Analysis");;
  cw ← name "cleaned_weights" cleaned_weights;
  cols ← select_columns (map fst cw);
  cw' ← name "cleaned_weights" cleaned_weights;
  let portfolio_returns := portfolio_returns cols (map snd cw') in
  let cumulative_returns := cumulative_returns portfolio_returns in
  let rolling_max := rolling_max cumulative_returns in
  let drawdowns := drawdowns cumulative_returns rolling_max in
  let max_drawdown := max_drawdown drawdowns in
  st (StMetric "Maximum Drawdown" max_drawdown);;
  st (StPyplot "Portfolio Drawdown");;
  st (StSubheader "Benchmark relative metrics");;
  let benchmark_returns := benchmark_returns bmk_prices in
  let active_returns := active_returns portfolio_returns benchmark_returns in
  let active_risk := active_risk active_returns in
  assign_column "Portfolio" portfolio_returns;;
  assign_column "MSCI USA" benchmark_returns;;
  let mrfr := mrfr (rfr w) in
  Portfolio ← column "Portfolio";
  let excess_returns := excess_returns Portfolio mrfr in
  let downside_returns := downside_returns excess_returns in
  let downside_risk := downside_risk downside_returns in
  let sortino_ratio := sortino_ratio excess_returns downside_risk in
  Portfolio ← column "Portfolio";
  MSCI_USA ← column "MSCI USA";
  let covariance := covariance Portfolio MSCI_USA in
  MSCI_USA ← column "MSCI USA";
  let benchmark_variance := benchmark_variance MSCI_USA in
  let beta := beta covariance benchmark_variance in
  Portfolio ← column "Portfolio";
  let portfolio_return := portfolio_return Portfolio in
  MSCI_USA ← column "MSCI USA";
  let benchmark_return := benchmark_return MSCI_USA in
  let alpha := alpha portfolio_return (rfr w) beta benchmark_return in
  let information_ratio := information_ratio portfolio_return benchmark_return active_risk in
  st (StMetric "Active Risk (Tracking Error)" active_risk);;
  st (StMetric "Sortino Ratio" sortino_ratio);;
  st (StMetric "Beta" beta);;
  st (StMetric "Alpha" alpha);;
  st (StMetric "Information Ratio" information_ratio).

(** Lines 327-329: the posterior returns shown in the tab. The prior handed
    to the model is the vector of historical mean returns. *)
Definition bl_rets (tickers : list string) (expected_returns : list R)
    (cov_matrix : Matrix.matrix) (viewdict : list (string * R)) : option (list R) :=
  PyPfOpt.bl_returns tickers cov_matrix viewdict expected_returns.

Definition bl_header : list event :=
  [StSubheader "Black Litterman Implied Returns";
   StWrite "Black Litterman essentially uses a weighted average between the prior estimate of returns and the views, where the weighting is determined by the confidence in the views";
   StWrite "We can set absolute return views for one or multiple asset classes.";
   StWrite "Incorporating these views moves the expected return assumptions away from the historical mean returns vector"].

Definition bl_tab (data : frame) (bmk_prices : Series.series) (w : widgets) : M unit :=
  st (StSubheader "Black Litterman Implied Returns");;
  st (StWrite "Black Litterman essentially uses a weighted average between the prior estimate of returns and the views, where the weighting is determined by the confidence in the views");;
  st (StWrite "We can set absolute return views for one or multiple asset classes.");;
  st (StWrite "Incorporating these views moves the expected return assumptions away from the historical mean returns vector");;
  rets ← or_raise ValueError
            (bl_rets (columns data) (expected_returns data) (cov_matrix data) (viewdict w));
  st (StDataframe "rets_df" (columns data) [("Expected Return"%string, rets)]);;
  try_except
    (bl_optimization data w rets;; bl_charts data w rets;; bl_metrics bmk_prices w)
    except_handler.

(** *** The namespace of a fresh run *)

Definition fresh : state := mkState ∅ None None None None None None [].

End Script.

(** ** Specification-side definitions

    Written from the statements of the properties, index by index, to be
    compared with the list programs above. *)

Module Spec.
Import Matrix.

(** The portfolio's return in month [t]: row [t] of the asset return matrix
    dotted with the weights. *)
Definition portfolio_at (asset_returns : list Series.series) (wts : list R) (t : nat) : R :=
  big_sum (fun j => mget asset_returns j t * vget wts j) (length asset_returns).

(** Mean and (population) standard deviation of [f 0 .. f (T-1)]. *)
Definition mean_upto (f : nat -> R) (T : nat) : R := big_sum f T / INR T.

Definition stdev_upto (f : nat -> R) (T : nat) : R :=
  sqrt (big_sum (fun t => (f t - mean_upto f T) ^ 2) T / INR T).

(** Tracking error: standard deviation of the monthly return difference,
    annualised by the square root of 12. *)
Definition tracking_error (p b : nat -> R) (T : nat) : R :=
  stdev_upto (fun t => p t - b t) T * sqrt 12.

(** Cumulative growth [C_t], the product of [1 + r_s] for [s <= t]. *)
Definition growth (r : nat -> R) (t : nat) : R :=
  foldr Rmult 1 (map (fun s => 1 + r s) (seq 0 (S t))).

(** [m] is the maximum of [C] over the times up to [t]. *)
Definition is_max_upto (C : nat -> R) (t : nat) (m : R) : Prop :=
  (forall s, (s <= t)%nat -> C s <= m) /\ (exists s, (s <= t)%nat /\ m = C s).

(** [v] is the minimum of [f] over the times before [T]. *)
Definition is_min_before (f : nat -> R) (T : nat) (v : R) : Prop :=
  (forall t, (t < T)%nat -> v <= f t) /\ (exists t, (t < T)%nat /\ v = f t).

(** Downside risk: root mean square of the negative excess returns only,
    annualised. *)
Definition negative_months (e : nat -> R) (T : nat) : R :=
  big_sum (fun t => if Rlt_dec (e t) 0 then 1 else 0) T.

Definition downside_deviation (e : nat -> R) (T : nat) : R :=
  sqrt (big_sum (fun t => if Rlt_dec (e t) 0 then (e t) ^ 2 else 0) T
        / negative_months e T) * sqrt 12.

Definition sortino (p : nat -> R) (rfr : R) (T : nat) : R :=
  let e := fun t => p t - rfr / 12 in
  (mean_upto e T * 12) / downside_deviation e T.

(** Covariance and variance of two samples under one normalisation
    ([ddof = 0] for the population moments, [1] for the unbiased ones). *)
Definition cov_upto (ddof : nat) (x y : nat -> R) (T : nat) : R :=
  big_sum (fun t => (x t - mean_upto x T) * (y t - mean_upto y T)) T
  / (INR T - INR ddof).

Definition var_upto (ddof : nat) (y : nat -> R) (T : nat) : R := cov_upto ddof y y T.

(** Beta: covariance with the benchmark over the benchmark's variance. *)
Definition beta (ddof : nat) (p b : nat -> R) (T : nat) : R :=
  cov_upto ddof p b T / var_upto ddof b T.

(** The portfolio's variance, the quadratic form [w' Sigma w]. *)
Definition variance (w : list R) (cov : matrix) : R :=
  let n := length w in
  big_sum (fun i => big_sum (fun j => vget w i * mget cov i j * vget w j) n) n.

(** Sharpe ratio on total volatility: excess expected return over the
    square root of the quadratic form [w' Sigma w]. *)
Definition sharpe (w mu : list R) (cov : matrix) (rfr : R) : R :=
  let n := length w in
  (big_sum (fun i => vget w i * vget mu i) n - rfr) / sqrt (variance w cov).

(** Annualised geometric mean of [T] monthly returns, at 12 periods per
    year. *)
Definition geometric_mean_return (r : nat -> R) (T : nat) : R :=
  Rpower (foldr Rmult 1 (map (fun t => 1 + r t) (seq 0 T))) (12 / INR T) - 1.

(** Annualised compound growth rate of a price series observed over
    [T] months. *)
Definition compound_annual_return (first last : R) (T : nat) : R :=
  Rpower (last / first) (12 / INR T) - 1.

(** The property that the displayed posterior blends a market-implied prior:
    some market data, fixed independently of the historical means, yields
    the prior of every displayed posterior. *)
Definition blends_market_implied_prior (tickers : list string)
    (displayed : list R -> matrix -> list (string * R) -> option (list R)) : Prop :=
  exists market_caps risk_aversion risk_free_rate,
    forall expected_returns cov views,
      displayed expected_returns cov views =
      PyPfOpt.bl_returns tickers cov views
        (PyPfOpt.market_implied_prior_returns market_caps risk_aversion cov risk_free_rate).

End Spec.

Section Specification.
Context `{Optimizer}.

(** The frontier object of the MVO tab. *)
Definition mvo_frontier (data : frame) (w : widgets) : EfficientFrontier :=
  mkEF (expected_returns data) (cov_matrix data) (lower_bound w, upper_bound w).

(** [ws] solves the problem the user selected: max-Sharpe at the user's
    risk-free rate, minimum risk at the user's target return, or minimum
    variance. *)
Definition solves_selected_problem (ef : EfficientFrontier) (w : widgets)
    (ws : list R) : Prop :=
  (optimization_method w = "Max Sharpe"%string /\ max_sharpe ef (rfr w) = Some ws) \/
  (optimization_method w = "Efficient Return"%string /\
   efficient_return ef (target_return w) = Some ws) \/
  (optimization_method w = "Minimum Volatility"%string /\ min_volatility ef = Some ws).

Definition selected_optimization_fails (ef : EfficientFrontier) (w : widgets) : Prop :=
  (optimization_method w = "Max Sharpe"%string /\ max_sharpe ef (rfr w) = None) \/
  (optimization_method w = "Efficient Return"%string /\
   efficient_return ef (target_return w) = None) \/
  (optimization_method w = "Minimum Volatility"%string /\ min_volatility ef = None).

(** The values of [returns[tickers]]: the monthly returns of each asset. *)
Definition asset_returns (data : frame) : list Series.series :=
  map (fun c => Series.pct_change (snd c)) data.

(** What a tab displays after a successful optimisation. *)
Definition charts_report (cw : list (string * R)) : list event :=
  [StSubheader "Efficient Frontier"; StPyplot "Efficient Frontier";
   StSubheader "Optimized Portfolio Weights"; StWeights cw;
   StPyplot "Optimized Portfolio Allocation"].

Definition metrics_report (perf : R * R * R) (cw : list (string * R))
    (cols : list Series.series) (bmk_prices : Series.series) (rfr : R) : list event :=
  let p := portfolio_returns cols (map snd cw) in
  let b := benchmark_returns bmk_prices in
  let cum := cumulative_returns p in
  let ar := active_risk (active_returns p b) in
  let e := excess_returns p (mrfr rfr) in
  let bt := beta (covariance p b) (benchmark_variance b) in
  [StSubheader "Portfolio Performance";
   StMetric "Expected Annual Return" (fst (fst perf));
   StMetric "Annual Volatility (Risk)" (snd (fst perf));
   StMetric "Sharpe Ratio" (snd perf);
   StSubheader "Additional Metrics and Drawdown Analysis";
   StMetric "Maximum Drawdown" (max_drawdown (drawdowns cum (rolling_max cum)));
   StPyplot "Portfolio Drawdown";
   StSubheader "Benchmark relative metrics";
   StMetric "Active Risk (Tracking Error)" ar;
   StMetric "Sortino Ratio" (sortino_ratio e (downside_risk (downside_returns e)));
   StMetric "Beta" bt;
   StMetric "Alpha" (alpha (portfolio_return p) rfr bt (benchmark_return b));
   StMetric "Information Ratio"
     (information_ratio (portfolio_return p) (benchmark_return b) ar)].

Definition objective_report (data : frame) : list event :=
  [StSubheader "Objective";
   StMarkdown "The investor has a portfolio of **$100 million** ...";
   StSubheader "Uploaded Data Preview"; data_head data;
   StSubheader "Correlation Matrix"; StPyplot "Correlation Matrix";
   StSubheader "Asset Risk and Return Assumptions";
   StWrite "Here are the expected returns and standard deviations for each asset:";
   asset_assumptions data].

(** The events that report a result of the optimisation: the weights, a
    performance figure or a benchmark-relative metric. *)
Definition is_result (e : event) : bool :=
  match e with
  | StWeights _ | StMetric _ _ => true
  | _ => false
  end.

(** The frontier object of the Black-Litterman tab and the table of
    posterior returns. *)
Definition bl_frontier (data : frame) (w : widgets) (rets : list R) : EfficientFrontier :=
  mkEF rets (cov_matrix data) (lower_bound w, upper_bound w).

Definition rets_df (data : frame) (rets : list R) : event :=
  StDataframe "rets_df" (columns data) [("Expected Return"%string, rets)].

(** States reached by a run: [shown] appends events, [optimized] binds the
    names assigned by a successful optimisation, [measured] also stores the
    two columns the metrics block adds to [returns]. *)
Definition shown (evs : list event) (s : state) : state :=
  mkState (returns s) (weights s) (optimization_label s) (cleaned_weights s)
    (expected_return s) (portfolio_volatility s) (sharpe_ratio s) (display s ++ evs).

Definition bound_label (w : widgets) : label :=
  if String.eqb (optimization_method w) "Max Sharpe" then LabelMaxSharpe
  else if String.eqb (optimization_method w) "Efficient Return"
       then LabelEfficientReturn (target_return w * 100)
       else LabelMinimumVolatility.

Definition optimized (ef : EfficientFrontier) (tickers : list string) (w : widgets)
    (ws : list R) (s : state) : state :=
  let perf := PyPfOpt.portfolio_performance ws (ef_expected_returns ef)
                (ef_cov_matrix ef) (rfr w) in
  mkState (returns s) (Some ws) (Some (bound_label w))
    (Some (zip tickers (clean_weights ws)))
    (Some (fst (fst perf))) (Some (snd (fst perf))) (Some (snd perf)) (display s).

Definition measured (p b : Series.series) (evs : list event) (s : state) : state :=
  mkState (<["MSCI USA" := b]> (<["Portfolio" := p]> (returns s)))
    (weights s) (optimization_label s) (cleaned_weights s)
    (expected_return s) (portfolio_volatility s) (sharpe_ratio s) (display s ++ evs).

(** The state in which the script enters the MVO tab, and the one it leaves
    it in. *)
Definition before_mvo (data : frame) : state := snd (objective_tab data fresh).

Definition after_mvo (data : frame) (bmk_prices : Series.series) (w : widgets) : state :=
  snd (mvo_tab data bmk_prices w (before_mvo data)).

Definition after_bl (data : frame) (bmk_prices : Series.series) (w : widgets) : state :=
  snd (bl_tab data bmk_prices w (after_mvo data bmk_prices w)).

(** A run in which the MVO tab gets through: valid bounds, the selected
    problem has the solution [ws], the frontier plot is drawn, the price
    table has distinct column names and the optimiser returns one weight per
    asset. *)
Definition successful_run (data : frame) (w : widgets) (ws : list R) : Prop :=
  lower_bound w < upper_bound w /\
  solves_selected_problem (mvo_frontier data w) w ws /\
  plot_efficient_frontier (mvo_frontier data w) = true /\
  NoDup (columns data) /\
  length (clean_weights ws) = length data.

(** The column names the metrics block adds to [returns] are not asset
    names. *)
Definition no_reserved_column (data : frame) : Prop :=
  ~ In "Portfolio"%string (columns data) /\ ~ In "MSCI USA"%string (columns data).

(** The number of monthly returns, and the assumption that the asset and
    benchmark files cover the same months. *)
Definition months (bmk_prices : Series.series) : nat := length (Series.pct_change bmk_prices).

Definition aligned (data : frame) (bmk_prices : Series.series) : Prop :=
  data <> [] /\ forall c, In c data -> length (snd c) = length bmk_prices.

End Specification.

(** ** Loading and cleaning a price file (lines 29-35 and 250-256)

    A sheet read by [pd.read_excel] is a list of named columns of cells; a
    cell is a number, a text or a missing value (NaN). The float columns the
    cleaning loop produces may still hold NaN ([None]); [dropna] removes the
    rows that do. *)

Module Cleaning.
Import Stdlib.Strings.Ascii.

Inductive cell :=
| Num (x : R)
| Text (s : string)
| Missing.

Definition raw_frame := list (string * list cell).
Definition float_frame := list (string * list (option R)).

(** The character the loop removes from the text cells. *)
Definition comma : Ascii.ascii := ","%char.

Fixpoint remove_commas (s : string) : string :=
  match s with
  | EmptyString => EmptyString
  | String c s' =>
      if Ascii.eqb c comma then remove_commas s' else String c (remove_commas s')
  end.

(** [Series.replace] of every comma by the empty text ([regex=True]): only
    text cells are rewritten. *)
Definition replace (col : list cell) : list cell :=
  map (fun c => match c with Text s => Text (remove_commas s) | _ => c end) col.

Section Parsers.

(** Python's [float(s)] and the parser of [pd.to_numeric]: [None] when the
    text has no numeric reading, otherwise a number or NaN. *)
Variable float : string -> option (option R).
Variable numeric : string -> option (option R).

(** [Series.astype(float)]: one text cell without a float reading raises
    [ValueError] ([None]). *)
Definition astype_float (col : list cell) : option (list (option R)) :=
  mapM (fun c => match c with
                 | Num x => Some (Some x)
                 | Text s => float s
                 | Missing => Some None
                 end) col.

(** [pd.to_numeric(col, errors='coerce')]: a text cell without a numeric
    reading becomes NaN. *)
Definition to_numeric (col : list cell) : list (option R) :=
  map (fun c => match c with
                | Num x => Some x
                | Text s => match numeric s with Some v => v | None => None end
                | Missing => None
                end) col.

(** A float column seen as a column of cells. *)
Definition cells (col : list (option R)) : list cell :=
  map (fun v => match v with Some x => Num x | None => Missing end) col.

(** The body of the loop, lines 33-34. *)
Definition clean_column (col : list cell) : option (list (option R)) :=
  floats ← astype_float (replace col);
  Some (to_numeric (cells floats)).

(** The loop over [data.columns], lines 32-34. *)
Definition clean (raw : raw_frame) : option float_frame :=
  mapM (fun c => col ← clean_column (snd c); Some (fst c, col)) raw.

(** [DataFrame.dropna()], line 35: a row is kept when no column is missing
    in it. The rows of a table are those of its first column. *)
Definition nrows (df : float_frame) : nat :=
  match df with [] => O | c :: _ => length (snd c) end.

Definition notna (df : float_frame) (t : nat) : bool :=
  forallb (fun c => match nth t (snd c) None with Some _ => true | None => false end) df.

Definition kept_rows (df : float_frame) : list nat :=
  List.filter (notna df) (seq 0 (nrows df)).

Definition dropna (df : float_frame) : frame :=
  map (fun c => (fst c, omap (fun t => nth t (snd c) None) (kept_rows df))) df.

(** Lines 29-35: the price table the rest of the script works on. *)
Definition load (raw : raw_frame) : option frame :=
  df ← clean raw; Some (dropna df).

End Parsers.

(** A table of numbers as a sheet. *)
Definition sheet (df : frame) : raw_frame :=
  map (fun c => (fst c, map Num (snd c))) df.

End Cleaning.

(** ** The correlation matrix of the objective tab *)

(** [Series.corr], Pearson's coefficient: the co-moment of the two series
    over the square root of the product of their second moments (the
    normalisation cancels). *)
Definition corr (xs ys : Series.series) : R :=
  let dx := map (fun x => x - Series.mean xs) xs in
  let dy := map (fun y => y - Series.mean ys) ys in
  Matrix.dot dx dy / sqrt (Matrix.dot dx dx * Matrix.dot dy dy).

(** [returns.corr()], line 70: one row and one column per column of the
    frame. *)
Definition correlation_matrix (returns : frame) : Matrix.matrix :=
  map (fun a => map (fun b => corr (snd a) (snd b)) returns) returns.

(** ** Invariants of a run *)

(** [m] relates every state it is started in to the state it ends in,
    whether it returns or raises. *)
Definition preserves (Rel : state -> state -> Prop) {A : Type} (m : M A) : Prop :=
  forall s, Rel s (snd (m s)).

(** The columns of [returns] other than the two the metrics blocks assign
    are the same in both states. *)
Definition same_asset_columns (s s' : state) : Prop :=
  forall k, k <> "Portfolio"%string -> k <> "MSCI USA"%string ->
            returns s' !! k = returns s !! k.

(** Everything displayed in [s] is still displayed, in the same place, in
    [s']. *)
Definition display_extended (s s' : state) : Prop := display s `prefix_of` display s'.

(** ** A small universe used to instantiate the statements *)

Module Sample.

(** Two assets over three months, and a benchmark. *)
Definition data : frame :=
  [("USA QUALITY"%string, [100; 110; 121]);
   ("USA LARGE VALUE"%string, [100; 100; 110])].

Definition bmk_prices : Series.series := [100; 105; 110].

(** The same two assets when both fall by 10% in the second month. *)
Definition data_with_a_loss : frame :=
  [("USA QUALITY"%string, [100; 110; 99]);
   ("USA LARGE VALUE"%string, [100; 100; 90])].

Definition cov : Matrix.matrix := [[4 / 100; 1 / 100]; [1 / 100; 9 / 100]].

(** An optimiser that returns the equally weighted portfolio, and rejects
    every target return. *)
#[local] Instance optimizer : Optimizer := {|
  ledoit_wolf := fun _ _ => cov;
  max_sharpe := fun _ _ => Some [1 / 2; 1 / 2];
  efficient_return := fun _ _ => None;
  min_volatility := fun _ => Some [1 / 2; 1 / 2];
  clean_weights := fun ws => ws;
  plot_efficient_frontier := fun _ => true
|}.

Definition widgets_of (method : string) (lb ub : R) : widgets :=
  mkWidgets method lb ub (3 / 100) (8 / 100) None None None None.

Definition one_view (q : R) : widgets :=
  mkWidgets "Max Sharpe" 0 1 (3 / 100) (8 / 100) (Some q) None None None.

(** Two assets that both replicate the benchmark: monthly returns of 1% and
    3%. *)
Definition tracker_prices : Series.series := [100; 101; 10403 / 100].

Definition trackers : frame :=
  [("USA QUALITY"%string, tracker_prices); ("USA LARGE VALUE"%string, tracker_prices)].

End Sample.

(** The same universe with a frontier plot that raises. *)

Module SampleNoPlot.

#[local] Instance optimizer : Optimizer := {|
  ledoit_wolf := fun _ _ => Sample.cov;
  max_sharpe := fun _ _ => Some [1 / 2; 1 / 2];
  efficient_return := fun _ _ => None;
  min_volatility := fun _ => Some [1 / 2; 1 / 2];
  clean_weights := fun ws => ws;
  plot_efficient_frontier := fun _ => false
|}.

End SampleNoPlot.

(** * Properties *)

Import Series Matrix.

(** ** The primitives on small series *)

Ltac compare_reals :=
  unfold Rmax, Rmin; repeat (destruct (Rle_dec _ _); try lra); try lra.

Ltac list_of_reals := repeat (f_equal; try (field || compare_reals)).

Example pct_change_3 : pct_change [100; 110; 121] = [1 / 10; 1 / 10].
Proof. unfold pct_change. cbn [tl zip_with_R]. list_of_reals. Qed.

Example cumprod_3 : cumprod [2; 3; 4] = [2; 6; 24].
Proof. cbn [cumprod scan]. list_of_reals. Qed.

Example cummax_3 : cummax [1; 3; 2] = [1; 3; 3].
Proof. cbn [cummax scan]. list_of_reals. Qed.

Example smin_3 : smin [0; -1 / 2; -9 / 20] = -1 / 2.
Proof. cbn [smin foldl]. compare_reals. Qed.

(** A gain of 10%, a loss of 50%, a gain of 10%: the drawdown bottoms at
    50% below the first month's peak. *)
Example max_drawdown_3 :
  let cum := cumulative_returns [1 / 10; -1 / 2; 1 / 10] in
  max_drawdown (drawdowns cum (rolling_max cum)) = -1 / 2.
Proof.
  cbv [cumulative_returns rolling_max drawdowns max_drawdown cumprod cummax scan
       smin map foldl div sub zip_with_R].
  compare_reals.
Qed.

Example np_var_2 : np_var [1; 3] = 1.
Proof. cbv [np_var mean Rsum map foldr length INR]. field. Qed.

Example np_cov01_2 : np_cov01 [1; 3] [1; 3] = 2.
Proof. cbv [np_cov01 mean Rsum map foldr length INR zip_with_R]. field. Qed.

Example frame_dot_2 : frame_dot [[1; 2]; [3; 4]] [1 / 2; 1 / 2] = [2; 3].
Proof.
  cbv [frame_dot mk_vector hd length seq map vget nth zip_with_R Rsum foldr].
  list_of_reals.
Qed.

(** ** Sums and indexing *)

Lemma Rsum_cons x xs : Rsum (x :: xs) = x + Rsum xs.
Proof. reflexivity. Qed.

Lemma length_zip_with_R f xs ys :
  length (zip_with_R f xs ys) = Nat.min (length xs) (length ys).
Proof.
  revert ys. induction xs as [|x xs IH]; intros [|y ys]; simpl; auto.
Qed.

Lemma nth_zip_with_R f xs ys t :
  (t < length xs)%nat -> (t < length ys)%nat ->
  nth t (zip_with_R f xs ys) 0 = f (nth t xs 0) (nth t ys 0).
Proof.
  revert ys t. induction xs as [|x xs IH]; intros [|y ys] [|t]; simpl; intros; try lia; auto.
  apply IH; lia.
Qed.

Lemma big_sum_ext f g n :
  (forall t, (t < n)%nat -> f t = g t) -> big_sum f n = big_sum g n.
Proof.
  intros E. unfold big_sum. f_equal. apply map_ext_in.
  intros t Ht. apply in_seq in Ht. apply E. lia.
Qed.

Lemma big_sum_S f n : big_sum f (S n) = f O + big_sum (fun t => f (S t)) n.
Proof.
  unfold big_sum. rewrite <- cons_seq, <- seq_shift. simpl.
  rewrite map_map. reflexivity.
Qed.

Lemma big_sum_last f n : big_sum f (S n) = big_sum f n + f n.
Proof.
  unfold big_sum. rewrite seq_S, map_app. simpl.
  induction (map f (seq 0 n)) as [|x l IH]; simpl; [lra|]. rewrite IH. lra.
Qed.

Lemma Rsum_map_nth (g : R -> R) xs :
  Rsum (map g xs) = big_sum (fun t => g (nth t xs 0)) (length xs).
Proof.
  induction xs as [|x xs IH]; [reflexivity|].
  cbn [length]. rewrite big_sum_S. simpl. rewrite IH. reflexivity.
Qed.

Lemma Rsum_nth xs : Rsum xs = big_sum (fun t => nth t xs 0) (length xs).
Proof. rewrite <- (Rsum_map_nth (fun x => x)), map_id. reflexivity. Qed.

Lemma big_sum_zero n : big_sum (fun _ => 0) n = 0.
Proof. induction n; [reflexivity|]. rewrite big_sum_last, IHn. lra. Qed.

Lemma length_mk_vector n f : length (mk_vector n f) = n.
Proof. unfold mk_vector. rewrite length_map, length_seq. reflexivity. Qed.

Lemma nth_mk_vector n f t : (t < n)%nat -> nth t (mk_vector n f) 0 = f t.
Proof.
  intros Ht. unfold mk_vector.
  rewrite (nth_indep _ 0 (f O)) by (rewrite length_map, length_seq; lia).
  rewrite map_nth, seq_nth by lia. reflexivity.
Qed.

Lemma mean_spec xs : mean xs = Spec.mean_upto (fun t => nth t xs 0) (length xs).
Proof. unfold mean, Spec.mean_upto. rewrite Rsum_nth. reflexivity. Qed.

Lemma np_std_spec xs :
  np_std xs = Spec.stdev_upto (fun t => nth t xs 0) (length xs).
Proof.
  unfold np_std, np_var, Spec.stdev_upto. rewrite Rsum_map_nth, mean_spec.
  do 2 f_equal. apply big_sum_ext. intros. simpl. ring.
Qed.

Lemma mean_upto_ext f g n :
  (forall t, (t < n)%nat -> f t = g t) -> Spec.mean_upto f n = Spec.mean_upto g n.
Proof. intros E. unfold Spec.mean_upto. rewrite (big_sum_ext f g n E). reflexivity. Qed.

Lemma stdev_upto_ext f g n :
  (forall t, (t < n)%nat -> f t = g t) -> Spec.stdev_upto f n = Spec.stdev_upto g n.
Proof.
  intros E. unfold Spec.stdev_upto. rewrite (mean_upto_ext f g n E).
  do 2 f_equal. apply big_sum_ext. intros t Ht. rewrite E by exact Ht. reflexivity.
Qed.

(** The reported tracking error against its index-wise statement. *)
Lemma active_risk_spec p b :
  length p = length b ->
  active_risk (active_returns p b) =
  Spec.tracking_error (fun t => nth t p 0) (fun t => nth t b 0) (length p).
Proof.
  intros E. unfold active_risk, active_returns, Spec.tracking_error, sub.
  rewrite np_std_spec, length_zip_with_R, <- E, Nat.min_id.
  f_equal. apply stdev_upto_ext. intros t Ht. apply nth_zip_with_R; lia.
Qed.

Lemma dot_spec a b : dot a b = big_sum (fun i => vget a i * vget b i) (length a).
Proof.
  unfold dot. revert b. induction a as [|x a IH]; intros b; [reflexivity|].
  cbn [length]. rewrite big_sum_S. destruct b as [|y b].
  - cbn [zip_with_R]. unfold vget. cbn [nth].
    rewrite (big_sum_ext _ (fun _ => 0)), big_sum_zero.
    + unfold Rsum. cbn [foldr]. lra.
    + intros i _. destruct i; cbn [nth]; lra.
  - cbn [zip_with_R]. rewrite Rsum_cons, IH. reflexivity.
Qed.

Lemma length_frame_dot cols values :
  length (frame_dot cols values) = length (hd [] cols).
Proof. apply length_mk_vector. Qed.

Lemma nth_frame_dot cols values t :
  (t < length (hd [] cols))%nat ->
  nth t (frame_dot cols values) 0 = Spec.portfolio_at cols values t.
Proof.
  intros Ht. unfold frame_dot, Spec.portfolio_at.
  rewrite nth_mk_vector by exact Ht.
  fold (dot (map (fun c => vget c t) cols) values).
  rewrite dot_spec, length_map. apply big_sum_ext. intros j Hj. f_equal.
  unfold vget, mget.
  rewrite (nth_indep (map (fun c => nth t c 0) cols) 0 ((fun c => nth t c 0) []))
    by (rewrite length_map; exact Hj).
  apply (map_nth (fun c => nth t c 0)).
Qed.

(** ** Scans: cumulative product and running maximum *)

Lemma Rmax_cases a b : Rmax a b = a \/ Rmax a b = b.
Proof. unfold Rmax. destruct (Rle_dec a b); auto. Qed.

Lemma Rmin_cases a b : Rmin a b = a \/ Rmin a b = b.
Proof. unfold Rmin. destruct (Rle_dec a b); auto. Qed.

Lemma length_scan f acc xs : length (scan f acc xs) = length xs.
Proof. revert acc. induction xs; simpl; auto. Qed.

Lemma length_cumprod xs : length (cumprod xs) = length xs.
Proof. destruct xs; simpl; [|rewrite length_scan]; reflexivity. Qed.

Lemma length_cummax xs : length (cummax xs) = length xs.
Proof. destruct xs; simpl; [|rewrite length_scan]; reflexivity. Qed.

Lemma nth_scan_mult acc xs t :
  (t < length xs)%nat ->
  nth t (scan Rmult acc xs) 0 = acc * foldr Rmult 1 (take (S t) xs).
Proof.
  revert acc t. induction xs as [|x xs IH]; intros acc t Ht; simpl in Ht; [lia|].
  destruct t as [|t]; simpl.
  - destruct xs; simpl; lra.
  - rewrite IH by lia. simpl. lra.
Qed.

Lemma nth_cumprod xs t :
  (t < length xs)%nat -> nth t (cumprod xs) 0 = foldr Rmult 1 (take (S t) xs).
Proof.
  destruct xs as [|x xs]; simpl; [lia|]. intros Ht.
  destruct t as [|t]; simpl.
  - destruct xs; simpl; lra.
  - rewrite nth_scan_mult by lia. reflexivity.
Qed.

Lemma take_map_nth (g : R -> R) l k :
  (k <= length l)%nat ->
  map (fun s => g (nth s l 0)) (seq 0 k) = take k (map g l).
Proof.
  revert k. induction l as [|x l IH]; intros k Hk; simpl in Hk.
  - assert (k = O) by lia. subst. reflexivity.
  - destruct k as [|k]; [reflexivity|].
    rewrite <- cons_seq, <- seq_shift. simpl. rewrite map_map.
    f_equal. apply IH. lia.
Qed.

Lemma nth_cumulative_returns pr t :
  (t < length pr)%nat ->
  nth t (cumulative_returns pr) 0 = Spec.growth (fun s => nth s pr 0) t.
Proof.
  intros Ht. unfold cumulative_returns, Spec.growth.
  rewrite nth_cumprod by (rewrite length_map; lia).
  rewrite <- (take_map_nth (Rplus 1)) by lia. reflexivity.
Qed.

Lemma scan_max_spec xs acc t :
  (t < length xs)%nat ->
  let m := nth t (scan Rmax acc xs) 0 in
  (acc <= m /\ forall s, (s <= t)%nat -> nth s xs 0 <= m) /\
  (m = acc \/ exists s, (s <= t)%nat /\ m = nth s xs 0).
Proof.
  revert acc t. induction xs as [|x xs IH]; intros acc t Ht; simpl in Ht; [lia|].
  destruct t as [|t]; simpl.
  - split.
    + split; [apply Rmax_l|]. intros s Hs. assert (s = O) by lia. subst. apply Rmax_r.
    + destruct (Rmax_cases acc x) as [E|E]; [left; exact E|].
      right. exists O. split; [lia|exact E].
  - destruct (IH (Rmax acc x) t ltac:(lia)) as [[Ha Hb] Hc]. simpl in *. split.
    + split; [pose proof (Rmax_l acc x); lra|].
      intros [|s] Hs; [pose proof (Rmax_r acc x); lra|]. apply Hb. lia.
    + destruct Hc as [E|(s & Hs & E)].
      * destruct (Rmax_cases acc x) as [E'|E'].
        -- left. rewrite E. exact E'.
        -- right. exists O. split; [lia|]. rewrite E. exact E'.
      * right. exists (S s). split; [lia|exact E].
Qed.

Lemma cummax_spec xs t :
  (t < length xs)%nat ->
  Spec.is_max_upto (fun s => nth s xs 0) t (nth t (cummax xs) 0).
Proof.
  destruct xs as [|x xs]; simpl; [lia|]. intros Ht.
  destruct t as [|t].
  - split; [|exists O; split; [lia|reflexivity]].
    intros s Hs. assert (s = O) by lia. subst. simpl. lra.
  - destruct (scan_max_spec xs x t ltac:(lia)) as [[Ha Hb] Hc]. simpl in *. split.
    + intros [|s] Hs; [exact Ha|]. apply Hb. lia.
    + destruct Hc as [E|(s & Hs & E)].
      * exists O. split; [lia|exact E].
      * exists (S s). split; [lia|exact E].
Qed.

Lemma foldl_min_spec xs a :
  (foldl Rmin a xs <= a /\ forall x, In x xs -> foldl Rmin a xs <= x) /\
  (foldl Rmin a xs = a \/ In (foldl Rmin a xs) xs).
Proof.
  revert a. induction xs as [|x xs IH]; intros a; simpl.
  - split; [split; [lra|tauto]|left; reflexivity].
  - destruct (IH (Rmin a x)) as [[Ha Hb] Hc]. split.
    + split; [pose proof (Rmin_l a x); lra|].
      intros y [<-|Hy]; [pose proof (Rmin_r a x); lra|auto].
    + destruct Hc as [E|Hin]; [|right; right; exact Hin].
      rewrite E. destruct (Rmin_cases a x) as [E'|E']; rewrite E'; auto.
Qed.

Lemma smin_spec xs :
  xs <> [] ->
  Spec.is_min_before (fun t => nth t xs 0) (length xs) (smin xs).
Proof.
  destruct xs as [|x xs]; [congruence|]. intros _. simpl.
  destruct (foldl_min_spec xs x) as [[Ha Hb] Hc]. split.
  - intros [|t] Ht; [exact Ha|]. apply Hb. apply nth_In. simpl in Ht. lia.
  - destruct Hc as [E|Hin].
    + exists O. split; [lia|exact E].
    + destruct (In_nth _ _ 0 Hin) as (t & Ht & E).
      exists (S t). split; [lia|]. simpl. symmetry. exact E.
Qed.

Lemma is_min_before_ext f g T v :
  (forall t, (t < T)%nat -> f t = g t) ->
  Spec.is_min_before f T v -> Spec.is_min_before g T v.
Proof.
  intros E [Hle (t & Ht & Hv)]. split.
  - intros s Hs. rewrite <- E by exact Hs. auto.
  - exists t. split; [exact Ht|]. rewrite <- E by exact Ht. exact Hv.
Qed.

Lemma is_max_upto_ext f g t m :
  (forall s, (s <= t)%nat -> f s = g s) ->
  Spec.is_max_upto f t m -> Spec.is_max_upto g t m.
Proof.
  intros E [Hle (s & Hs & Hm)]. split.
  - intros u Hu. rewrite <- E by exact Hu. auto.
  - exists s. split; [exact Hs|]. rewrite <- E by exact Hs. exact Hm.
Qed.

(** The drawdown pipeline against its index-wise statement. *)
Lemma max_drawdown_spec pr :
  pr <> [] ->
  let C := Spec.growth (fun s => nth s pr 0) in
  let cum := cumulative_returns pr in
  let M := fun t => nth t (rolling_max cum) 0 in
  (forall t, (t < length pr)%nat -> Spec.is_max_upto C t (M t)) /\
  Spec.is_min_before (fun t => (C t - M t) / M t) (length pr)
    (max_drawdown (drawdowns cum (rolling_max cum))).
Proof.
  intros Hne C cum M.
  assert (Hlen : length cum = length pr).
  { unfold cum, cumulative_returns. rewrite length_cumprod, length_map. reflexivity. }
  split.
  - intros t Ht. apply (is_max_upto_ext (fun s => nth s cum 0)).
    + intros s Hs. apply nth_cumulative_returns. lia.
    + apply cummax_spec. lia.
  - unfold max_drawdown.
    assert (Hd : length (drawdowns cum (rolling_max cum)) = length pr).
    { unfold drawdowns, rolling_max, div, sub.
      rewrite !length_zip_with_R, length_cummax. lia. }
    rewrite <- Hd.
    apply (is_min_before_ext (fun t => nth t (drawdowns cum (rolling_max cum)) 0)).
    + intros t Ht. rewrite Hd in Ht. unfold drawdowns, div, sub, M, rolling_max.
      rewrite nth_zip_with_R
        by (rewrite ?length_zip_with_R, ?length_cummax; lia).
      rewrite nth_zip_with_R by (rewrite ?length_cummax; lia).
      unfold C. rewrite <- nth_cumulative_returns by lia. reflexivity.
    + apply smin_spec. intros E. rewrite E in Hd. simpl in Hd.
      destruct pr; [congruence|discriminate].
Qed.

(** ** Downside risk *)

Lemma nth_map_R (g : R -> R) l t :
  (t < length l)%nat -> nth t (map g l) 0 = g (nth t l 0).
Proof.
  intros Ht. rewrite (nth_indep _ 0 (g 0)) by (rewrite length_map; lia).
  apply map_nth.
Qed.

Lemma Rsum_filter_negative (g : R -> R) l :
  Rsum (map g (filter (fun e => e < 0) l)) =
  Rsum (map (fun x => if Rlt_dec x 0 then g x else 0) l).
Proof.
  induction l as [|x l IH]; [reflexivity|].
  rewrite filter_cons. cbn [map].
  destruct (decide (x < 0)); destruct (Rlt_dec x 0); try contradiction;
    cbn [map]; rewrite ?Rsum_cons, IH; lra.
Qed.

Lemma length_filter_negative l :
  INR (length (filter (fun e => e < 0) l)) =
  Rsum (map (fun x => if Rlt_dec x 0 then 1 else 0) l).
Proof.
  induction l as [|x l IH]; [reflexivity|].
  rewrite filter_cons. cbn [map].
  destruct (decide (x < 0)); destruct (Rlt_dec x 0); try contradiction;
    cbn [length]; rewrite Rsum_cons, ?S_INR, IH; lra.
Qed.

(** The Sortino pipeline against its index-wise statement. *)
Lemma sortino_ratio_spec P rfr :
  let e := excess_returns P (mrfr rfr) in
  sortino_ratio e (downside_risk (downside_returns e)) =
  Spec.sortino (fun t => nth t P 0) rfr (length P).
Proof.
  intros e. unfold sortino_ratio, downside_risk, downside_returns, Spec.sortino,
    Spec.downside_deviation, Spec.negative_months.
  assert (He : forall t, (t < length P)%nat -> nth t e 0 = nth t P 0 - rfr / 12).
  { intros t Ht. unfold e, excess_returns, mrfr. apply nth_map_R. exact Ht. }
  assert (Hl : length e = length P) by (unfold e, excess_returns; apply length_map).
  f_equal.
  - f_equal. rewrite mean_spec, Hl. apply mean_upto_ext. exact He.
  - f_equal. f_equal. unfold mean.
    rewrite length_map, Rsum_filter_negative, length_filter_negative, !Rsum_map_nth, Hl.
    f_equal.
    + apply big_sum_ext. intros t Ht. rewrite He by exact Ht. reflexivity.
    + apply big_sum_ext. intros t Ht. rewrite He by exact Ht. reflexivity.
Qed.

(** ** The Black-Litterman posterior *)

Lemma mk_vector_nth l : mk_vector (length l) (fun i => nth i l 0) = l.
Proof.
  unfold mk_vector. induction l as [|x l IH]; [reflexivity|].
  cbn [length]. rewrite <- cons_seq, <- seq_shift. cbn [map nth].
  rewrite map_map. cbn [nth]. rewrite IH. reflexivity.
Qed.

Lemma mk_vector_ext n f g :
  (forall i, (i < n)%nat -> f i = g i) -> mk_vector n f = mk_vector n g.
Proof.
  intros E. unfold mk_vector. apply map_ext_in. intros i Hi.
  apply in_seq in Hi. apply E. lia.
Qed.

Lemma mget_mk_matrix r c f i j :
  (i < r)%nat -> (j < c)%nat -> mget (mk_matrix r c f) i j = f i j.
Proof.
  intros Hi Hj. unfold mget, mk_matrix.
  rewrite (nth_indep _ [] (mk_vector c (f O)))
    by (rewrite length_map, length_seq; lia).
  rewrite (map_nth (fun i => mk_vector c (f i))), seq_nth by lia.
  apply nth_mk_vector. exact Hj.
Qed.

Lemma big_sum_pick f i n :
  (i < n)%nat ->
  big_sum (fun l => f l * (if (l =? i)%nat then 1 else 0)) n = f i.
Proof.
  intros Hi. induction n as [|n IH]; [lia|].
  rewrite big_sum_last. destruct (Nat.eq_dec i n) as [->|Hne].
  - rewrite Nat.eqb_refl.
    rewrite (big_sum_ext _ (fun _ => 0)), big_sum_zero; [lra|].
    intros l Hl. replace (l =? n)%nat with false; [lra|].
    symmetry. apply Nat.eqb_neq. lia.
  - rewrite IH by lia. replace (n =? i)%nat with false; [lra|].
    symmetry. apply Nat.eqb_neq. lia.
Qed.

Lemma big_sum_1 f : big_sum f 1 = f O.
Proof. unfold big_sum. cbn [seq map Rsum foldr]. lra. Qed.

Lemma mk_vector_1 f : mk_vector 1 f = [f O].
Proof. reflexivity. Qed.

Lemma mk_matrix_1_1 f : mk_matrix 1 1 f = [[f O O]].
Proof. reflexivity. Qed.

Lemma det_1 a : det 1 [[a]] = a.
Proof. unfold det, mget. rewrite big_sum_1. cbn [nth pow]. lra. Qed.

Lemma solve_1 a b : solve 1 [[a]] [b] = [b / a].
Proof.
  unfold solve. rewrite mk_vector_1. unfold set_col.
  cbn [zip_with insert list_insert]. rewrite !det_1. reflexivity.
Qed.

Lemma bl_returns_no_views tickers cov pi :
  length pi = length tickers ->
  PyPfOpt.bl_returns tickers cov [] pi = Some pi.
Proof.
  intros Hlen. unfold PyPfOpt.bl_returns. cbn [mapM mbind option_bind mret option_ret].
  rewrite Hlen, Nat.eqb_refl. cbn [negb length]. f_equal.
  etransitivity; [|apply (mk_vector_nth pi)]. rewrite Hlen.
  apply mk_vector_ext. intros i Hi. unfold vget, big_sum. cbn [seq map Rsum foldr]. lra.
Qed.

Lemma ticker_index_lt tickers t i :
  PyPfOpt.ticker_index tickers t = Some i -> (i < length tickers)%nat.
Proof.
  unfold PyPfOpt.ticker_index. intros Hf.
  destruct (list_find _ tickers) as [[j x]|] eqn:E; [|discriminate].
  cbn in Hf. injection Hf as <-.
  apply list_find_Some in E. destruct E as (Hl & _). eapply lookup_lt_Some. exact Hl.
Qed.

(** A single absolute view pulls the viewed asset half-way from its prior to
    the view. *)
Lemma bl_returns_one_view tickers cov t q pi i :
  PyPfOpt.ticker_index tickers t = Some i ->
  length pi = length tickers ->
  mget cov i i <> 0 ->
  exists post,
    PyPfOpt.bl_returns tickers cov [(t, q)] pi = Some post /\
    length post = length tickers /\
    vget post i = (vget pi i + q) / 2.
Proof.
  intros Hidx Hlen Hcov. pose proof (ticker_index_lt _ _ _ Hidx) as Hi.
  unfold PyPfOpt.bl_returns.
  cbn [mapM mbind option_bind mret option_ret fst snd map length].
  rewrite Hidx. cbn [mbind option_bind mret option_ret].
  rewrite Hlen, Nat.eqb_refl. cbn [negb].
  eexists. split; [reflexivity|]. split; [apply length_mk_vector|].
  set (n := length tickers) in *.
  set (P := mk_matrix 1 n (fun i0 j => if (j =? nth i0 [i] O)%nat then 1 else 0)).
  set (tsp := mk_matrix n 1 _).
  assert (HP : forall l, (l < n)%nat -> mget P 0 l = if (l =? i)%nat then 1 else 0).
  { intros l Hl. unfold P. rewrite mget_mk_matrix by lia. reflexivity. }
  assert (Htsp : forall a, (a < n)%nat -> mget tsp a 0 = PyPfOpt.tau * mget cov a i).
  { intros a Ha. unfold tsp. rewrite mget_mk_matrix by lia. f_equal.
    rewrite <- (big_sum_pick (fun l => mget cov a l) i n Hi).
    apply big_sum_ext. intros l Hl. rewrite HP by exact Hl. reflexivity. }
  assert (Hpick : forall g : nat -> R,
             big_sum (fun l => mget P 0 l * g l) n = g i).
  { intros g. rewrite <- (big_sum_pick g i n Hi).
    apply big_sum_ext. intros l Hl. rewrite HP by exact Hl. ring. }
  unfold vget at 1. rewrite nth_mk_vector by exact Hi.
  rewrite big_sum_1, !mk_matrix_1_1, !mk_vector_1. unfold mget at 2 3 4. cbn [nth].
  rewrite !Nat.eqb_refl, solve_1. unfold vget at 2 3. cbn [nth].
  rewrite !Hpick, !Htsp by exact Hi.
  change (nth 0 (nth i tsp []) 0) with (mget tsp i 0). rewrite Htsp by exact Hi.
  change (mget [[mget [[PyPfOpt.tau * mget cov i i]] 0 0]] 0 0)
    with (PyPfOpt.tau * mget cov i i).
  unfold PyPfOpt.tau, vget. field. lra.
Qed.

(** ** Historical mean returns *)

Lemma list_last_cons (a d : R) l : List.last (a :: l) d = List.last l a.
Proof.
  revert a d. induction l as [|b l IH]; intros a d; [reflexivity|].
  change (List.last (a :: b :: l) d) with (List.last (b :: l) d).
  rewrite !IH. reflexivity.
Qed.

Lemma growth_telescopes p0 rest :
  p0 <> 0 -> Forall (fun p => p <> 0) rest ->
  foldr Rmult 1
    (map (Rplus 1) (zip_with_R (fun prev cur => cur / prev - 1) (p0 :: rest) rest)) =
  List.last rest p0 / p0.
Proof.
  intros Hp0 Hrest. revert p0 Hp0.
  induction Hrest as [|p1 rest Hp1 Hrest IH]; intros p0 Hp0.
  - cbn [zip_with_R map foldr List.last]. field. exact Hp0.
  - change (foldr Rmult 1
              (map (Rplus 1)
                 (zip_with_R (fun prev cur => cur / prev - 1)
                    (p0 :: p1 :: rest) (p1 :: rest))))
      with ((1 + (p1 / p0 - 1)) *
            foldr Rmult 1
              (map (Rplus 1)
                 (zip_with_R (fun prev cur => cur / prev - 1) (p1 :: rest) rest))).
    rewrite (IH p1 Hp1), list_last_cons. field. auto.
Qed.

Lemma length_pct_change ps : length (pct_change ps) = (length ps - 1)%nat.
Proof.
  unfold pct_change. rewrite length_zip_with_R.
  destruct ps; cbn [tl length]; lia.
Qed.

Lemma mean_historical_return_compounds ps :
  ps <> [] -> Forall (fun p => p <> 0) ps ->
  PyPfOpt.mean_historical_return_1 true 12 ps =
  Spec.compound_annual_return (hd 0 ps) (List.last ps 0) (length ps - 1).
Proof.
  intros Hne Hall. destruct ps as [|p0 rest]; [congruence|].
  apply Forall_cons in Hall. destruct Hall as [Hp0 Hrest].
  unfold PyPfOpt.mean_historical_return_1, Spec.compound_annual_return.
  rewrite length_pct_change. unfold pct_change. cbn [tl hd].
  rewrite growth_telescopes, list_last_cons by assumption. reflexivity.
Qed.

(** ** Volatility and Sharpe ratio *)

Lemma big_sum_scale c f n : c * big_sum f n = big_sum (fun j => c * f j) n.
Proof.
  induction n as [|n IH]; [unfold big_sum; cbn; lra|].
  rewrite !big_sum_last, <- IH. lra.
Qed.

Lemma vget_matvec n A v i :
  vget (matvec n A v) i = big_sum (fun j => mget A i j * vget v j) n.
Proof.
  unfold vget, matvec, mget.
  destruct (Nat.lt_ge_cases i (length A)) as [Hi|Hi].
  - rewrite (nth_indep _ 0 (big_sum (fun j => nth j [] 0 * nth j v 0) n))
      by (rewrite length_map; lia).
    rewrite (map_nth (fun row => big_sum (fun j => nth j row 0 * nth j v 0) n)).
    reflexivity.
  - rewrite !nth_overflow by (rewrite ?length_map; lia).
    rewrite (big_sum_ext _ (fun _ => 0)), big_sum_zero; [reflexivity|].
    intros j _. destruct j; cbn [nth]; lra.
Qed.

Lemma portfolio_variance_spec w cov :
  PyPfOpt.portfolio_variance w cov =
  big_sum (fun i => big_sum (fun j => vget w i * mget cov i j * vget w j) (length w))
          (length w).
Proof.
  unfold PyPfOpt.portfolio_variance. rewrite dot_spec.
  apply big_sum_ext. intros i _. rewrite vget_matvec, big_sum_scale.
  apply big_sum_ext. intros j _. ring.
Qed.

(** ** Covariance, variance and beta *)

Lemma np_cov01_spec P B :
  length P = length B ->
  np_cov01 P B =
  Spec.cov_upto 1 (fun t => nth t P 0) (fun t => nth t B 0) (length P).
Proof.
  intros E. unfold np_cov01, Spec.cov_upto. cbn [INR]. f_equal.
  rewrite Rsum_nth, length_zip_with_R, !length_map, <- E, Nat.min_id.
  rewrite !mean_spec, <- E.
  apply big_sum_ext. intros t Ht.
  rewrite nth_zip_with_R by (rewrite length_map; lia).
  rewrite !nth_map_R by lia. reflexivity.
Qed.

Lemma np_var_spec B :
  np_var B = Spec.var_upto 0 (fun t => nth t B 0) (length B).
Proof.
  unfold np_var, Spec.var_upto, Spec.cov_upto. cbn [INR]. rewrite Rminus_0_r.
  f_equal. rewrite Rsum_map_nth, mean_spec. reflexivity.
Qed.

Lemma mixed_ratio (Spb Sbb n k : R) :
  2 <= n -> Sbb <> 0 -> k = 0 \/ k = 1 ->
  Spb / (n - 1) / (Sbb / (n - 0)) = n / (n - 1) * (Spb / (n - k) / (Sbb / (n - k))).
Proof. intros Hn Hs [->| ->]; field; repeat split; lra. Qed.

(** With the covariance normalised by [T - 1] and the variance by [T], the
    quotient exceeds the regression beta by the factor [T / (T - 1)]. *)
Lemma mixed_normalisation ddof p b T :
  (2 <= T)%nat -> (ddof <= 1)%nat ->
  Spec.var_upto 0 b T <> 0 ->
  Spec.cov_upto 1 p b T / Spec.var_upto 0 b T =
  INR T / (INR T - 1) * Spec.beta ddof p b T.
Proof.
  intros HT Hd Hv. unfold Spec.beta, Spec.var_upto, Spec.cov_upto in *.
  change (INR 1) with 1. change (INR 0) with 0 in *.
  apply mixed_ratio.
  - apply (le_INR 2). exact HT.
  - intros E. apply Hv. rewrite E. lra.
  - destruct ddof as [|[|?]]; [left; reflexivity|right; reflexivity|lia].
Qed.

Lemma cov_upto_ext ddof x x' y y' T :
  (forall t, (t < T)%nat -> x t = x' t) -> (forall t, (t < T)%nat -> y t = y' t) ->
  Spec.cov_upto ddof x y T = Spec.cov_upto ddof x' y' T.
Proof.
  intros Hx Hy. unfold Spec.cov_upto.
  rewrite (mean_upto_ext x x' T Hx), (mean_upto_ext y y' T Hy). f_equal.
  apply big_sum_ext. intros t Ht. rewrite Hx, Hy by exact Ht. reflexivity.
Qed.

Lemma beta_ext ddof p p' b b' T :
  (forall t, (t < T)%nat -> p t = p' t) -> (forall t, (t < T)%nat -> b t = b' t) ->
  Spec.beta ddof p b T = Spec.beta ddof p' b' T.
Proof.
  intros Hp Hb. unfold Spec.beta, Spec.var_upto.
  rewrite (cov_upto_ext ddof p p' b b' T Hp Hb), (cov_upto_ext ddof b b' b b' T Hb Hb).
  reflexivity.
Qed.

(** ** Running the script *)

Section Runs.
Context `{Optimizer}.

Ltac run_script :=
  cbv [mbind M_bind mret M_ret bind ret raise name st modify select_columns
       column assign_column or_raise try_except except_handler
       returns weights optimization_label cleaned_weights expected_return
       portfolio_volatility sharpe_ratio display add_event set_returns
       set_weights set_optimization_label set_cleaned_weights set_performance].

Ltac read_columns :=
  repeat (first
    [ rewrite lookup_insert_eq
    | rewrite lookup_insert_ne by done ];
  run_script).

Ltac settle := run_script; repeat rewrite <- app_assoc.

(** *** The objective tab *)

Lemma objective_tab_run data s :
  objective_tab data s =
  (inr tt,
   mkState (list_to_map (pct_change_frame data)) (weights s) (optimization_label s)
     (cleaned_weights s) (expected_return s) (portfolio_volatility s)
     (sharpe_ratio s) (display s ++ objective_report data)).
Proof.
  destruct s. unfold objective_tab. run_script. settle. reflexivity.
Qed.

(** *** The optimisation step *)

Lemma mvo_optimization_bounds data w s :
  lower_bound w >= upper_bound w ->
  mvo_optimization data w s = (inr tt, add_event bounds_error s).
Proof.
  intros Hb. unfold mvo_optimization.
  destruct (Rge_dec (lower_bound w) (upper_bound w)); [reflexivity|contradiction].
Qed.

Lemma mvo_optimization_solved data w s ws :
  lower_bound w < upper_bound w ->
  solves_selected_problem (mvo_frontier data w) w ws ->
  mvo_optimization data w s =
  (inr tt, optimized (mvo_frontier data w) (columns data) w ws s).
Proof.
  intros Hb Hs. unfold mvo_optimization, mvo_frontier in *.
  destruct (Rge_dec (lower_bound w) (upper_bound w)); [lra|].
  destruct s. unfold optimized, bound_label.
  destruct Hs as [[Hm Hs]|[[Hm Hs]|[Hm Hs]]]; rewrite Hm;
    run_script; rewrite Hs; settle; reflexivity.
Qed.

Lemma mvo_optimization_failed data w s :
  lower_bound w < upper_bound w ->
  selected_optimization_fails (mvo_frontier data w) w ->
  mvo_optimization data w s = (inl OptimizationError, s).
Proof.
  intros Hb Hs. unfold mvo_optimization, mvo_frontier in *.
  destruct (Rge_dec (lower_bound w) (upper_bound w)); [lra|].
  destruct s.
  destruct Hs as [[Hm Hs]|[[Hm Hs]|[Hm Hs]]]; rewrite Hm;
    run_script; rewrite Hs; reflexivity.
Qed.

(** *** Charts and metrics *)

Lemma mvo_charts_unbound data w s :
  portfolio_volatility s = None ->
  exists e, mvo_charts data w s = (inl e, s).
Proof.
  intros Hv. destruct s; simpl in Hv; subst. unfold mvo_charts. run_script.
  destruct (plot_efficient_frontier _); eexists; reflexivity.
Qed.

Lemma mvo_charts_run data w s cw er vol lbl :
  plot_efficient_frontier (mvo_frontier data w) = true ->
  cleaned_weights s = Some cw -> expected_return s = Some er ->
  portfolio_volatility s = Some vol -> optimization_label s = Some lbl ->
  mvo_charts data w s = (inr tt, shown (charts_report cw) s).
Proof.
  intros Hp Hcw Her Hvol Hlbl. destruct s; simpl in *; subst.
  unfold mvo_charts, mvo_frontier in *. run_script. rewrite Hp. run_script.
  unfold shown. settle. reflexivity.
Qed.

Lemma mvo_metrics_run bmk w s cw er vol sr cols :
  cleaned_weights s = Some cw ->
  expected_return s = Some er -> portfolio_volatility s = Some vol ->
  sharpe_ratio s = Some sr ->
  mapM (fun k => returns s !! k) (map fst cw) = Some cols ->
  mvo_metrics bmk w s =
  (inr tt, measured (portfolio_returns cols (map snd cw)) (benchmark_returns bmk)
             (metrics_report (er, vol, sr) cw cols bmk (rfr w)) s).
Proof.
  intros Hcw Her Hvol Hsr Hcols.
  destruct s as [r wv lbl cwv erv volv srv disp]; simpl in *; subst.
  unfold mvo_metrics. run_script.
  rewrite Hcols. run_script. read_columns.
  unfold measured. settle. reflexivity.
Qed.

Lemma mvo_metrics_missing bmk w s cw er vol sr :
  cleaned_weights s = Some cw ->
  expected_return s = Some er -> portfolio_volatility s = Some vol ->
  sharpe_ratio s = Some sr ->
  mapM (fun k => returns s !! k) (map fst cw) = None ->
  exists e evs, mvo_metrics bmk w s = (inl e, shown evs s).
Proof.
  intros Hcw Her Hvol Hsr Hcols.
  destruct s as [r wv lbl cwv erv volv srv disp]; simpl in *; subst.
  unfold mvo_metrics. run_script.
  rewrite Hcols. run_script. unfold shown. settle.
  eexists; eexists; reflexivity.
Qed.

(** *** The tab as a whole *)

Lemma run_bind_ok {A B : Type} (m : M A) (k : A -> M B) s a s' :
  m s = (inr a, s') -> (m ≫= k) s = k a s'.
Proof. unfold mbind, M_bind, bind. intros ->. reflexivity. Qed.

Lemma run_bind_err {A B : Type} (m : M A) (k : A -> M B) s e s' :
  m s = (inl e, s') -> (m ≫= k) s = (inl e, s').
Proof. unfold mbind, M_bind, bind. intros ->. reflexivity. Qed.

Lemma try_except_ok body handler s s' :
  body s = (inr tt, s') -> try_except body handler s = (inr tt, s').
Proof. unfold try_except. intros ->. reflexivity. Qed.

Lemma try_except_err body handler s e s' :
  body s = (inl e, s') -> try_except body handler s = handler s'.
Proof. unfold try_except. intros ->. reflexivity. Qed.

Lemma except_handler_run s : except_handler s = (inr tt, shown adjust_messages s).
Proof. destruct s. unfold except_handler. run_script. unfold shown. settle. reflexivity. Qed.

Lemma mvo_tab_bounds data bmk w s :
  lower_bound w >= upper_bound w ->
  portfolio_volatility s = None ->
  mvo_tab data bmk w s = (inr tt, shown (bounds_error :: adjust_messages) s).
Proof.
  intros Hb Hv. unfold mvo_tab.
  destruct (mvo_charts_unbound data w (add_event bounds_error s)) as [e He];
    [destruct s; exact Hv|].
  erewrite try_except_err; cycle 1.
  - erewrite run_bind_ok by (apply mvo_optimization_bounds; exact Hb).
    erewrite run_bind_err by exact He. reflexivity.
  - rewrite except_handler_run. destruct s. unfold shown. settle. reflexivity.
Qed.

Lemma mvo_tab_failed data bmk w s :
  lower_bound w < upper_bound w ->
  selected_optimization_fails (mvo_frontier data w) w ->
  mvo_tab data bmk w s = (inr tt, shown adjust_messages s).
Proof.
  intros Hb Hf. unfold mvo_tab. erewrite try_except_err; cycle 1.
  - erewrite run_bind_err by (apply mvo_optimization_failed; assumption). reflexivity.
  - apply except_handler_run.
Qed.

Lemma mvo_tab_solved data bmk w s ws cols :
  lower_bound w < upper_bound w ->
  solves_selected_problem (mvo_frontier data w) w ws ->
  plot_efficient_frontier (mvo_frontier data w) = true ->
  let cw := zip (columns data) (clean_weights ws) in
  mapM (fun k => returns s !! k) (map fst cw) = Some cols ->
  let perf := PyPfOpt.portfolio_performance ws (expected_returns data)
                (cov_matrix data) (rfr w) in
  mvo_tab data bmk w s =
  (inr tt,
   measured (portfolio_returns cols (map snd cw)) (benchmark_returns bmk)
     (metrics_report perf cw cols bmk (rfr w))
     (shown (charts_report cw)
        (optimized (mvo_frontier data w) (columns data) w ws s))).
Proof.
  intros Hb Hs Hp cw Hcols perf. unfold mvo_tab. apply try_except_ok.
  erewrite run_bind_ok by (apply mvo_optimization_solved; eassumption).
  erewrite run_bind_ok
    by (eapply mvo_charts_run; [exact Hp|reflexivity..]).
  erewrite mvo_metrics_run; [|reflexivity..|exact Hcols].
  destruct perf as [[er vol] sr] eqn:E. unfold perf in E.
  unfold optimized. cbn [ef_expected_returns ef_cov_matrix mvo_frontier].
  rewrite E. reflexivity.
Qed.

Lemma mvo_tab_binds data bmk w s ws :
  lower_bound w < upper_bound w ->
  solves_selected_problem (mvo_frontier data w) w ws ->
  weights (snd (mvo_tab data bmk w s)) = Some ws /\
  cleaned_weights (snd (mvo_tab data bmk w s)) =
    Some (zip (columns data) (clean_weights ws)).
Proof.
  intros Hb Hs. unfold mvo_tab.
  pose proof (mvo_optimization_solved data w s ws Hb Hs) as Ho.
  set (s1 := optimized (mvo_frontier data w) (columns data) w ws s) in *.
  destruct (plot_efficient_frontier (mvo_frontier data w)) eqn:Hp.
  - pose proof (mvo_charts_run data w s1 _ _ _ _ Hp eq_refl eq_refl eq_refl eq_refl) as Hc.
    destruct (mapM (fun k => returns s !! k)
                (map fst (zip (columns data) (clean_weights ws)))) as [cols|] eqn:Hcols.
    + erewrite try_except_ok.
      2:{ erewrite run_bind_ok by exact Ho. erewrite run_bind_ok by exact Hc.
          eapply mvo_metrics_run; [reflexivity..|exact Hcols]. }
      split; reflexivity.
    + destruct (mvo_metrics_missing bmk w (shown (charts_report
                  (zip (columns data) (clean_weights ws))) s1)
                  _ _ _ _ eq_refl eq_refl eq_refl eq_refl Hcols) as (e & evs & Hm).
      erewrite try_except_err.
      2:{ erewrite run_bind_ok by exact Ho. erewrite run_bind_ok by exact Hc. exact Hm. }
      rewrite except_handler_run. split; reflexivity.
  - erewrite try_except_err.
    2:{ erewrite run_bind_ok by exact Ho. unfold mvo_charts, mvo_frontier in *.
        erewrite run_bind_err; [reflexivity|]. rewrite Hp. reflexivity. }
    rewrite except_handler_run. split; reflexivity.
Qed.

(** *** The Black-Litterman tab *)

Lemma bl_optimization_bounds data w rets s :
  lower_bound w >= upper_bound w ->
  bl_optimization data w rets s = (inr tt, add_event bounds_error s).
Proof.
  intros Hb. unfold bl_optimization.
  destruct (Rge_dec (lower_bound w) (upper_bound w)); [reflexivity|contradiction].
Qed.

Lemma bl_optimization_failed data w rets s :
  lower_bound w < upper_bound w ->
  selected_optimization_fails (bl_frontier data w rets) w ->
  bl_optimization data w rets s = (inl OptimizationError, s).
Proof.
  intros Hb Hs. unfold bl_optimization, bl_frontier in *.
  destruct (Rge_dec (lower_bound w) (upper_bound w)); [lra|].
  destruct s.
  destruct Hs as [[Hm Hs]|[[Hm Hs]|[Hm Hs]]]; rewrite Hm;
    run_script; rewrite Hs; reflexivity.
Qed.

Lemma bl_charts_unbound data w rets s :
  portfolio_volatility s = None ->
  exists e, bl_charts data w rets s = (inl e, s).
Proof.
  intros Hv. destruct s; simpl in Hv; subst. unfold bl_charts. run_script.
  destruct (plot_efficient_frontier _); eexists; reflexivity.
Qed.

Lemma bl_tab_intro data bmk w s rets :
  bl_rets (columns data) (expected_returns data) (cov_matrix data) (viewdict w) = Some rets ->
  bl_tab data bmk w s =
  try_except
    (bl_optimization data w rets;; bl_charts data w rets;; bl_metrics bmk w)
    except_handler (shown (bl_header ++ [rets_df data rets]) s).
Proof.
  intros Hr. destruct s. unfold bl_tab. run_script. rewrite Hr. run_script.
  unfold shown. settle. reflexivity.
Qed.

Lemma bl_tab_bounds data bmk w s rets :
  bl_rets (columns data) (expected_returns data) (cov_matrix data) (viewdict w) = Some rets ->
  lower_bound w >= upper_bound w ->
  portfolio_volatility s = None ->
  bl_tab data bmk w s =
  (inr tt, shown (bl_header ++ rets_df data rets :: bounds_error :: adjust_messages) s).
Proof.
  intros Hr Hb Hv. rewrite (bl_tab_intro _ _ _ _ _ Hr).
  set (s0 := shown (bl_header ++ [rets_df data rets]) s).
  destruct (bl_charts_unbound data w rets (add_event bounds_error s0)) as [e He];
    [destruct s; exact Hv|].
  erewrite try_except_err; cycle 1.
  - erewrite run_bind_ok by (apply bl_optimization_bounds; exact Hb).
    erewrite run_bind_err by exact He. reflexivity.
  - rewrite except_handler_run. destruct s. unfold s0, shown. settle. reflexivity.
Qed.

Lemma bl_tab_failed data bmk w s rets :
  bl_rets (columns data) (expected_returns data) (cov_matrix data) (viewdict w) = Some rets ->
  lower_bound w < upper_bound w ->
  selected_optimization_fails (bl_frontier data w rets) w ->
  bl_tab data bmk w s =
  (inr tt, shown (bl_header ++ rets_df data rets :: adjust_messages) s).
Proof.
  intros Hr Hb Hf. rewrite (bl_tab_intro _ _ _ _ _ Hr).
  erewrite try_except_err; cycle 1.
  - erewrite run_bind_err by (apply bl_optimization_failed; assumption). reflexivity.
  - rewrite except_handler_run. destruct s. unfold shown. settle. reflexivity.
Qed.

Lemma bl_tab_outside_universe data bmk w s :
  bl_rets (columns data) (expected_returns data) (cov_matrix data) (viewdict w) = None ->
  bl_tab data bmk w s = (inl ValueError, shown bl_header s).
Proof.
  intros Hr. destruct s. unfold bl_tab. run_script. rewrite Hr. run_script.
  unfold shown. settle. reflexivity.
Qed.

Lemma bl_optimization_solved data w rets s ws :
  lower_bound w < upper_bound w ->
  solves_selected_problem (bl_frontier data w rets) w ws ->
  bl_optimization data w rets s =
  (inr tt, optimized (bl_frontier data w rets) (columns data) w ws s).
Proof.
  intros Hb Hs. unfold bl_optimization, bl_frontier in *.
  destruct (Rge_dec (lower_bound w) (upper_bound w)); [lra|].
  destruct s. unfold optimized, bound_label.
  destruct Hs as [[Hm Hs]|[[Hm Hs]|[Hm Hs]]]; rewrite Hm;
    run_script; rewrite Hs; settle; reflexivity.
Qed.

Lemma bl_charts_run data w rets s cw er vol lbl :
  plot_efficient_frontier (bl_frontier data w rets) = true ->
  cleaned_weights s = Some cw -> expected_return s = Some er ->
  portfolio_volatility s = Some vol -> optimization_label s = Some lbl ->
  bl_charts data w rets s = (inr tt, shown (charts_report cw) s).
Proof.
  intros Hp Hcw Her Hvol Hlbl. destruct s; simpl in *; subst.
  unfold bl_charts, bl_frontier in *. run_script. rewrite Hp. run_script.
  unfold shown. settle. reflexivity.
Qed.

Lemma bl_metrics_run bmk w s cw er vol sr cols :
  cleaned_weights s = Some cw ->
  expected_return s = Some er -> portfolio_volatility s = Some vol ->
  sharpe_ratio s = Some sr ->
  mapM (fun k => returns s !! k) (map fst cw) = Some cols ->
  bl_metrics bmk w s =
  (inr tt, measured (portfolio_returns cols (map snd cw)) (benchmark_returns bmk)
             (metrics_report (er, vol, sr) cw cols bmk (rfr w)) s).
Proof.
  intros Hcw Her Hvol Hsr Hcols.
  destruct s as [r wv lbl cwv erv volv srv disp]; simpl in *; subst.
  unfold bl_metrics. run_script.
  rewrite Hcols. run_script. read_columns.
  unfold measured. settle. reflexivity.
Qed.

Lemma bl_tab_solved data bmk w s rets ws cols :
  bl_rets (columns data) (expected_returns data) (cov_matrix data) (viewdict w) = Some rets ->
  lower_bound w < upper_bound w ->
  solves_selected_problem (bl_frontier data w rets) w ws ->
  plot_efficient_frontier (bl_frontier data w rets) = true ->
  let cw := zip (columns data) (clean_weights ws) in
  mapM (fun k => returns s !! k) (map fst cw) = Some cols ->
  let perf := PyPfOpt.portfolio_performance ws rets (cov_matrix data) (rfr w) in
  display (snd (bl_tab data bmk w s)) =
  display s ++ bl_header ++ rets_df data rets :: charts_report cw ++
  metrics_report perf cw cols bmk (rfr w).
Proof.
  intros Hr Hb Hs Hp cw Hcols perf. rewrite (bl_tab_intro _ _ _ _ _ Hr).
  erewrite try_except_ok; cycle 1.
  - erewrite run_bind_ok by (apply bl_optimization_solved; eassumption).
    erewrite run_bind_ok
      by (eapply bl_charts_run; [exact Hp|reflexivity..]).
    erewrite bl_metrics_run; [reflexivity|reflexivity..|].
    destruct s as [r wv lbl cwv erv volv srv disp]. exact Hcols.
  - destruct perf as [[er vol] sr] eqn:E. unfold perf in E.
    unfold optimized. cbn [ef_expected_returns ef_cov_matrix bl_frontier].
    rewrite E. destruct s as [r wv lbl cwv erv volv srv disp].
    cbn [snd measured shown display].
    repeat rewrite <- app_assoc. reflexivity.
Qed.

(** *** The two metrics blocks *)

Lemma mapM_agree {A B : Type} (f g : A -> option B) l :
  (forall x, x ∈ l -> f x = g x) -> mapM f l = mapM g l.
Proof.
  induction l as [|x l IH]; intros E; [reflexivity|]. cbn.
  rewrite (E x) by apply list_elem_of_here.
  rewrite IH by (intros y Hy; apply E; apply list_elem_of_further; exact Hy).
  reflexivity.
Qed.

(** *** The script up to the end of the MVO tab *)

Lemma before_mvo_eq data :
  before_mvo data =
  mkState (list_to_map (pct_change_frame data)) None None None None None None
    (objective_report data).
Proof. unfold before_mvo. rewrite objective_tab_run. reflexivity. Qed.

Lemma asset_columns_lookup (m : gmap string series) (l : frame) :
  (forall c, c ∈ l -> m !! fst c = Some (pct_change (snd c))) ->
  mapM (fun k => m !! k) (columns l) = Some (asset_returns l).
Proof.
  intros Hm. apply mapM_Some_2. unfold columns, asset_returns.
  induction l as [|c l IH]; [constructor|]. cbn [map]. constructor.
  - apply Hm. apply list_elem_of_here.
  - apply IH. intros c' Hc'. apply Hm. apply list_elem_of_further. exact Hc'.
Qed.

Lemma asset_columns_selected data :
  NoDup (columns data) ->
  mapM (fun k => (list_to_map (pct_change_frame data) : gmap string series) !! k)
       (columns data) = Some (asset_returns data).
Proof.
  intros Hnd. apply asset_columns_lookup. intros [k ps] Hc.
  apply elem_of_list_to_map_1.
  - unfold pct_change_frame. change (map ?f data) with (f <$> data).
    rewrite <- list_fmap_compose. exact Hnd.
  - unfold pct_change_frame. change (map ?f data) with (f <$> data).
    apply list_elem_of_fmap. exists (k, ps). split; [reflexivity|exact Hc].
Qed.

Lemma keys_of_cleaned_weights data ws :
  length (clean_weights ws) = length data ->
  map fst (zip (columns data) (clean_weights ws)) = columns data /\
  map snd (zip (columns data) (clean_weights ws)) = clean_weights ws.
Proof.
  intros Hl. split.
  - change (map fst ?l) with (l.*1). apply fst_zip.
    unfold columns. rewrite length_map. lia.
  - change (map snd ?l) with (l.*2). apply snd_zip.
    unfold columns. rewrite length_map. lia.
Qed.

(** What the MVO tab has displayed by the end of a successful run. *)
Lemma after_mvo_display data bmk w ws :
  successful_run data w ws ->
  let cw := zip (columns data) (clean_weights ws) in
  display (after_mvo data bmk w) =
  objective_report data ++ charts_report cw ++
  metrics_report
    (PyPfOpt.portfolio_performance ws (expected_returns data) (cov_matrix data) (rfr w))
    cw (asset_returns data) bmk (rfr w).
Proof.
  intros (Hb & Hs & Hp & Hnd & Hl) cw. unfold after_mvo.
  destruct (keys_of_cleaned_weights data ws Hl) as [Hk _].
  erewrite mvo_tab_solved; [|exact Hb|exact Hs|exact Hp|].
  - rewrite before_mvo_eq. cbn [snd measured shown optimized display].
    rewrite <- app_assoc. reflexivity.
  - rewrite Hk, before_mvo_eq. cbn [returns]. apply asset_columns_selected. exact Hnd.
Qed.

Lemma reported_in_metrics e perf cw cols bmk r data pre :
  In e (metrics_report perf cw cols bmk r) ->
  In e (objective_report data ++ pre ++ metrics_report perf cw cols bmk r).
Proof. intros He. apply in_or_app. right. apply in_or_app. right. exact He. Qed.

(** The frame of returns after a successful MVO tab: the two added columns
    on top of the asset columns. *)
Lemma returns_after_mvo data bmk w ws :
  successful_run data w ws ->
  exists p b,
    returns (after_mvo data bmk w) =
    <["MSCI USA" := b]> (<["Portfolio" := p]> (list_to_map (pct_change_frame data))).
Proof.
  intros (Hb & Hs & Hp & Hnd & Hl). unfold after_mvo.
  destruct (keys_of_cleaned_weights data ws Hl) as [Hk _].
  erewrite mvo_tab_solved; [|exact Hb|exact Hs|exact Hp|].
  - rewrite before_mvo_eq. cbn [snd measured shown optimized returns].
    eexists; eexists; reflexivity.
  - rewrite Hk, before_mvo_eq. cbn [returns]. apply asset_columns_selected. exact Hnd.
Qed.

Lemma asset_columns_kept data (p b : series) :
  NoDup (columns data) -> no_reserved_column data ->
  mapM (fun k => (<["MSCI USA" := b]>
                    (<["Portfolio" := p]> (list_to_map (pct_change_frame data)))
                  : gmap string series) !! k)
       (columns data) = Some (asset_returns data).
Proof.
  intros Hnd [Hp Hm].
  rewrite <- (asset_columns_selected data Hnd). apply mapM_agree.
  intros k Hk. apply list_elem_of_In in Hk.
  rewrite !lookup_insert_ne; [reflexivity|congruence..].
Qed.

(** ** The properties of the specification *)

Lemma weights_after_mvo_solved data bmk w ws :
  lower_bound w < upper_bound w ->
  solves_selected_problem (mvo_frontier data w) w ws ->
  weights (after_mvo data bmk w) = Some ws.
Proof. intros Hb Hs. apply (mvo_tab_binds data bmk w _ ws Hb Hs). Qed.

Lemma weights_after_mvo_failed data bmk w :
  lower_bound w < upper_bound w ->
  selected_optimization_fails (mvo_frontier data w) w ->
  weights (after_mvo data bmk w) = None.
Proof.
  intros Hb Hf. unfold after_mvo. rewrite mvo_tab_failed by assumption.
  rewrite before_mvo_eq. reflexivity.
Qed.

(** C1. With valid bounds, the weights the MVO tab computes are the output
    of the solver that matches the selected method, run on the frontier
    built from the estimated expected returns and covariance matrix with
    every weight bounded by [lower_bound, upper_bound]: max-Sharpe at the
    user's risk-free rate, minimum risk at the user's target return, or
    minimum variance ([None] when that solver raises). For each option of
    the select box, the weights are bound exactly when the selected problem
    is solved, and to its solution. *)
Theorem C1_weights_solve_selected_problem data bmk w :
  lower_bound w < upper_bound w ->
  let ef := mkEF (expected_returns data) (cov_matrix data)
                 (lower_bound w, upper_bound w) in
  (optimization_method w = "Max Sharpe"%string ->
   weights (after_mvo data bmk w) = max_sharpe ef (rfr w)) /\
  (optimization_method w = "Efficient Return"%string ->
   weights (after_mvo data bmk w) = efficient_return ef (target_return w)) /\
  (optimization_method w = "Minimum Volatility"%string ->
   weights (after_mvo data bmk w) = min_volatility ef) /\
  (In (optimization_method w) method_options ->
   forall ws, weights (after_mvo data bmk w) = Some ws <->
              solves_selected_problem ef w ws) /\
  (forall ws, solves_selected_problem ef w ws ->
   cleaned_weights (after_mvo data bmk w) = Some (zip (columns data) (clean_weights ws))).
Proof.
  intros Hb ef. fold (mvo_frontier data w) in ef.
  assert (Hsharpe : optimization_method w = "Max Sharpe"%string ->
                    weights (after_mvo data bmk w) = max_sharpe ef (rfr w)).
  { intros Hm. destruct (max_sharpe ef (rfr w)) as [ws|] eqn:E.
    + apply weights_after_mvo_solved; [exact Hb|]. left. split; assumption.
    + apply weights_after_mvo_failed; [exact Hb|]. left. split; assumption. }
  assert (Hreturn : optimization_method w = "Efficient Return"%string ->
                    weights (after_mvo data bmk w) = efficient_return ef (target_return w)).
  { intros Hm. destruct (efficient_return ef (target_return w)) as [ws|] eqn:E.
    + apply weights_after_mvo_solved; [exact Hb|]. right. left. split; assumption.
    + apply weights_after_mvo_failed; [exact Hb|]. right. left. split; assumption. }
  assert (Hvol : optimization_method w = "Minimum Volatility"%string ->
                 weights (after_mvo data bmk w) = min_volatility ef).
  { intros Hm. destruct (min_volatility ef) as [ws|] eqn:E.
    + apply weights_after_mvo_solved; [exact Hb|]. right. right. split; assumption.
    + apply weights_after_mvo_failed; [exact Hb|]. right. right. split; assumption. }
  split; [exact Hsharpe|]. split; [exact Hreturn|]. split; [exact Hvol|]. split.
  - intros Hin ws. split.
    + intros Hw. destruct Hin as [Hm|[Hm|[Hm|[]]]]; symmetry in Hm.
      * right. left. split; [exact Hm|]. rewrite <- (Hreturn Hm). exact Hw.
      * left. split; [exact Hm|]. rewrite <- (Hsharpe Hm). exact Hw.
      * right. right. split; [exact Hm|]. rewrite <- (Hvol Hm). exact Hw.
    + intros Hs. apply weights_after_mvo_solved; assumption.
  - intros ws Hs. apply (mvo_tab_binds data bmk w _ ws Hb Hs).
Qed.

Lemma failure_events_hold_no_result data rets :
  forallb (fun e => negb (is_result e))
    (bounds_error :: adjust_messages ++ bl_header ++ [rets_df data rets]) = true.
Proof. reflexivity. Qed.

(** C8. When the bounds are invalid, or the selected optimisation raises,
    a tab shows only the bounds error and the two adjust-parameters lines
    (after its posterior-returns table, for the Black-Litterman tab): no
    weights, no performance figure and no benchmark-relative metric. A view
    on a ticker that is not a column of the data stops the Black-Litterman
    tab after its header. *)
Theorem C8_failure_reports_nothing data bmk w :
  let posterior :=
    bl_rets (columns data) (expected_returns data) (cov_matrix data) (viewdict w) in
  (lower_bound w >= upper_bound w ->
   display (after_mvo data bmk w) =
     objective_report data ++ bounds_error :: adjust_messages /\
   forall rets, posterior = Some rets ->
     display (after_bl data bmk w) =
       display (after_mvo data bmk w) ++
       bl_header ++ rets_df data rets :: bounds_error :: adjust_messages) /\
  (lower_bound w < upper_bound w ->
   selected_optimization_fails (mvo_frontier data w) w ->
   display (after_mvo data bmk w) = objective_report data ++ adjust_messages) /\
  (forall rets, posterior = Some rets ->
   lower_bound w < upper_bound w ->
   selected_optimization_fails (bl_frontier data w rets) w ->
   display (after_bl data bmk w) =
     display (after_mvo data bmk w) ++ bl_header ++ rets_df data rets :: adjust_messages) /\
  (posterior = None ->
   display (after_bl data bmk w) = display (after_mvo data bmk w) ++ bl_header).
Proof.
  intros posterior.
  assert (Hmvo : lower_bound w >= upper_bound w ->
            after_mvo data bmk w =
            shown (bounds_error :: adjust_messages) (before_mvo data)).
  { intros Hb. unfold after_mvo.
    rewrite mvo_tab_bounds by (try exact Hb; rewrite before_mvo_eq; reflexivity).
    reflexivity. }
  split; [|split; [|split]].
  - intros Hb. rewrite (Hmvo Hb). split.
    + rewrite before_mvo_eq. reflexivity.
    + intros rets Hr. unfold after_bl. rewrite (Hmvo Hb).
      rewrite (bl_tab_bounds _ _ _ _ _ Hr Hb); [reflexivity|].
      rewrite before_mvo_eq. reflexivity.
  - intros Hb Hf. unfold after_mvo. rewrite mvo_tab_failed by assumption.
    rewrite before_mvo_eq. reflexivity.
  - intros rets Hr Hb Hf. unfold after_bl.
    rewrite (bl_tab_failed _ _ _ _ _ Hr Hb Hf). reflexivity.
  - intros Hr. unfold after_bl.
    rewrite (bl_tab_outside_universe _ _ _ _ Hr). reflexivity.
Qed.

Lemma viewdict_empty w :
  quality_view w = None -> value_view w = None ->
  growth_view w = None -> minvol_view w = None -> viewdict w = [].
Proof. intros Hq Hv Hg Hm. unfold viewdict. rewrite Hq, Hv, Hg, Hm. reflexivity. Qed.

Lemma length_expected_returns data : length (expected_returns data) = length (columns data).
Proof.
  unfold expected_returns, PyPfOpt.mean_historical_return, columns.
  rewrite !length_map. reflexivity.
Qed.

(** With no view, the Black-Litterman tab of a successful run shows, after
    its header and its table of returns, what the MVO tab showed. *)
Lemma no_views_same_report data bmk w ws :
  successful_run data w ws -> no_reserved_column data ->
  viewdict w = [] ->
  let cw := zip (columns data) (clean_weights ws) in
  let report :=
    charts_report cw ++
    metrics_report
      (PyPfOpt.portfolio_performance ws (expected_returns data) (cov_matrix data) (rfr w))
      cw (asset_returns data) bmk (rfr w) in
  display (after_mvo data bmk w) = objective_report data ++ report /\
  display (after_bl data bmk w) =
    display (after_mvo data bmk w) ++
    bl_header ++ rets_df data (expected_returns data) :: report.
Proof.
  intros Hrun Hres Hviews cw report. split.
  - apply after_mvo_display. exact Hrun.
  - destruct (returns_after_mvo data bmk w ws Hrun) as (p & b & Hret).
    destruct Hrun as (Hb & Hs & Hp & Hnd & Hl).
    destruct (keys_of_cleaned_weights data ws Hl) as [Hk _].
    unfold after_bl.
    apply (bl_tab_solved data bmk w _ (expected_returns data) ws (asset_returns data)).
    + rewrite Hviews. apply bl_returns_no_views. apply length_expected_returns.
    + exact Hb.
    + exact Hs.
    + exact Hp.
    + rewrite Hk, Hret. apply asset_columns_kept; assumption.
Qed.

(** C9. With no view check box selected the posterior returns are the prior
    vector, the historical mean returns, so the Black-Litterman tab builds
    the same frontier as the MVO tab and optimises exactly as it does: in a
    run that gets through, it reports the same weights and metrics. *)
Theorem C9_no_views_posterior_is_prior data w :
  quality_view w = None -> value_view w = None ->
  growth_view w = None -> minvol_view w = None ->
  bl_rets (columns data) (expected_returns data) (cov_matrix data) (viewdict w)
    = Some (expected_returns data) /\
  bl_frontier data w (expected_returns data) = mvo_frontier data w /\
  (forall s, bl_optimization data w (expected_returns data) s = mvo_optimization data w s) /\
  (forall bmk ws,
     successful_run data w ws -> no_reserved_column data ->
     let cw := zip (columns data) (clean_weights ws) in
     let report :=
       charts_report cw ++
       metrics_report
         (PyPfOpt.portfolio_performance ws (expected_returns data) (cov_matrix data) (rfr w))
         cw (asset_returns data) bmk (rfr w) in
     display (after_mvo data bmk w) = objective_report data ++ report /\
     display (after_bl data bmk w) =
       display (after_mvo data bmk w) ++
       bl_header ++ rets_df data (expected_returns data) :: report).
Proof.
  intros Hq Hv Hg Hm. pose proof (viewdict_empty w Hq Hv Hg Hm) as Hviews.
  split; [|split; [|split]].
  - rewrite Hviews. unfold bl_rets. apply bl_returns_no_views.
    apply length_expected_returns.
  - reflexivity.
  - reflexivity.
  - intros bmk ws Hrun Hres. apply no_views_same_report; assumption.
Qed.

(** C10. The metrics block of the Black-Litterman tab and the one of the MVO
    tab compute the same function: started with the same cleaned weights,
    the same performance figures and [returns] frames that agree on the
    asset columns (the frame of the second block also holds the two columns
    the first one added), they end the same way and display the same
    events. *)
Theorem C10_metrics_blocks_agree bmk w s1 s2 :
  cleaned_weights s1 = cleaned_weights s2 ->
  expected_return s1 = expected_return s2 ->
  portfolio_volatility s1 = portfolio_volatility s2 ->
  sharpe_ratio s1 = sharpe_ratio s2 ->
  (forall cw k, cleaned_weights s1 = Some cw -> k ∈ map fst cw ->
                returns s1 !! k = returns s2 !! k) ->
  exists evs,
    fst (mvo_metrics bmk w s1) = fst (bl_metrics bmk w s2) /\
    display (snd (mvo_metrics bmk w s1)) = display s1 ++ evs /\
    display (snd (bl_metrics bmk w s2)) = display s2 ++ evs.
Proof.
  intros Hcw Her Hvol Hsr Hret.
  destruct s1 as [r1 wv1 lbl1 cwv erv volv srv disp1].
  destruct s2 as [r2 wv2 lbl2 cwv2 erv2 volv2 srv2 disp2].
  simpl in *. subst cwv2 erv2 volv2 srv2.
  unfold mvo_metrics, bl_metrics.
  destruct erv as [er|]; [|run_script; eexists; repeat split; reflexivity].
  destruct volv as [vol|]; [|run_script; settle; eexists; repeat split; reflexivity].
  destruct srv as [sr|]; [|run_script; settle; eexists; repeat split; reflexivity].
  destruct cwv as [cw|]; [|run_script; settle; eexists; repeat split; reflexivity].
  run_script.
  rewrite (mapM_agree (fun k => r1 !! k) (fun k => r2 !! k) (map fst cw))
    by (intros k Hk; apply (Hret cw k eq_refl Hk)).
  destruct (mapM _ _) as [cols|]; run_script.
  - read_columns. settle. eexists; repeat split; reflexivity.
  - settle. eexists; repeat split; reflexivity.
Qed.

Lemma mean_historical_return_geometric ps :
  PyPfOpt.mean_historical_return_1 true 12 ps =
  Spec.geometric_mean_return (fun t => nth t (pct_change ps) 0) (length ps - 1).
Proof.
  unfold PyPfOpt.mean_historical_return_1, Spec.geometric_mean_return.
  rewrite length_pct_change. do 3 f_equal.
  rewrite <- (length_pct_change ps).
  rewrite (take_map_nth (Rplus 1)) by lia. rewrite firstn_all2; [reflexivity|].
  rewrite length_map. lia.
Qed.

Lemma asset_std_devs_eq data :
  asset_std_devs data =
  mk_vector (length (cov_matrix data)) (fun i => sqrt (mget (cov_matrix data) i i)).
Proof.
  unfold asset_std_devs, diag, mk_vector. rewrite map_map. reflexivity.
Qed.

(** C3. The expected returns are, per asset, the annualised geometric mean
    of the monthly returns at 12 periods per year, that is the compound
    annual growth rate of the price series; the covariance matrix is the
    Ledoit-Wolf estimate at the same frequency; the standard deviations in
    the assumptions table are the square roots of its diagonal. *)
Theorem C3_estimation data :
  (forall c, In c data -> snd c <> [] /\ Forall (fun p => p <> 0) (snd c)) ->
  expected_returns data =
    map (fun c => Spec.geometric_mean_return
                    (fun t => nth t (pct_change (snd c)) 0) (length (snd c) - 1)) data /\
  expected_returns data =
    map (fun c => Spec.compound_annual_return (hd 0 (snd c)) (List.last (snd c) 0)
                    (length (snd c) - 1)) data /\
  cov_matrix data = ledoit_wolf data 12 /\
  asset_std_devs data =
    mk_vector (length (cov_matrix data)) (fun i => sqrt (mget (cov_matrix data) i i)) /\
  In (StDataframe "asset_assumptions" (columns data)
        [("Expected Return"%string, expected_returns data);
         ("Standard Deviation"%string, asset_std_devs data)])
     (display (before_mvo data)).
Proof.
  intros Hdata. split; [|split; [|split; [|split]]].
  - unfold expected_returns, PyPfOpt.mean_historical_return.
    apply map_ext. intros c. apply mean_historical_return_geometric.
  - unfold expected_returns, PyPfOpt.mean_historical_return.
    apply map_ext_in. intros c Hc. destruct (Hdata c Hc) as [Hne Hall].
    apply mean_historical_return_compounds; assumption.
  - reflexivity.
  - apply asset_std_devs_eq.
  - rewrite before_mvo_eq. cbn [display objective_report].
    repeat (first [left; reflexivity | right]).
Qed.

(** *** The reported metrics *)

Lemma months_of_returns data bmk :
  aligned data bmk ->
  length (hd [] (asset_returns data)) = months bmk.
Proof.
  intros [Hne Hlen]. destruct data as [|c data]; [congruence|].
  unfold months. cbn [asset_returns map hd]. rewrite !length_pct_change.
  rewrite (Hlen c) by (left; reflexivity). reflexivity.
Qed.

Lemma length_benchmark_returns bmk : length (benchmark_returns bmk) = months bmk.
Proof. reflexivity. Qed.

Lemma length_portfolio_returns data bmk values :
  aligned data bmk ->
  length (portfolio_returns (asset_returns data) values) = months bmk.
Proof.
  intros Ha. unfold portfolio_returns. rewrite length_frame_dot.
  apply months_of_returns. exact Ha.
Qed.

Lemma nth_portfolio_returns data bmk values t :
  aligned data bmk -> (t < months bmk)%nat ->
  nth t (portfolio_returns (asset_returns data) values) 0 =
  Spec.portfolio_at (asset_returns data) values t.
Proof.
  intros Ha Ht. unfold portfolio_returns. apply nth_frame_dot.
  rewrite (months_of_returns data bmk Ha). exact Ht.
Qed.

Lemma tracking_error_ext p p' b b' T :
  (forall t, (t < T)%nat -> p t = p' t) -> (forall t, (t < T)%nat -> b t = b' t) ->
  Spec.tracking_error p b T = Spec.tracking_error p' b' T.
Proof.
  intros Hp Hb. unfold Spec.tracking_error. f_equal. apply stdev_upto_ext.
  intros t Ht. rewrite Hp, Hb by exact Ht. reflexivity.
Qed.

Ltac find_event := cbn [In metrics_report]; repeat (first [left; reflexivity | right]).

(** C4. The reported active risk is the standard deviation of the monthly
    differences between the portfolio return (the asset returns of the month
    dotted with the cleaned weights) and the benchmark return, times the
    square root of 12. *)
Theorem C4_active_risk data bmk w ws :
  successful_run data w ws -> aligned data bmk ->
  In (StMetric "Active Risk (Tracking Error)"
        (Spec.tracking_error
           (Spec.portfolio_at (asset_returns data) (clean_weights ws))
           (fun t => nth t (benchmark_returns bmk) 0) (months bmk)))
     (display (after_mvo data bmk w)).
Proof.
  intros Hrun Ha. rewrite (after_mvo_display data bmk w ws Hrun).
  destruct Hrun as (_ & _ & _ & _ & Hl).
  destruct (keys_of_cleaned_weights data ws Hl) as [_ Hv].
  apply reported_in_metrics.
  rewrite <- (tracking_error_ext
                (fun t => nth t (portfolio_returns (asset_returns data) (clean_weights ws)) 0)
                _ (fun t => nth t (benchmark_returns bmk) 0) _ (months bmk)).
  - rewrite <- (length_portfolio_returns data bmk (clean_weights ws) Ha).
    rewrite <- active_risk_spec
      by (rewrite length_benchmark_returns; apply length_portfolio_returns; exact Ha).
    unfold metrics_report. rewrite Hv. find_event.
  - intros t Ht. apply (nth_portfolio_returns data bmk); assumption.
  - reflexivity.
Qed.

Lemma sortino_ext p p' r T :
  (forall t, (t < T)%nat -> p t = p' t) -> Spec.sortino p r T = Spec.sortino p' r T.
Proof.
  intros E. unfold Spec.sortino, Spec.downside_deviation, Spec.negative_months.
  rewrite (mean_upto_ext (fun t => p t - r / 12) (fun t => p' t - r / 12) T)
    by (intros t Ht; rewrite E by exact Ht; reflexivity).
  rewrite (big_sum_ext
             (fun t => if Rlt_dec (p t - r / 12) 0 then (p t - r / 12) ^ 2 else 0)
             (fun t => if Rlt_dec (p' t - r / 12) 0 then (p' t - r / 12) ^ 2 else 0) T)
    by (intros t Ht; rewrite E by exact Ht; reflexivity).
  rewrite (big_sum_ext
             (fun t => if Rlt_dec (p t - r / 12) 0 then 1 else 0)
             (fun t => if Rlt_dec (p' t - r / 12) 0 then 1 else 0) T)
    by (intros t Ht; rewrite E by exact Ht; reflexivity).
  reflexivity.
Qed.

Lemma sharpe_spec ws mu cov r :
  snd (PyPfOpt.portfolio_performance ws mu cov r) = Spec.sharpe ws mu cov r.
Proof.
  unfold PyPfOpt.portfolio_performance, Spec.sharpe. cbn [snd].
  rewrite dot_spec, portfolio_variance_spec. reflexivity.
Qed.

Lemma big_sum_nonneg f n :
  (forall t, (t < n)%nat -> 0 <= f t) -> 0 <= big_sum f n.
Proof.
  induction n as [|n IH]; intros Hf; [unfold big_sum; cbn; lra|].
  rewrite big_sum_last. specialize (Hf n ltac:(lia)) as Hn.
  assert (0 <= big_sum f n) by (apply IH; intros t Ht; apply Hf; lia). lra.
Qed.

Lemma big_sum_pos f n t :
  (forall s, (s < n)%nat -> 0 <= f s) -> (t < n)%nat -> 0 < f t -> 0 < big_sum f n.
Proof.
  induction n as [|n IH]; intros Hf Ht Hpos; [lia|].
  rewrite big_sum_last. specialize (Hf n ltac:(lia)) as Hn.
  assert (Hsum : 0 <= big_sum f n) by (apply big_sum_nonneg; intros s Hs; apply Hf; lia).
  destruct (Nat.eq_dec t n) as [->|Hne]; [lra|].
  assert (0 < big_sum f n) by (apply IH; [intros s Hs; apply Hf; lia|lia|exact Hpos]). lra.
Qed.

(** With a month of negative excess return, the downside deviation is the
    root mean square of a non-empty set of non-zero numbers. *)
Lemma downside_deviation_pos e T t :
  (t < T)%nat -> e t < 0 -> 0 < Spec.downside_deviation e T.
Proof.
  intros Ht Hneg. unfold Spec.downside_deviation, Spec.negative_months.
  apply Rmult_lt_0_compat; [|apply sqrt_lt_R0; lra]. apply sqrt_lt_R0.
  apply Rdiv_lt_0_compat.
  - apply (big_sum_pos _ T t); [|exact Ht|].
    + intros s _. destruct (Rlt_dec (e s) 0); [|lra]. apply pow2_ge_0.
    + destruct (Rlt_dec (e t) 0); [|contradiction]. nra.
  - apply (big_sum_pos _ T t); [|exact Ht|].
    + intros s _. destruct (Rlt_dec (e s) 0); lra.
    + destruct (Rlt_dec (e t) 0); [lra|contradiction].
Qed.

(** C5. When the portfolio's variance [w' Sigma w] is positive, the reported
    Sharpe ratio is the excess expected return divided by the total
    volatility [sqrt (w' Sigma w)]. When some month's portfolio return is
    below [rfr / 12], the reported Sortino ratio is the annualised mean
    monthly excess return (mean times 12, excess over [rfr / 12]) divided by
    the root mean square of the negative excess returns only, times the
    square root of 12, and that divisor is positive. (With no month below
    [rfr / 12] the script takes the mean of an empty series and reports
    [nan].) *)
Theorem C5_sharpe_and_sortino data bmk w ws :
  successful_run data w ws -> aligned data bmk ->
  (0 < Spec.variance ws (cov_matrix data) ->
   In (StMetric "Sharpe Ratio"
         (Spec.sharpe ws (expected_returns data) (cov_matrix data) (rfr w)))
      (display (after_mvo data bmk w))) /\
  ((exists t, (t < months bmk)%nat /\
      Spec.portfolio_at (asset_returns data) (clean_weights ws) t < rfr w / 12) ->
   0 < Spec.downside_deviation
         (fun t => Spec.portfolio_at (asset_returns data) (clean_weights ws) t - rfr w / 12)
         (months bmk) /\
   In (StMetric "Sortino Ratio"
         (Spec.sortino (Spec.portfolio_at (asset_returns data) (clean_weights ws))
            (rfr w) (months bmk)))
      (display (after_mvo data bmk w))).
Proof.
  intros Hrun Ha. rewrite (after_mvo_display data bmk w ws Hrun).
  destruct Hrun as (_ & _ & _ & _ & Hl).
  destruct (keys_of_cleaned_weights data ws Hl) as [_ Hv].
  split; [intros _|intros (t0 & Ht0 & Hlow); split;
                   [apply (downside_deviation_pos _ _ t0 Ht0); lra|clear t0 Ht0 Hlow]];
    apply reported_in_metrics.
  - rewrite <- sharpe_spec. find_event.
  - rewrite <- (sortino_ext
                  (fun t => nth t (portfolio_returns (asset_returns data) (clean_weights ws)) 0)).
    + rewrite <- (length_portfolio_returns data bmk (clean_weights ws) Ha).
      rewrite <- sortino_ratio_spec. unfold metrics_report. rewrite Hv. find_event.
    + intros t Ht. apply (nth_portfolio_returns data bmk); assumption.
Qed.

Lemma growth_ext r r' t :
  (forall s, (s <= t)%nat -> r s = r' s) -> Spec.growth r t = Spec.growth r' t.
Proof.
  intros E. unfold Spec.growth. f_equal. apply map_ext_in.
  intros s Hs. apply in_seq in Hs. rewrite E by lia. reflexivity.
Qed.

(** C6. The reported maximum drawdown is the minimum over the months [t] of
    [(C_t - M_t) / M_t], where [C_t] is the product of [1 + r_s] over the
    months [s <= t] of the portfolio returns (asset returns dotted with the
    cleaned weights) and [M_t] the maximum of [C] over the months up to
    [t]. *)
Theorem C6_max_drawdown data bmk w ws :
  successful_run data w ws -> aligned data bmk -> (1 <= months bmk)%nat ->
  let C := Spec.growth (Spec.portfolio_at (asset_returns data) (clean_weights ws)) in
  exists v M,
    In (StMetric "Maximum Drawdown" v) (display (after_mvo data bmk w)) /\
    (forall t, (t < months bmk)%nat -> Spec.is_max_upto C t (M t)) /\
    Spec.is_min_before (fun t => (C t - M t) / M t) (months bmk) v.
Proof.
  intros Hrun Ha HT C. rewrite (after_mvo_display data bmk w ws Hrun).
  destruct Hrun as (_ & _ & _ & _ & Hl).
  destruct (keys_of_cleaned_weights data ws Hl) as [_ Hv].
  set (p := portfolio_returns (asset_returns data) (clean_weights ws)).
  pose proof (length_portfolio_returns data bmk (clean_weights ws) Ha) as Hlen.
  fold p in Hlen.
  assert (Hp : p <> []) by (intros E; rewrite E in Hlen; cbn in Hlen; lia).
  destruct (max_drawdown_spec p Hp) as [Hmax Hmin]. rewrite Hlen in Hmax, Hmin.
  assert (HC : forall t, (t < months bmk)%nat ->
                 Spec.growth (fun s => nth s p 0) t = C t).
  { intros t Ht. apply growth_ext. intros s Hs.
    apply (nth_portfolio_returns data bmk); [exact Ha|lia]. }
  eexists. exists (fun t => nth t (rolling_max (cumulative_returns p)) 0).
  split; [|split].
  - apply reported_in_metrics. unfold metrics_report. rewrite Hv. fold p. find_event.
  - intros t Ht. apply (is_max_upto_ext (Spec.growth (fun s => nth s p 0))).
    + intros s Hs. apply HC. lia.
    + apply Hmax. exact Ht.
  - eapply is_min_before_ext; [|exact Hmin].
    intros t Ht. cbv beta. rewrite (HC t Ht). reflexivity.
Qed.

(** The benchmark-relative metrics of a successful run. Alpha and the
    information ratio are as expected from the reported beta and the active
    risk; the reported beta is the regression beta times [T / (T - 1)]. *)
Lemma benchmark_relative_metrics_reported data bmk w ws ddof :
  successful_run data w ws -> aligned data bmk ->
  (2 <= months bmk)%nat -> (ddof <= 1)%nat ->
  let T := months bmk in
  let p := Spec.portfolio_at (asset_returns data) (clean_weights ws) in
  let b := fun t => nth t (benchmark_returns bmk) 0 in
  Spec.var_upto 0 b T <> 0 ->
  let reported_beta := INR T / (INR T - 1) * Spec.beta ddof p b T in
  let Rp := Spec.mean_upto p T * 12 in
  let Rb := Spec.mean_upto b T * 12 in
  In (StMetric "Beta" reported_beta) (display (after_mvo data bmk w)) /\
  In (StMetric "Alpha" (Rp - (rfr w + reported_beta * (Rb - rfr w))))
     (display (after_mvo data bmk w)) /\
  In (StMetric "Information Ratio" ((Rp - Rb) / Spec.tracking_error p b T))
     (display (after_mvo data bmk w)).
Proof.
  intros Hrun Ha HT Hd T p b Hvar reported_beta Rp Rb.
  rewrite (after_mvo_display data bmk w ws Hrun).
  destruct Hrun as (_ & _ & _ & _ & Hl).
  destruct (keys_of_cleaned_weights data ws Hl) as [_ Hv].
  set (P := portfolio_returns (asset_returns data) (clean_weights ws)).
  set (B := benchmark_returns bmk).
  assert (HlP : length P = T) by (apply length_portfolio_returns; exact Ha).
  assert (HlB : length B = T) by reflexivity.
  assert (HP : forall t, (t < T)%nat -> nth t P 0 = p t)
    by (intros t Ht; apply (nth_portfolio_returns data bmk); assumption).
  assert (Hbeta : beta (covariance P B) (benchmark_variance B) = reported_beta).
  { unfold beta, covariance, benchmark_variance, reported_beta.
    rewrite np_cov01_spec, np_var_spec, HlP, HlB by congruence.
    rewrite (mixed_normalisation ddof) by assumption.
    f_equal. apply beta_ext; [exact HP|reflexivity]. }
  assert (HRp : portfolio_return P = Rp).
  { unfold portfolio_return, Rp. rewrite mean_spec, HlP.
    f_equal. apply mean_upto_ext. exact HP. }
  assert (HRb : benchmark_return B = Rb).
  { unfold benchmark_return, Rb. rewrite mean_spec, HlB. reflexivity. }
  assert (HTE : active_risk (active_returns P B) = Spec.tracking_error p b T).
  { rewrite active_risk_spec, HlP by congruence.
    apply tracking_error_ext; [exact HP|reflexivity]. }
  rewrite <- Hbeta, <- HRp, <- HRb, <- HTE.
  repeat split; apply reported_in_metrics; unfold metrics_report; rewrite Hv;
    fold P B; find_event.
Qed.

(** C2 (as amended). The prior handed to the Black-Litterman model is the
    vector of historical mean returns; the table shown before the
    optimisation holds the posterior of that prior and the views, which is
    the prior itself when there is no view and, for a single view, moves the
    viewed asset to the midpoint of its prior and the view. *)
Theorem C2_posterior_blends_historical_prior data bmk w :
  bl_rets (columns data) (expected_returns data) (cov_matrix data) (viewdict w) =
    PyPfOpt.bl_returns (columns data) (cov_matrix data) (viewdict w)
      (PyPfOpt.mean_historical_return data true 12) /\
  (forall rets s,
     bl_rets (columns data) (expected_returns data) (cov_matrix data) (viewdict w)
       = Some rets ->
     bl_tab data bmk w s =
     try_except
       (bl_optimization data w rets;; bl_charts data w rets;; bl_metrics bmk w)
       except_handler (shown (bl_header ++ [rets_df data rets]) s)) /\
  (viewdict w = [] ->
   bl_rets (columns data) (expected_returns data) (cov_matrix data) (viewdict w)
     = Some (expected_returns data)) /\
  (forall t q i,
     viewdict w = [(t, q)] ->
     PyPfOpt.ticker_index (columns data) t = Some i ->
     mget (cov_matrix data) i i <> 0 ->
     exists rets,
       bl_rets (columns data) (expected_returns data) (cov_matrix data) (viewdict w)
         = Some rets /\
       vget rets i = (vget (expected_returns data) i + q) / 2).
Proof.
  split; [reflexivity|]. split; [|split].
  - intros rets s Hr. apply bl_tab_intro. exact Hr.
  - intros ->. apply bl_returns_no_views. apply length_expected_returns.
  - intros t q i -> Hi Hc.
    destruct (bl_returns_one_view (columns data) (cov_matrix data) t q
                (expected_returns data) i Hi (length_expected_returns data) Hc)
      as (post & Hp & _ & Hv).
    exists post. split; assumption.
Qed.

End Runs.

(** C2 (as stated) fails: were the displayed returns a blend of a
    market-implied prior with the views, two runs with the same covariance
    matrix and no view would display the same returns whatever the
    historical means; they display the historical means themselves. *)
Lemma C2_prior_is_not_market_implied :
  ~ Spec.blends_market_implied_prior ["USA QUALITY"; "USA LARGE VALUE"]%string
      (bl_rets ["USA QUALITY"; "USA LARGE VALUE"]%string).
Proof.
  intros (caps & delta & rf & Hall).
  pose proof (Hall [1 / 10; 1 / 10] Sample.cov []) as H1.
  pose proof (Hall [2 / 10; 2 / 10] Sample.cov []) as H2.
  unfold bl_rets in H1, H2.
  rewrite bl_returns_no_views in H1 by reflexivity.
  rewrite bl_returns_no_views in H2 by reflexivity.
  rewrite <- H2 in H1. injection H1 as E _. lra.
Qed.

(** C7. Two assets that replicate the benchmark, equally weighted, are
    reported with a beta of 2 over two months, although the covariance of
    the portfolio with the benchmark over the variance of the benchmark is 1
    under either normalisation: the script divides NumPy's unbiased
    covariance by the population variance. *)
Theorem C7_beta_of_a_benchmark_tracker :
  let b := fun t => nth t (benchmark_returns Sample.tracker_prices) 0 in
  In (StMetric "Beta" 2)
     (display (@after_mvo Sample.optimizer Sample.trackers Sample.tracker_prices
                 (Sample.widgets_of "Max Sharpe" 0 1))) /\
  Spec.beta 0 b b 2 = 1 /\ Spec.beta 1 b b 2 = 1.
Proof.
  intros b. split; [|split].
  - rewrite (@after_mvo_display Sample.optimizer _ _ _ [1 / 2; 1 / 2]).
    + apply reported_in_metrics. cbn [In metrics_report]. do 10 right. left.
      f_equal. cbv -[Rplus Rmult Rminus Rdiv Rinv Ropp IZR]. field.
    + repeat split.
      * cbn. lra.
      * left. split; reflexivity.
      * repeat constructor; cbn; intros Hin; inversion Hin as [|? ? ? Hin']; inversion Hin'.
  - subst b. cbv -[Rplus Rmult Rminus Rdiv Rinv Ropp IZR]. field.
  - subst b. cbv -[Rplus Rmult Rminus Rdiv Rinv Ropp IZR]. field.
Qed.

(** ** The statements at the sample universe *)

Lemma sample_run :
  @successful_run Sample.optimizer Sample.data (Sample.widgets_of "Max Sharpe" 0 1)
    [1 / 2; 1 / 2].
Proof.
  repeat split.
  - cbn. lra.
  - left. split; reflexivity.
  - repeat constructor; cbn; intros Hin; inversion Hin as [|? ? ? Hin']; inversion Hin'.
Defined.

Lemma sample_aligned : aligned Sample.data Sample.bmk_prices.
Proof.
  split; [discriminate|].
  intros c [<-|[<-|[]]]; reflexivity.
Defined.

Lemma C1_witness :
  0 < 1 /\
  weights (@after_mvo Sample.optimizer Sample.data Sample.bmk_prices
             (Sample.widgets_of "Max Sharpe" 0 1)) = Some [1 / 2; 1 / 2].
Proof.
  assert (Hb : 0 < 1) by lra. split; [exact Hb|].
  apply (proj1 (@C1_weights_solve_selected_problem Sample.optimizer Sample.data
                  Sample.bmk_prices (Sample.widgets_of "Max Sharpe" 0 1) Hb)).
  reflexivity.
Defined.

Lemma sample_prices :
  forall c, In c Sample.data -> snd c <> [] /\ Forall (fun p => p <> 0) (snd c).
Proof.
  intros c [<-|[<-|[]]]; (split; [discriminate|]); repeat constructor; cbn; lra.
Defined.

Lemma C3_witness :
  @cov_matrix Sample.optimizer Sample.data = Sample.cov /\
  expected_returns Sample.data =
    [Spec.compound_annual_return 100 121 2; Spec.compound_annual_return 100 110 2].
Proof.
  destruct (@C3_estimation Sample.optimizer Sample.data sample_prices)
    as (_ & He & Hc & _).
  split; [exact Hc|exact He].
Defined.

Lemma C4_witness :
  In (StMetric "Active Risk (Tracking Error)"
        (Spec.tracking_error
           (Spec.portfolio_at (asset_returns Sample.data) [1 / 2; 1 / 2])
           (fun t => nth t (benchmark_returns Sample.bmk_prices) 0) 2))
     (display (@after_mvo Sample.optimizer Sample.data Sample.bmk_prices
                 (Sample.widgets_of "Max Sharpe" 0 1))).
Proof.
  exact (@C4_active_risk Sample.optimizer _ _ _ _ sample_run sample_aligned).
Defined.

(** A run in which the portfolio gains 5% in the first month and loses 10%
    in the second, against a monthly risk-free rate of 0.25%. *)
Lemma loss_run :
  @successful_run Sample.optimizer Sample.data_with_a_loss
    (Sample.widgets_of "Max Sharpe" 0 1) [1 / 2; 1 / 2].
Proof.
  repeat split.
  - cbn. lra.
  - left. split; reflexivity.
  - repeat constructor; cbn; intros Hin; inversion Hin as [|? ? ? Hin']; inversion Hin'.
Defined.

Lemma loss_aligned : aligned Sample.data_with_a_loss Sample.bmk_prices.
Proof.
  split; [discriminate|].
  intros c [<-|[<-|[]]]; reflexivity.
Defined.

Lemma loss_variance : 0 < Spec.variance [1 / 2; 1 / 2] Sample.cov.
Proof.
  cbv [Spec.variance big_sum Series.Rsum foldr map seq length Matrix.vget Matrix.mget
       nth Sample.cov].
  lra.
Defined.

Lemma loss_month :
  exists t, (t < 2)%nat /\
    Spec.portfolio_at (asset_returns Sample.data_with_a_loss) [1 / 2; 1 / 2] t
    < 3 / 100 / 12.
Proof.
  exists 1%nat. split; [lia|].
  cbv [Spec.portfolio_at asset_returns Sample.data_with_a_loss map snd length
       Series.pct_change Series.zip_with_R tl big_sum Series.Rsum foldr seq
       Matrix.vget Matrix.mget nth].
  lra.
Defined.

Lemma C5_witness :
  In (StMetric "Sharpe Ratio"
        (Spec.sharpe [1 / 2; 1 / 2] (expected_returns Sample.data_with_a_loss)
           Sample.cov (3 / 100)))
     (display (@after_mvo Sample.optimizer Sample.data_with_a_loss Sample.bmk_prices
                 (Sample.widgets_of "Max Sharpe" 0 1))) /\
  0 < Spec.downside_deviation
        (fun t => Spec.portfolio_at (asset_returns Sample.data_with_a_loss)
                    [1 / 2; 1 / 2] t - 3 / 100 / 12) 2 /\
  In (StMetric "Sortino Ratio"
        (Spec.sortino (Spec.portfolio_at (asset_returns Sample.data_with_a_loss)
                         [1 / 2; 1 / 2])
           (3 / 100) 2))
     (display (@after_mvo Sample.optimizer Sample.data_with_a_loss Sample.bmk_prices
                 (Sample.widgets_of "Max Sharpe" 0 1))).
Proof.
  destruct (@C5_sharpe_and_sortino Sample.optimizer _ _ _ _ loss_run loss_aligned)
    as [Hsharpe Hsortino].
  split; [exact (Hsharpe loss_variance)|exact (Hsortino loss_month)].
Defined.

Lemma C6_witness :
  exists v M,
    In (StMetric "Maximum Drawdown" v)
       (display (@after_mvo Sample.optimizer Sample.data Sample.bmk_prices
                   (Sample.widgets_of "Max Sharpe" 0 1))) /\
    (forall t, (t < 2)%nat ->
       Spec.is_max_upto
         (Spec.growth (Spec.portfolio_at (asset_returns Sample.data) [1 / 2; 1 / 2]))
         t (M t)) /\
    Spec.is_min_before
      (fun t => (Spec.growth (Spec.portfolio_at (asset_returns Sample.data) [1 / 2; 1 / 2]) t
                 - M t) / M t) 2 v.
Proof.
  assert (HT : (1 <= months Sample.bmk_prices)%nat) by (cbn; lia).
  exact (@C6_max_drawdown Sample.optimizer _ _ _ _ sample_run sample_aligned HT).
Defined.

Lemma sample_no_views w :
  quality_view w = None -> value_view w = None ->
  growth_view w = None -> minvol_view w = None ->
  @bl_rets (columns Sample.data) (expected_returns Sample.data)
    (@cov_matrix Sample.optimizer Sample.data) (viewdict w)
  = Some (expected_returns Sample.data).
Proof.
  intros Hq Hv Hg Hm. rewrite (viewdict_empty w Hq Hv Hg Hm).
  apply bl_returns_no_views. reflexivity.
Defined.

Lemma sample_columns : no_reserved_column Sample.data.
Proof.
  split; cbn; intros [E|[E|[]]]; discriminate E.
Defined.

Lemma C9_witness :
  @bl_rets (columns Sample.data) (expected_returns Sample.data)
    (@cov_matrix Sample.optimizer Sample.data)
    (viewdict (Sample.widgets_of "Max Sharpe" 0 1))
  = Some (expected_returns Sample.data) /\
  exists report,
    display (@after_bl Sample.optimizer Sample.data Sample.bmk_prices
               (Sample.widgets_of "Max Sharpe" 0 1)) =
    @objective_report Sample.optimizer Sample.data ++ report ++
    bl_header ++ rets_df Sample.data (expected_returns Sample.data) :: report.
Proof.
  destruct (@C9_no_views_posterior_is_prior Sample.optimizer Sample.data
              (Sample.widgets_of "Max Sharpe" 0 1) eq_refl eq_refl eq_refl eq_refl)
    as (Hpost & _ & _ & Hsame).
  split; [exact Hpost|].
  destruct (Hsame Sample.bmk_prices [1 / 2; 1 / 2] sample_run sample_columns)
    as [Hmvo Hbl].
  eexists. rewrite Hbl, Hmvo, <- app_assoc. reflexivity.
Defined.

Lemma C8_witness :
  1 / 4 >= 1 / 8 /\
  display (@after_mvo Sample.optimizer Sample.data Sample.bmk_prices
             (Sample.widgets_of "Max Sharpe" (1 / 4) (1 / 8))) =
    @objective_report Sample.optimizer Sample.data ++ bounds_error :: adjust_messages /\
  display (@after_bl Sample.optimizer Sample.data Sample.bmk_prices
             (Sample.widgets_of "Max Sharpe" (1 / 4) (1 / 8))) =
    @objective_report Sample.optimizer Sample.data ++ bounds_error :: adjust_messages ++
    bl_header ++ rets_df Sample.data (expected_returns Sample.data)
    :: bounds_error :: adjust_messages /\
  display (@after_mvo Sample.optimizer Sample.data Sample.bmk_prices
             (Sample.widgets_of "Efficient Return" 0 1)) =
    @objective_report Sample.optimizer Sample.data ++ adjust_messages.
Proof.
  assert (Hb : 1 / 4 >= 1 / 8) by lra.
  assert (Hb' : 0 < 1) by lra.
  split; [exact Hb|].
  destruct (@C8_failure_reports_nothing Sample.optimizer Sample.data Sample.bmk_prices
              (Sample.widgets_of "Max Sharpe" (1 / 4) (1 / 8))) as (H1 & _ & _ & _).
  destruct (H1 Hb) as [Hmvo Hbl].
  split; [exact Hmvo|]. split.
  - rewrite (Hbl _ (sample_no_views (Sample.widgets_of "Max Sharpe" (1 / 4) (1 / 8))
                      eq_refl eq_refl eq_refl eq_refl)), Hmvo, <- app_assoc.
    reflexivity.
  - destruct (@C8_failure_reports_nothing Sample.optimizer Sample.data Sample.bmk_prices
                (Sample.widgets_of "Efficient Return" 0 1)) as (_ & H2 & _).
    apply (H2 Hb'). right. left. split; reflexivity.
Defined.

Lemma C10_witness :
  let s1 := mkState {[ "USA QUALITY"%string := [1 / 10; 2 / 10] ]} None None
              (Some [("USA QUALITY"%string, 1)]) (Some 1) (Some 1) (Some 1) [] in
  let s2 := mkState (<[ "Portfolio"%string := [5] ]>
                       {[ "USA QUALITY"%string := [1 / 10; 2 / 10] ]}) None None
              (Some [("USA QUALITY"%string, 1)]) (Some 1) (Some 1) (Some 1) [] in
  exists evs,
    fst (@mvo_metrics Sample.bmk_prices (Sample.widgets_of "Max Sharpe" 0 1) s1) =
    fst (@bl_metrics Sample.bmk_prices (Sample.widgets_of "Max Sharpe" 0 1) s2) /\
    display (snd (@mvo_metrics Sample.bmk_prices (Sample.widgets_of "Max Sharpe" 0 1) s1))
      = display s1 ++ evs /\
    display (snd (@bl_metrics Sample.bmk_prices (Sample.widgets_of "Max Sharpe" 0 1) s2))
      = display s2 ++ evs.
Proof.
  intros s1 s2.
  apply (@C10_metrics_blocks_agree Sample.bmk_prices (Sample.widgets_of "Max Sharpe" 0 1)
           s1 s2 eq_refl eq_refl eq_refl eq_refl).
  intros cw k Hcw Hk. injection Hcw as <-.
  apply list_elem_of_In in Hk. destruct Hk as [<-|[]].
  cbn [returns s1 s2 fst]. rewrite lookup_insert_ne by done. reflexivity.
Defined.

Lemma C2_witness :
  exists rets,
    @bl_rets (columns Sample.data) (expected_returns Sample.data)
      (@cov_matrix Sample.optimizer Sample.data) (viewdict (Sample.one_view (8 / 100)))
    = Some rets /\
    vget rets 0 = (vget (expected_returns Sample.data) 0 + 8 / 100) / 2.
Proof.
  destruct (@C2_posterior_blends_historical_prior Sample.optimizer Sample.data
              Sample.bmk_prices (Sample.one_view (8 / 100))) as (_ & _ & _ & Hone).
  apply (Hone "USA QUALITY"%string (8 / 100) O eq_refl eq_refl).
  cbv -[Rplus Rmult Rminus Rdiv Rinv Ropp IZR]. lra.
Defined.

(** * Further properties of the code *)

(** ** Drawdowns *)

Lemma drawdowns_cons c m cs ms :
  drawdowns (c :: cs) (m :: ms) = (c - m) / m :: drawdowns cs ms.
Proof. reflexivity. Qed.

Lemma scan_cons f acc x xs : scan f acc (x :: xs) = f acc x :: scan f (f acc x) xs.
Proof. reflexivity. Qed.

Lemma cumulative_returns_cons r rest :
  cumulative_returns (r :: rest) = (1 + r) :: scan Rmult (1 + r) (map (Rplus 1) rest).
Proof. reflexivity. Qed.

Lemma rolling_max_cons c cs : rolling_max (c :: cs) = c :: scan Rmax c cs.
Proof. reflexivity. Qed.

(** The drawdowns of the months after the first one, from the cumulative
    value [a] and the running peak [m] reached so far. *)
Lemma drawdowns_in_range a m xs :
  0 < a -> a <= m -> Forall (fun x => 0 < x) xs ->
  Forall (fun d => -1 < d <= 0)
    (drawdowns (scan Rmult a xs) (scan Rmax m (scan Rmult a xs))).
Proof.
  intros Ha Hm Hxs. revert a m Ha Hm.
  induction Hxs as [|x xs Hx Hxs IH]; intros a m Ha Hm; [constructor|].
  rewrite !scan_cons, drawdowns_cons.
  assert (Hy : 0 < a * x) by (apply Rmult_lt_0_compat; assumption).
  pose proof (Rmax_l m (a * x)) as Hl. pose proof (Rmax_r m (a * x)) as Hr.
  set (M := Rmax m (a * x)) in *.
  assert (HM : 0 < M) by lra.
  constructor.
  - replace ((a * x - M) / M) with (a * x / M - 1) by (field; lra). split.
    + assert (0 < a * x / M) by (apply Rdiv_lt_0_compat; assumption). lra.
    + assert (a * x / M <= 1); [|lra].
      apply (Rmult_le_reg_r M); [exact HM|]. unfold Rdiv.
      rewrite Rmult_assoc, Rinv_l by lra. lra.
  - apply IH; [exact Hy|exact Hr].
Qed.

Lemma smin_In xs : xs <> [] -> In (smin xs) xs.
Proof.
  destruct xs as [|x xs]; [congruence|]. intros _. cbn [smin].
  destruct (foldl_min_spec xs x) as [_ [E|Hin]]; [left; symmetry; exact E|right; exact Hin].
Qed.

Lemma gains_positive pr :
  Forall (fun r => -1 < r) pr -> Forall (fun x => 0 < x) (map (Rplus 1) pr).
Proof.
  induction 1 as [|r pr Hr _ IH]; cbn [map]; constructor; [lra|exact IH].
Qed.

Lemma drawdowns_of_returns_in_range pr :
  Forall (fun r => -1 < r) pr ->
  let cum := cumulative_returns pr in
  Forall (fun d => -1 < d <= 0) (drawdowns cum (rolling_max cum)).
Proof.
  intros Hall cum. subst cum. destruct Hall as [|r rest Hr Hrest]; [constructor|].
  rewrite cumulative_returns_cons, rolling_max_cons, drawdowns_cons. constructor.
  - replace ((1 + r - (1 + r)) / (1 + r)) with 0 by (unfold Rdiv; ring). lra.
  - apply drawdowns_in_range; [lra|lra|apply gains_positive; exact Hrest].
Qed.

Lemma drawdowns_nonempty pr :
  pr <> [] ->
  let cum := cumulative_returns pr in
  drawdowns cum (rolling_max cum) <> [].
Proof. destruct pr; [congruence|]. intros _. discriminate. Qed.

(** X1. While no month loses the whole portfolio, the reported maximum
    drawdown is never positive and never reaches -100%. *)
Theorem X1_max_drawdown_range pr :
  pr <> [] -> Forall (fun r => -1 < r) pr ->
  let cum := cumulative_returns pr in
  -1 < max_drawdown (drawdowns cum (rolling_max cum)) <= 0.
Proof.
  intros Hne Hall cum. unfold max_drawdown.
  pose proof (drawdowns_of_returns_in_range pr Hall) as Hrange.
  rewrite List.Forall_forall in Hrange. apply Hrange.
  apply smin_In. apply drawdowns_nonempty. exact Hne.
Qed.

Lemma X1_witness :
  let cum := cumulative_returns [1 / 10; -1 / 2; 1 / 10] in
  -1 < max_drawdown (drawdowns cum (rolling_max cum)) <= 0.
Proof.
  apply (X1_max_drawdown_range [1 / 10; -1 / 2; 1 / 10]); [discriminate|].
  repeat constructor; lra.
Defined.

(** Scaling the cumulative values and the peak by a positive factor leaves
    the drawdowns of the following months unchanged. *)
Lemma drawdowns_scale c a m xs :
  0 < c -> 0 < m ->
  drawdowns (scan Rmult (c * a) xs) (scan Rmax (c * m) (scan Rmult (c * a) xs)) =
  drawdowns (scan Rmult a xs) (scan Rmax m (scan Rmult a xs)).
Proof.
  intros Hc. revert a m. induction xs as [|x xs IH]; intros a m Hm; [reflexivity|].
  rewrite !scan_cons, !drawdowns_cons.
  replace (c * a * x) with (c * (a * x)) by ring.
  rewrite RmaxRmult by lra.
  pose proof (Rmax_l m (a * x)) as Hl.
  set (M := Rmax m (a * x)) in *. f_equal.
  - field. lra.
  - apply IH. lra.
Qed.

(** X2. The return of the first month has no effect on the drawdowns: the
    running peak starts at the cumulative value reached at the end of the
    first month, so a loss in that month is not a drawdown. *)
Theorem X2_drawdowns_ignore_first_month r0 rest :
  -1 < r0 ->
  let cum := cumulative_returns (r0 :: rest) in
  let cum0 := cumulative_returns (0 :: rest) in
  drawdowns cum (rolling_max cum) = drawdowns cum0 (rolling_max cum0) /\
  hd 0 (drawdowns cum (rolling_max cum)) = 0.
Proof.
  intros Hr cum cum0. subst cum cum0.
  rewrite !cumulative_returns_cons, !rolling_max_cons, !drawdowns_cons.
  assert (E0 : (1 + r0 - (1 + r0)) / (1 + r0) = 0) by (unfold Rdiv; ring).
  split; [|exact E0]. f_equal.
  - rewrite E0. unfold Rdiv. ring.
  - replace (1 + r0) with ((1 + r0) * 1) at 1 2 3 by ring.
    replace (1 + 0) with 1 by ring.
    apply drawdowns_scale; lra.
Qed.

Lemma X2_witness :
  let cum := cumulative_returns [-1 / 2; 1 / 10] in
  let cum0 := cumulative_returns [0; 1 / 10] in
  drawdowns cum (rolling_max cum) = drawdowns cum0 (rolling_max cum0) /\
  hd 0 (drawdowns cum (rolling_max cum)) = 0.
Proof. apply (X2_drawdowns_ignore_first_month (-1 / 2) [1 / 10]). lra. Defined.

(** The drawdowns after the first month all vanish exactly when no later
    month has a negative return. *)
Lemma drawdowns_vanish m xs :
  0 < m -> Forall (fun x => 0 < x) xs ->
  (Forall (fun d => d = 0) (drawdowns (scan Rmult m xs) (scan Rmax m (scan Rmult m xs)))
   <-> Forall (fun x => 1 <= x) xs).
Proof.
  intros Hm Hxs. revert m Hm.
  induction Hxs as [|x xs Hx Hxs IH]; intros m Hm.
  - split; constructor.
  - rewrite !scan_cons, drawdowns_cons.
    assert (Hy : 0 < m * x) by (apply Rmult_lt_0_compat; assumption).
    destruct (Rle_dec 1 x) as [H1|H1].
    + assert (E : Rmax m (m * x) = m * x) by (apply Rmax_right; nra).
      rewrite E. split.
      * intros Hall. apply Forall_cons in Hall. destruct Hall as [_ Hall].
        constructor; [exact H1|]. apply (IH (m * x) Hy). exact Hall.
      * intros Hall. apply Forall_cons in Hall. destruct Hall as [_ Hall].
        constructor; [unfold Rdiv; ring|]. apply (IH (m * x) Hy). exact Hall.
    + assert (E : Rmax m (m * x) = m) by (apply Rmax_left; nra).
      rewrite E. split.
      * intros Hall. apply Forall_cons in Hall. destruct Hall as [Hd _].
        exfalso. apply H1.
        assert (m * x - m = 0).
        { apply (Rmult_eq_reg_r (/ m)); [|apply Rinv_neq_0_compat; lra].
          rewrite Rmult_0_l. exact Hd. }
        nra.
      * intros Hall. apply Forall_cons in Hall. destruct Hall as [Hd _]. contradiction.
Qed.

Lemma smin_zero xs :
  xs <> [] -> Forall (fun d => -1 < d <= 0) xs ->
  (smin xs = 0 <-> Forall (fun d => d = 0) xs).
Proof.
  intros Hne Hall. split.
  - intros E. rewrite List.Forall_forall in *. intros d Hd.
    destruct (smin_spec xs Hne) as [Hle _].
    destruct (In_nth _ _ 0 Hd) as (t & Ht & Ed).
    specialize (Hle t Ht). cbv beta in Hle. rewrite Ed, E in Hle.
    specialize (Hall d Hd). lra.
  - intros Hz. rewrite List.Forall_forall in Hz. apply Hz. apply smin_In. exact Hne.
Qed.

(** X3. The reported maximum drawdown is zero exactly when no month after the
    first has a negative portfolio return. *)
Theorem X3_max_drawdown_zero_iff r0 rest :
  Forall (fun r => -1 < r) (r0 :: rest) ->
  let cum := cumulative_returns (r0 :: rest) in
  max_drawdown (drawdowns cum (rolling_max cum)) = 0 <-> Forall (fun r => 0 <= r) rest.
Proof.
  intros Hall cum. unfold max_drawdown.
  rewrite smin_zero;
    [|apply drawdowns_nonempty; discriminate|apply drawdowns_of_returns_in_range; exact Hall].
  subst cum. apply Forall_cons in Hall. destruct Hall as [Hr Hrest].
  rewrite cumulative_returns_cons, rolling_max_cons, drawdowns_cons.
  rewrite Forall_cons, drawdowns_vanish by (try apply gains_positive; try lra; exact Hrest).
  split.
  - intros [_ Hge]. rewrite List.Forall_forall in *. intros r Hin.
    assert (1 <= 1 + r); [|lra]. apply Hge. apply in_map. exact Hin.
  - intros Hge. split; [unfold Rdiv; ring|].
    rewrite List.Forall_forall in *. intros x Hin.
    apply in_map_iff in Hin. destruct Hin as (r & <- & Hin).
    specialize (Hge r Hin). lra.
Qed.

Lemma X3_witness :
  let cum := cumulative_returns [-1 / 2; 1 / 10] in
  max_drawdown (drawdowns cum (rolling_max cum)) = 0 <-> Forall (fun r => 0 <= r) [1 / 10].
Proof.
  apply (X3_max_drawdown_zero_iff (-1 / 2) [1 / 10]). repeat constructor; lra.
Defined.

(** ** Portfolio returns as a weighted average *)

Lemma weighted_sum_between lo hi xs vs :
  Forall (fun x => lo <= x <= hi) xs -> Forall (fun v => 0 <= v) vs ->
  length vs = length xs ->
  lo * Rsum vs <= Rsum (zip_with_R Rmult xs vs) <= hi * Rsum vs.
Proof.
  intros Hxs. revert vs. induction Hxs as [|x xs Hx Hxs IH]; intros vs Hvs Hlen.
  - destruct vs; [|discriminate]. cbn. lra.
  - destruct Hvs as [|v vs Hv Hvs]; [discriminate|].
    cbn [zip_with_R]. rewrite !Rsum_cons.
    specialize (IH vs Hvs ltac:(cbn in Hlen; lia)). nra.
Qed.

(** X4. A long-only, fully invested portfolio earns in every month a return
    between the lowest and the highest asset return of that month. *)
Theorem X4_portfolio_return_between cols values lo hi t :
  length values = length cols ->
  Forall (fun v => 0 <= v) values -> Rsum values = 1 ->
  (t < length (hd [] cols))%nat ->
  Forall (fun c => lo <= vget c t <= hi) cols ->
  lo <= nth t (portfolio_returns cols values) 0 <= hi.
Proof.
  intros Hlen Hpos Hsum Ht Hcols. unfold portfolio_returns, frame_dot.
  rewrite nth_mk_vector by exact Ht.
  pose proof (weighted_sum_between lo hi (map (fun c => vget c t) cols) values) as Hb.
  rewrite Hsum, !Rmult_1_r in Hb. apply Hb.
  - rewrite List.Forall_forall in *. intros x Hin.
    apply in_map_iff in Hin. destruct Hin as (c & <- & Hin). apply Hcols. exact Hin.
  - exact Hpos.
  - rewrite length_map. exact Hlen.
Qed.

Lemma X4_witness :
  1 / 100 <= nth 0 (portfolio_returns [[1 / 100; 2 / 100]; [3 / 100; 0]] [1 / 4; 3 / 4]) 0
    <= 3 / 100.
Proof.
  apply (X4_portfolio_return_between [[1 / 100; 2 / 100]; [3 / 100; 0]] [1 / 4; 3 / 4]
           (1 / 100) (3 / 100) 0).
  - reflexivity.
  - repeat constructor; lra.
  - cbn. lra.
  - cbn. lia.
  - repeat constructor; cbn; lra.
Defined.

Lemma zip_with_R_comm xs ys : zip_with_R Rmult xs ys = zip_with_R Rmult ys xs.
Proof.
  revert ys. induction xs as [|x xs IH]; intros [|y ys]; try reflexivity.
  cbn [zip_with_R]. rewrite IH, Rmult_comm. reflexivity.
Qed.

(** X5. For non-negative weights that sum to 1, the expected annual return
    reported for the portfolio lies between the lowest and the highest
    expected return of the assets; the reported volatility is never
    negative and, when it is positive, the Sharpe ratio is positive exactly
    when the expected return exceeds the risk-free rate. *)
Theorem X5_portfolio_performance_bounds ws mu cov r lo hi :
  length ws = length mu ->
  Forall (fun v => 0 <= v) ws -> Rsum ws = 1 ->
  Forall (fun m => lo <= m <= hi) mu ->
  let perf := PyPfOpt.portfolio_performance ws mu cov r in
  lo <= fst (fst perf) <= hi /\
  0 <= snd (fst perf) /\
  (0 < snd (fst perf) -> (0 < snd perf <-> r < fst (fst perf))).
Proof.
  intros Hlen Hpos Hsum Hmu perf. unfold perf, PyPfOpt.portfolio_performance.
  cbn [fst snd]. split; [|split].
  - unfold dot. rewrite zip_with_R_comm.
    pose proof (weighted_sum_between lo hi mu ws Hmu Hpos Hlen) as Hb.
    rewrite Hsum, !Rmult_1_r in Hb. exact Hb.
  - apply sqrt_pos.
  - intros Hvol. set (sigma := sqrt _) in *. set (er := dot ws mu). split.
    + intros Hsr. apply (Rmult_lt_compat_r sigma) in Hsr; [|exact Hvol].
      unfold Rdiv in Hsr. rewrite Rmult_0_l, Rmult_assoc, Rinv_l in Hsr by lra. lra.
    + intros Her. apply Rdiv_lt_0_compat; lra.
Qed.

Lemma X5_witness :
  let perf := PyPfOpt.portfolio_performance [1 / 4; 3 / 4] [8 / 100; 12 / 100]
                Sample.cov (3 / 100) in
  8 / 100 <= fst (fst perf) <= 12 / 100 /\ 0 <= snd (fst perf).
Proof.
  destruct (X5_portfolio_performance_bounds [1 / 4; 3 / 4] [8 / 100; 12 / 100] Sample.cov
              (3 / 100) (8 / 100) (12 / 100)) as (He & Hv & _).
  - reflexivity.
  - repeat constructor; lra.
  - cbn. lra.
  - repeat constructor; lra.
  - split; [exact He|exact Hv].
Defined.

(** ** Tracking error *)

Lemma Rsum_squares_zero (g : R -> R) xs :
  Rsum (map (fun x => g x * g x) xs) = 0 <-> Forall (fun x => g x = 0) xs.
Proof.
  assert (Hnn : forall l, 0 <= Rsum (map (fun x => g x * g x) l)).
  { induction l as [|x l IH]; cbn [map]; [cbn; lra|]. rewrite Rsum_cons. nra. }
  induction xs as [|x xs IH]; cbn [map].
  - split; [constructor|reflexivity].
  - rewrite Rsum_cons, Forall_cons. specialize (Hnn xs). split.
    + intros E. assert (g x * g x = 0) by nra. split; [nra|]. apply IH. nra.
    + intros [E Hxs]. apply IH in Hxs. rewrite E, Hxs. ring.
Qed.

Lemma Rsum_squares_nonneg (g : R -> R) xs : 0 <= Rsum (map (fun x => g x * g x) xs).
Proof.
  induction xs as [|x xs IH]; cbn [map]; [cbn; lra|]. rewrite Rsum_cons. nra.
Qed.

Lemma INR_length_pos {A : Type} (xs : list A) : xs <> [] -> 0 < INR (length xs).
Proof. intros Hne. apply lt_0_INR. destruct xs; [congruence|cbn; lia]. Qed.

Lemma np_var_zero xs :
  xs <> [] -> (np_var xs = 0 <-> Forall (fun x => x = mean xs) xs).
Proof.
  intros Hne. pose proof (INR_length_pos xs Hne) as Hn. unfold np_var.
  rewrite <- (Forall_iff (fun x => x - mean xs = 0)) by (intros x; lra).
  rewrite <- (Rsum_squares_zero (fun x => x - mean xs)). split.
  - intros E. apply (Rmult_eq_reg_r (/ INR (length xs))).
    + rewrite Rmult_0_l. exact E.
    + apply Rinv_neq_0_compat. lra.
  - intros ->. unfold Rdiv. ring.
Qed.

Lemma np_var_nonneg xs : xs <> [] -> 0 <= np_var xs.
Proof.
  intros Hne. pose proof (INR_length_pos xs Hne) as Hn. unfold np_var.
  apply Rmult_le_pos; [apply Rsum_squares_nonneg|].
  left. apply Rinv_0_lt_compat. exact Hn.
Qed.

Lemma Rsum_constant c xs : Forall (fun x => x = c) xs -> Rsum xs = INR (length xs) * c.
Proof.
  induction 1 as [|x xs -> _ IH]; [cbn; lra|].
  rewrite Rsum_cons, IH. cbn [length]. rewrite S_INR. ring.
Qed.

Lemma constant_iff_mean xs :
  xs <> [] -> (Forall (fun x => x = mean xs) xs <-> exists c, Forall (fun x => x = c) xs).
Proof.
  intros Hne. split; [intros Hm; exists (mean xs); exact Hm|].
  intros [c Hc]. pose proof (INR_length_pos xs Hne) as Hn.
  assert (E : mean xs = c).
  { unfold mean. rewrite (Rsum_constant c xs Hc). field. lra. }
  rewrite E. exact Hc.
Qed.

(** X6. The reported tracking error is zero exactly when the portfolio's
    return differs from the benchmark's by the same amount in every month
    (the information ratio then divides by zero). *)
Theorem X6_active_risk_zero_iff p b :
  p <> [] -> length p = length b ->
  active_risk (active_returns p b) = 0 <->
  exists c, forall t, (t < length p)%nat -> nth t p 0 - nth t b 0 = c.
Proof.
  intros Hne Hlen. set (a := active_returns p b).
  assert (Hla : length a = length p).
  { unfold a, active_returns, sub. rewrite length_zip_with_R. lia. }
  assert (Ha : a <> []) by (intros E; rewrite E in Hla; destruct p; [congruence|discriminate]).
  assert (Hnth : forall t, (t < length p)%nat -> nth t a 0 = nth t p 0 - nth t b 0).
  { intros t Ht. unfold a, active_returns, sub. apply nth_zip_with_R; lia. }
  assert (Hs12 : 0 < sqrt 12) by (apply sqrt_lt_R0; lra).
  unfold active_risk, np_std. split.
  - intros E. assert (Hs : sqrt (np_var a) = 0) by nra.
    apply sqrt_eq_0 in Hs; [|apply np_var_nonneg; exact Ha].
    apply np_var_zero in Hs; [|exact Ha].
    exists (mean a). intros t Ht. rewrite <- Hnth by exact Ht.
    rewrite List.Forall_forall in Hs. apply Hs. apply nth_In. lia.
  - intros [c Hc].
    assert (Hv : np_var a = 0).
    { apply np_var_zero; [exact Ha|]. apply constant_iff_mean; [exact Ha|].
      exists c. rewrite List.Forall_forall. intros x Hin.
      destruct (In_nth _ _ 0 Hin) as (t & Ht & <-).
      rewrite Hnth by lia. apply Hc. lia. }
    rewrite Hv, sqrt_0. ring.
Qed.

Lemma X6_witness :
  active_risk (active_returns [2 / 100; 4 / 100] [1 / 100; 3 / 100]) = 0 <->
  exists c, forall t, (t < 2)%nat ->
    nth t [2 / 100; 4 / 100] 0 - nth t [1 / 100; 3 / 100] 0 = c.
Proof.
  apply (X6_active_risk_zero_iff [2 / 100; 4 / 100] [1 / 100; 3 / 100]);
    [discriminate|reflexivity].
Defined.

(** ** Returns and cumulative returns *)

Lemma scan_price_relatives p0 prev rest :
  p0 <> 0 -> prev <> 0 -> Forall (fun p => p <> 0) rest ->
  scan Rmult (prev / p0)
    (map (Rplus 1) (zip_with_R (fun prev cur => cur / prev - 1) (prev :: rest) rest)) =
  map (fun p => p / p0) rest.
Proof.
  intros Hp0 Hprev Hrest. revert prev Hprev.
  induction Hrest as [|p1 rest Hp1 Hrest IH]; intros prev Hprev; [reflexivity|].
  cbn [zip_with_R map]. rewrite scan_cons.
  replace (prev / p0 * (1 + (p1 / prev - 1))) with (p1 / p0) by (field; split; assumption).
  f_equal. apply IH. exact Hp1.
Qed.

(** X7. Compounding the monthly returns of a price series gives back the
    prices relative to the first one: [cumprod (1 + pct_change p)] is
    [p_t / p_0]. *)
Theorem X7_cumulative_returns_of_price_changes p0 rest :
  p0 <> 0 -> Forall (fun p => p <> 0) rest ->
  cumulative_returns (pct_change (p0 :: rest)) = map (fun p => p / p0) rest.
Proof.
  intros Hp0 Hrest. unfold pct_change. cbn [tl].
  destruct Hrest as [|p1 rest Hp1 Hrest]; [reflexivity|].
  cbn [zip_with_R]. rewrite cumulative_returns_cons. cbn [map].
  replace (1 + (p1 / p0 - 1)) with (p1 / p0) by (field; exact Hp0).
  f_equal. apply scan_price_relatives; assumption.
Qed.

Lemma X7_witness :
  cumulative_returns (pct_change [100; 110; 121]) = map (fun p => p / 100) [110; 121].
Proof.
  apply (X7_cumulative_returns_of_price_changes 100 [110; 121]); [lra|].
  repeat constructor; lra.
Defined.

Lemma pct_change_rebased c ps :
  c <> 0 -> Forall (fun p => p <> 0) ps ->
  pct_change (map (Rmult c) ps) = pct_change ps.
Proof.
  intros Hc Hps. unfold pct_change.
  induction Hps as [|p ps Hp Hps IH]; [reflexivity|].
  destruct Hps as [|q ps Hq Hps]; [reflexivity|].
  cbn [map tl zip_with_R] in *. f_equal; [field; split; assumption|exact IH].
Qed.

(** X8. Monthly returns, and with them the expected return of an asset, do
    not depend on the unit in which its prices are quoted. *)
Theorem X8_returns_ignore_the_price_unit c ps compounding frequency :
  c <> 0 -> Forall (fun p => p <> 0) ps ->
  pct_change (map (Rmult c) ps) = pct_change ps /\
  PyPfOpt.mean_historical_return_1 compounding frequency (map (Rmult c) ps) =
  PyPfOpt.mean_historical_return_1 compounding frequency ps.
Proof.
  intros Hc Hps. pose proof (pct_change_rebased c ps Hc Hps) as E.
  split; [exact E|]. unfold PyPfOpt.mean_historical_return_1. rewrite E. reflexivity.
Qed.

Lemma X8_witness :
  pct_change (map (Rmult 10) [100; 110; 121]) = pct_change [100; 110; 121].
Proof.
  apply (X8_returns_ignore_the_price_unit 10 [100; 110; 121] true 12); [lra|].
  repeat constructor; lra.
Defined.

(** ** Beta and alpha of a portfolio that replicates the benchmark *)

Lemma Rsum_zip_self (g : R -> R) xs :
  Rsum (zip_with_R Rmult (map g xs) (map g xs)) = Rsum (map (fun x => g x * g x) xs).
Proof.
  induction xs as [|x xs IH]; [reflexivity|].
  cbn [map zip_with_R]. rewrite !Rsum_cons, IH. reflexivity.
Qed.

(** X9. A portfolio whose monthly returns equal the benchmark's is reported
    with a beta of [T / (T - 1)] over [T] months, not 1, and with the alpha
    that this beta implies. *)
Theorem X9_beta_of_replicating_portfolio B r :
  (2 <= length B)%nat -> benchmark_variance B <> 0 ->
  let T := INR (length B) in
  let b := beta (covariance B B) (benchmark_variance B) in
  b = T / (T - 1) /\
  alpha (portfolio_return B) r b (benchmark_return B) = - (benchmark_return B - r) / (T - 1).
Proof.
  intros HT Hvar T b.
  assert (Hn : 2 <= T) by (apply (le_INR 2); exact HT).
  assert (Hb : b = T / (T - 1)).
  { unfold b, beta, covariance, benchmark_variance, np_cov01, np_var in *.
    rewrite Rsum_zip_self. fold T in Hvar |- *.
    set (S := Rsum _) in *.
    assert (S <> 0) by (intros E; apply Hvar; rewrite E; unfold Rdiv; ring).
    field. repeat split; lra. }
  split; [exact Hb|]. rewrite Hb. unfold alpha, portfolio_return, benchmark_return.
  field. lra.
Qed.

Lemma X9_witness :
  let b := beta (covariance [1 / 100; 3 / 100] [1 / 100; 3 / 100])
                (benchmark_variance [1 / 100; 3 / 100]) in
  b = INR 2 / (INR 2 - 1) /\
  alpha (portfolio_return [1 / 100; 3 / 100]) (3 / 100) b
        (benchmark_return [1 / 100; 3 / 100]) =
  - (benchmark_return [1 / 100; 3 / 100] - 3 / 100) / (INR 2 - 1).
Proof.
  apply (X9_beta_of_replicating_portfolio [1 / 100; 3 / 100] (3 / 100)); [cbn; lia|].
  cbv [benchmark_variance np_var mean Rsum map foldr length INR]. lra.
Defined.

(** ** The Sortino numerator *)

Lemma Rsum_shift c xs :
  Rsum (map (fun x => x - c) xs) = Rsum xs - INR (length xs) * c.
Proof.
  induction xs as [|x xs IH]; [cbn; lra|].
  cbn [map length]. rewrite !Rsum_cons, IH, S_INR. ring.
Qed.

Lemma downside_returns_nil c P :
  downside_returns (excess_returns P c) = [] <-> Forall (fun x => c <= x) P.
Proof.
  unfold downside_returns, excess_returns, series.
  induction P as [|x P IH]; cbn [map]; [split; constructor|].
  rewrite filter_cons, Forall_cons. destruct (decide (x - c < 0)) as [Hneg|Hpos].
  - split; [discriminate|]. intros [Hx _]. lra.
  - rewrite IH. split; [intros HP; split; [lra|exact HP]|intros [_ HP]; exact HP].
Qed.

(** X10. The numerator of the Sortino ratio is the annualised mean portfolio
    return less the annual risk-free rate, whatever the downside risk; the
    downside risk is the root mean square of no month at all exactly when no
    monthly return is below the monthly risk-free rate. *)
Theorem X10_sortino_numerator P r :
  P <> [] ->
  let e := excess_returns P (mrfr r) in
  (forall d, sortino_ratio e d = (portfolio_return P - r) / d) /\
  (downside_returns e = [] <-> Forall (fun x => r / 12 <= x) P).
Proof.
  intros Hne e. split; [|apply downside_returns_nil].
  intros d. pose proof (INR_length_pos P Hne) as Hn.
  unfold e, sortino_ratio, excess_returns, mrfr, portfolio_return, mean.
  rewrite length_map, Rsum_shift. f_equal. field. lra.
Qed.

Lemma X10_witness :
  sortino_ratio (excess_returns [1 / 100; 3 / 100] (mrfr (3 / 100))) 2 =
  (portfolio_return [1 / 100; 3 / 100] - 3 / 100) / 2.
Proof.
  apply (X10_sortino_numerator [1 / 100; 3 / 100] (3 / 100)). discriminate.
Defined.

(** ** Linearity of the portfolio return in the weights *)

Lemma big_sum_plus f g n :
  big_sum (fun t => f t + g t) n = big_sum f n + big_sum g n.
Proof.
  induction n as [|n IH]; [unfold big_sum; cbn; lra|].
  rewrite !big_sum_last, IH. ring.
Qed.

Lemma big_sum_weighted cols values T :
  big_sum (fun t => Rsum (zip_with_R Rmult (map (fun c => vget c t) cols) values)) T =
  Rsum (zip_with_R Rmult (map (fun c => big_sum (vget c) T) cols) values).
Proof.
  revert values. induction cols as [|c cols IH]; intros values.
  - cbn [map zip_with_R]. apply big_sum_zero.
  - destruct values as [|v values]; [cbn [map zip_with_R]; apply big_sum_zero|].
    cbn [map zip_with_R]. rewrite Rsum_cons, <- IH.
    rewrite (Rmult_comm _ v), big_sum_scale, <- big_sum_plus.
    apply big_sum_ext. intros t _. rewrite Rsum_cons. ring.
Qed.

Lemma Rsum_zip_scale k xs vs :
  Rsum (zip_with_R Rmult (map (fun x => x * k) xs) vs) = Rsum (zip_with_R Rmult xs vs) * k.
Proof.
  revert vs. induction xs as [|x xs IH]; intros [|v vs]; cbn [map zip_with_R];
    rewrite ?Rsum_cons, ?IH; cbn; ring.
Qed.

(** X11. The annualised mean return of the portfolio is the weighted sum of
    the annualised mean returns of the assets. *)
Theorem X11_portfolio_return_is_weighted_sum cols values :
  Forall (fun c => length c = length (hd [] cols)) cols ->
  portfolio_return (portfolio_returns cols values) =
  dot (map (fun c => mean c * 12) cols) values.
Proof.
  intros Hlen. set (T := length (hd [] cols)) in *.
  unfold portfolio_return, portfolio_returns, mean, dot.
  rewrite length_frame_dot. fold T. unfold frame_dot. fold T.
  change (Rsum (mk_vector T ?f)) with (big_sum f T).
  rewrite big_sum_weighted.
  replace (map (fun c => Rsum c / INR (length c) * 12) cols)
    with (map (fun x => x * (/ INR T * 12)) (map (fun c => big_sum (vget c) T) cols)).
  - rewrite Rsum_zip_scale. unfold Rdiv. ring.
  - rewrite map_map. apply map_ext_in. intros c Hc.
    rewrite List.Forall_forall in Hlen. rewrite (Hlen c Hc).
    rewrite Rsum_nth, (Hlen c Hc). unfold vget, Rdiv. ring.
Qed.

Lemma X11_witness :
  portfolio_return (portfolio_returns [[1 / 100; 2 / 100]; [3 / 100; 0]] [1 / 4; 3 / 4]) =
  dot (map (fun c => mean c * 12) [[1 / 100; 2 / 100]; [3 / 100; 0]]) [1 / 4; 3 / 4].
Proof.
  apply (X11_portfolio_return_is_weighted_sum [[1 / 100; 2 / 100]; [3 / 100; 0]] [1 / 4; 3 / 4]).
  repeat constructor.
Defined.

(** X12. A portfolio fully invested in one asset earns that asset's monthly
    returns. *)
Theorem X12_fully_invested_in_one_asset cols i :
  (i < length cols)%nat ->
  Forall (fun c => length c = length (hd [] cols)) cols ->
  portfolio_returns cols (mk_vector (length cols) (fun j => if (j =? i)%nat then 1 else 0)) =
  nth i cols [].
Proof.
  intros Hi Hlen. rewrite List.Forall_forall in Hlen.
  assert (Hli : length (nth i cols []) = length (hd [] cols))
    by (apply Hlen; apply nth_In; exact Hi).
  apply (nth_ext _ _ 0 0).
  - unfold portfolio_returns. rewrite length_frame_dot. symmetry. exact Hli.
  - unfold portfolio_returns. rewrite length_frame_dot. intros t Ht.
    rewrite nth_frame_dot by exact Ht. unfold Spec.portfolio_at.
    rewrite (big_sum_ext _ (fun j => mget cols j t * (if (j =? i)%nat then 1 else 0))).
    + exact (big_sum_pick (fun j => mget cols j t) i _ Hi).
    + intros j Hj. unfold vget. rewrite nth_mk_vector by exact Hj. reflexivity.
Qed.

Lemma X12_witness :
  portfolio_returns [[1 / 100; 2 / 100]; [3 / 100; 0]]
    (mk_vector 2 (fun j => if (j =? 1)%nat then 1 else 0)) = [3 / 100; 0].
Proof.
  apply (X12_fully_invested_in_one_asset [[1 / 100; 2 / 100]; [3 / 100; 0]] 1);
    [cbn; lia|repeat constructor].
Defined.

(** ** The sign of the expected return *)

Lemma Rpower_gt_1 x y : 0 < x -> 0 < y -> (1 < Rpower x y <-> 1 < x).
Proof.
  intros Hx Hy. unfold Rpower. split.
  - intros E. rewrite <- exp_0 in E. apply exp_lt_inv in E.
    assert (Hl : 0 < ln x).
    { destruct (Rlt_le_dec 0 (ln x)) as [Hl|Hl]; [exact Hl|exfalso; nra]. }
    rewrite <- ln_1 in Hl. apply ln_lt_inv in Hl; lra.
  - intros E. rewrite <- exp_0. apply exp_increasing.
    assert (Hl : 0 < ln x) by (rewrite <- ln_1; apply ln_increasing; lra).
    nra.
Qed.

Lemma last_positive ps d : Forall (fun p => 0 < p) ps -> 0 < d -> 0 < List.last ps d.
Proof.
  intros Hps. revert d. induction Hps as [|p ps Hp Hps IH]; intros d Hd; [exact Hd|].
  rewrite list_last_cons. apply IH. exact Hp.
Qed.

(** X13. The expected return of an asset is positive exactly when its last
    price is above its first price. *)
Theorem X13_expected_return_sign ps :
  (2 <= length ps)%nat -> Forall (fun p => 0 < p) ps ->
  0 < PyPfOpt.mean_historical_return_1 true 12 ps <-> hd 0 ps < List.last ps 0.
Proof.
  intros Hlen Hpos.
  rewrite mean_historical_return_compounds;
    [|destruct ps; [cbn in Hlen; lia|discriminate]
     |eapply Forall_impl; [exact Hpos|cbv beta; intros; lra]].
  unfold Spec.compound_annual_return.
  destruct ps as [|p0 rest]; [cbn in Hlen; lia|].
  apply Forall_cons in Hpos. destruct Hpos as [Hp0 Hrest].
  cbn [hd]. rewrite list_last_cons.
  pose proof (last_positive rest p0 Hrest Hp0) as Hl.
  assert (HT : 0 < 12 / INR (length (p0 :: rest) - 1)).
  { apply Rdiv_lt_0_compat; [lra|]. apply lt_0_INR. cbn [length] in *. lia. }
  assert (Hq : 0 < List.last rest p0 / p0) by (apply Rdiv_lt_0_compat; assumption).
  pose proof (Rpower_gt_1 _ _ Hq HT) as Hpow.
  split.
  - intros E. assert (1 < List.last rest p0 / p0) by (apply Hpow; lra).
    apply (Rmult_lt_reg_r (/ p0)); [apply Rinv_0_lt_compat; exact Hp0|].
    rewrite Rinv_r by lra. exact H.
  - intros E. assert (1 < List.last rest p0 / p0).
    { apply (Rmult_lt_reg_r p0); [exact Hp0|]. unfold Rdiv.
      rewrite Rmult_assoc, Rinv_l by lra. lra. }
    apply Hpow in H. lra.
Qed.

Lemma X13_witness :
  0 < PyPfOpt.mean_historical_return_1 true 12 [100; 110; 121] <->
  hd 0 [100; 110; 121] < List.last [100; 110; 121] 0.
Proof.
  apply (X13_expected_return_sign [100; 110; 121]); [cbn; lia|]. repeat constructor; lra.
Defined.

(** ** The Black-Litterman posterior of a single view *)

(** X14. With a single absolute view [q] on asset [i], the posterior return
    of every asset [j] is its prior plus half of the view's surprise
    [q - pi_i], scaled by [cov_ji / cov_ii]; the result does not depend on
    [tau], and a view equal to the prior changes nothing. *)
Theorem X14_single_view_posterior tickers cov t q pi i :
  PyPfOpt.ticker_index tickers t = Some i ->
  length pi = length tickers ->
  mget cov i i <> 0 ->
  exists post,
    PyPfOpt.bl_returns tickers cov [(t, q)] pi = Some post /\
    (forall j, (j < length tickers)%nat ->
       vget post j = vget pi j + mget cov j i / (2 * mget cov i i) * (q - vget pi i)) /\
    (q = vget pi i -> post = pi).
Proof.
  intros Hidx Hlen Hcov. pose proof (ticker_index_lt _ _ _ Hidx) as Hi.
  unfold PyPfOpt.bl_returns.
  cbn [mapM mbind option_bind mret option_ret fst snd map length].
  rewrite Hidx. cbn [mbind option_bind mret option_ret].
  rewrite Hlen, Nat.eqb_refl. cbn [negb].
  eexists. split; [reflexivity|].
  set (n := length tickers) in *.
  set (P := mk_matrix 1 n (fun i0 j => if (j =? nth i0 [i] O)%nat then 1 else 0)).
  set (tsp := mk_matrix n 1 _).
  assert (HP : forall l, (l < n)%nat -> mget P 0 l = if (l =? i)%nat then 1 else 0).
  { intros l Hl. unfold P. rewrite mget_mk_matrix by lia. reflexivity. }
  assert (Htsp : forall a, (a < n)%nat -> mget tsp a 0 = PyPfOpt.tau * mget cov a i).
  { intros a Ha. unfold tsp. rewrite mget_mk_matrix by lia. f_equal.
    rewrite <- (big_sum_pick (fun l => mget cov a l) i n Hi).
    apply big_sum_ext. intros l Hl. rewrite HP by exact Hl. reflexivity. }
  assert (Hpick : forall g : nat -> R,
             big_sum (fun l => mget P 0 l * g l) n = g i).
  { intros g. rewrite <- (big_sum_pick g i n Hi).
    apply big_sum_ext. intros l Hl. rewrite HP by exact Hl. ring. }
  assert (Hpost : forall j, (j < n)%nat ->
            vget (mk_vector n (fun i0 => vget pi i0 +
                    big_sum (fun j0 => mget tsp i0 j0 *
                      vget (solve 1
                        (mk_matrix 1 1 (fun i1 j1 =>
                           mget (mk_matrix 1 1 (fun i2 j2 =>
                                   big_sum (fun l => mget P i2 l * mget tsp l j2) n)) i1 j1 +
                           mget (mk_matrix 1 1 (fun i2 j2 =>
                                   if (i2 =? j2)%nat
                                   then mget (mk_matrix 1 1 (fun i3 j3 =>
                                           big_sum (fun l => mget P i3 l * mget tsp l j3) n))
                                          i2 i2
                                   else 0)) i1 j1))
                        (mk_vector 1 (fun i1 => vget [q] i1 -
                           big_sum (fun l => mget P i1 l * vget pi l) n))) j0) 1)) j
            = vget pi j + mget cov j i / (2 * mget cov i i) * (q - vget pi i)).
  { intros j Hj. unfold vget at 1. rewrite nth_mk_vector by exact Hj.
    rewrite big_sum_1, !mk_matrix_1_1, !mk_vector_1. unfold mget at 2 3 4. cbn [nth].
    rewrite !Nat.eqb_refl, solve_1. unfold vget at 2 3. cbn [nth].
    rewrite !Hpick, !Htsp by assumption.
    change (nth 0 (nth i tsp []) 0) with (mget tsp i 0). rewrite Htsp by exact Hi.
    unfold PyPfOpt.tau, vget, mget in *. cbn [nth]. field. lra. }
  split; [exact Hpost|].
  intros Hq. etransitivity; [|apply (mk_vector_nth pi)]. rewrite Hlen. fold n.
  apply (nth_ext _ _ 0 0); [rewrite !length_mk_vector; reflexivity|].
  rewrite length_mk_vector. intros j Hj.
  change (nth j ?l 0) with (vget l j). rewrite (Hpost j Hj).
  rewrite Hq. unfold vget. rewrite nth_mk_vector by exact Hj. ring.
Qed.

Lemma X14_witness :
  exists post,
    PyPfOpt.bl_returns ["USA QUALITY"; "USA LARGE VALUE"]%string Sample.cov
      [("USA QUALITY"%string, 8 / 100)] [10 / 100; 6 / 100] = Some post /\
    vget post 1 = 6 / 100 + (1 / 100) / (2 * (4 / 100)) * (8 / 100 - 10 / 100).
Proof.
  destruct (X14_single_view_posterior ["USA QUALITY"; "USA LARGE VALUE"]%string Sample.cov
              "USA QUALITY"%string (8 / 100) [10 / 100; 6 / 100] O eq_refl eq_refl)
    as (post & Hp & Hv & _).
  - cbv [mget nth Sample.cov]. lra.
  - exists post. split; [exact Hp|]. apply (Hv 1%nat). cbn. lia.
Defined.

(** ** A frontier plot that raises *)

Section Outcome.
Context `{Optimizer}.

Lemma mvo_tab_plot_failed data bmk w s ws :
  lower_bound w < upper_bound w ->
  solves_selected_problem (mvo_frontier data w) w ws ->
  plot_efficient_frontier (mvo_frontier data w) = false ->
  mvo_tab data bmk w s =
  (inr tt, shown adjust_messages (optimized (mvo_frontier data w) (columns data) w ws s)).
Proof.
  intros Hb Hs Hp. unfold mvo_tab. erewrite try_except_err; cycle 1.
  - erewrite run_bind_ok by (apply mvo_optimization_solved; eassumption).
    apply run_bind_err. unfold mvo_charts. unfold mvo_frontier in Hp.
    apply run_bind_err. rewrite Hp. reflexivity.
  - apply except_handler_run.
Qed.

(** X17. When the optimisation succeeds but the frontier plot raises, the
    MVO tab shows the two adjust-parameters lines and none of the results,
    although the weights and the performance figures have been computed and
    stay bound. *)
Theorem X17_plot_failure_hides_the_result data bmk w ws :
  lower_bound w < upper_bound w ->
  solves_selected_problem (mvo_frontier data w) w ws ->
  plot_efficient_frontier (mvo_frontier data w) = false ->
  display (after_mvo data bmk w) = objective_report data ++ adjust_messages /\
  weights (after_mvo data bmk w) = Some ws /\
  cleaned_weights (after_mvo data bmk w) = Some (zip (columns data) (clean_weights ws)) /\
  expected_return (after_mvo data bmk w) = Some (dot ws (expected_returns data)).
Proof.
  intros Hb Hs Hp. unfold after_mvo.
  rewrite (mvo_tab_plot_failed _ _ _ _ _ Hb Hs Hp), before_mvo_eq.
  repeat split.
Qed.

(** ** Results are shown only by a complete optimisation *)

Lemma objective_report_holds_no_result data :
  forallb (fun e => negb (is_result e)) (objective_report data ++ bounds_error :: adjust_messages)
  = true.
Proof. reflexivity. Qed.

Lemma selected_problem_settled ef w :
  In (optimization_method w) method_options ->
  (exists ws, solves_selected_problem ef w ws) \/ selected_optimization_fails ef w.
Proof.
  unfold solves_selected_problem, selected_optimization_fails.
  intros [Hm|[Hm|[Hm|[]]]]; symmetry in Hm.
  - destruct (efficient_return ef (target_return w)) as [ws|] eqn:E.
    + left. exists ws. right. left. split; auto.
    + right. right. left. split; auto.
  - destruct (max_sharpe ef (rfr w)) as [ws|] eqn:E.
    + left. exists ws. left. split; auto.
    + right. left. split; auto.
  - destruct (min_volatility ef) as [ws|] eqn:E.
    + left. exists ws. right. right. split; auto.
    + right. right. right. split; auto.
Qed.

(** X18. The MVO tab shows weights or a metric only if the bounds are valid,
    the selected problem was solved and the frontier plot was drawn. *)
Theorem X18_results_shown_only_when_solved data bmk w e :
  In (optimization_method w) method_options ->
  is_result e = true -> In e (display (after_mvo data bmk w)) ->
  lower_bound w < upper_bound w /\
  plot_efficient_frontier (mvo_frontier data w) = true /\
  exists ws, solves_selected_problem (mvo_frontier data w) w ws.
Proof.
  intros Hm He Hin.
  assert (Hno : forall evs, (forall x, In x evs -> In x (bounds_error :: adjust_messages)) ->
                  ~ In e (objective_report data ++ evs)).
  { intros evs Hsub Hin'.
    pose proof (objective_report_holds_no_result data) as Hf.
    rewrite forallb_forall in Hf.
    assert (Hin'' : In e (objective_report data ++ bounds_error :: adjust_messages)).
    { apply in_app_or in Hin'. apply in_or_app.
      destruct Hin' as [Hin'|Hin']; [left; exact Hin'|right; apply Hsub; exact Hin']. }
    specialize (Hf e Hin''). rewrite He in Hf. discriminate. }
  destruct (Rlt_le_dec (lower_bound w) (upper_bound w)) as [Hb|Hb].
  - destruct (selected_problem_settled (mvo_frontier data w) w Hm) as [[ws Hs]|Hf].
    + destruct (plot_efficient_frontier (mvo_frontier data w)) eqn:Hp.
      * split; [exact Hb|]. split; [reflexivity|]. exists ws. exact Hs.
      * exfalso. unfold after_mvo in Hin.
        rewrite (mvo_tab_plot_failed _ _ _ _ _ Hb Hs Hp), before_mvo_eq in Hin.
        apply (Hno adjust_messages); [|exact Hin]. intros x Hx. right. exact Hx.
    + exfalso. unfold after_mvo in Hin.
      rewrite (mvo_tab_failed _ _ _ _ Hb Hf), before_mvo_eq in Hin.
      apply (Hno adjust_messages); [|exact Hin]. intros x Hx. right. exact Hx.
  - exfalso. unfold after_mvo in Hin.
    rewrite mvo_tab_bounds, before_mvo_eq in Hin;
      [|lra|rewrite before_mvo_eq; reflexivity].
    apply (Hno (bounds_error :: adjust_messages)); [|exact Hin]. intros x Hx. exact Hx.
Qed.

End Outcome.

Lemma X17_witness :
  display (@after_mvo SampleNoPlot.optimizer Sample.data Sample.bmk_prices
             (Sample.widgets_of "Max Sharpe" 0 1)) =
    @objective_report SampleNoPlot.optimizer Sample.data ++ adjust_messages /\
  weights (@after_mvo SampleNoPlot.optimizer Sample.data Sample.bmk_prices
             (Sample.widgets_of "Max Sharpe" 0 1)) = Some [1 / 2; 1 / 2].
Proof.
  assert (Hb : 0 < 1) by lra.
  destruct (@X17_plot_failure_hides_the_result SampleNoPlot.optimizer Sample.data
              Sample.bmk_prices (Sample.widgets_of "Max Sharpe" 0 1) [1 / 2; 1 / 2] Hb)
    as (Hd & Hw & _).
  - left. split; reflexivity.
  - reflexivity.
  - split; [exact Hd|exact Hw].
Defined.

Lemma X18_witness :
  0 < 1 /\
  @plot_efficient_frontier Sample.optimizer
    (@mvo_frontier Sample.optimizer Sample.data (Sample.widgets_of "Max Sharpe" 0 1)) = true.
Proof.
  destruct (@X18_results_shown_only_when_solved Sample.optimizer Sample.data Sample.bmk_prices
              (Sample.widgets_of "Max Sharpe" 0 1)
              (StWeights (zip (columns Sample.data) [1 / 2; 1 / 2])))
    as (Hb & Hp & _).
  - right. left. reflexivity.
  - reflexivity.
  - rewrite (@after_mvo_display Sample.optimizer _ _ _ [1 / 2; 1 / 2] sample_run).
    apply in_or_app. right. apply in_or_app. left.
    cbn [In charts_report]. do 3 right. left. reflexivity.
  - split; [exact Hb|exact Hp].
Defined.

(** ** Invariants of the tabs *)

Section Invariants.
Context `{Optimizer}.
Variable Rel : state -> state -> Prop.
Hypothesis Rel_refl : forall s, Rel s s.
Hypothesis Rel_trans : forall s1 s2 s3, Rel s1 s2 -> Rel s2 s3 -> Rel s1 s3.
Hypothesis Rel_event : forall e s, Rel s (add_event e s).
Hypothesis Rel_Portfolio : forall v s, Rel s (set_returns (insert "Portfolio"%string v) s).
Hypothesis Rel_MSCI_USA : forall v s, Rel s (set_returns (insert "MSCI USA"%string v) s).
Hypothesis Rel_weights : forall v s, Rel s (set_weights v s).
Hypothesis Rel_label : forall v s, Rel s (set_optimization_label v s).
Hypothesis Rel_cleaned : forall v s, Rel s (set_cleaned_weights v s).
Hypothesis Rel_performance : forall v s, Rel s (set_performance v s).

Lemma preserves_ret {A : Type} (a : A) : preserves Rel (mret a).
Proof. intros s. apply Rel_refl. Qed.

Lemma preserves_raise {A : Type} (e : exn) : preserves Rel (@raise A e).
Proof. intros s. apply Rel_refl. Qed.

Lemma preserves_bind {A B : Type} (m : M A) (k : A -> M B) :
  preserves Rel m -> (forall a, preserves Rel (k a)) -> preserves Rel (m ≫= k).
Proof.
  intros Hm Hk s. specialize (Hm s). unfold mbind, M_bind, bind.
  destruct (m s) as [[e|a] s']; cbn [snd] in *; [exact Hm|].
  eapply Rel_trans; [exact Hm|apply Hk].
Qed.

Lemma preserves_name {A : Type} v (proj : state -> option A) : preserves Rel (name v proj).
Proof. intros s. unfold name. destruct (proj s); apply Rel_refl. Qed.

Lemma preserves_or_raise {A : Type} e (o : option A) : preserves Rel (or_raise e o).
Proof. intros s. destruct o; apply Rel_refl. Qed.

Lemma preserves_select_columns keys : preserves Rel (select_columns keys).
Proof. intros s. unfold select_columns. destruct (mapM _ keys); apply Rel_refl. Qed.

Lemma preserves_column key : preserves Rel (column key).
Proof. intros s. unfold column. destruct (returns s !! key); apply Rel_refl. Qed.

Lemma preserves_st e : preserves Rel (st e).
Proof. intros s. apply Rel_event. Qed.

Lemma preserves_try_except body handler :
  preserves Rel body -> preserves Rel handler -> preserves Rel (try_except body handler).
Proof.
  intros Hb Hh s. specialize (Hb s). unfold try_except.
  destruct (body s) as [[e|[]] s']; cbn [snd] in *; [|exact Hb].
  eapply Rel_trans; [exact Hb|apply Hh].
Qed.

Ltac preserve :=
  repeat first
    [ apply preserves_bind; [|intros ?]
    | apply preserves_try_except
    | apply preserves_st
    | apply preserves_ret
    | apply preserves_raise
    | apply preserves_name
    | apply preserves_or_raise
    | apply preserves_select_columns
    | apply preserves_column
    | intros ?; first [ apply Rel_Portfolio | apply Rel_MSCI_USA | apply Rel_weights
                      | apply Rel_label | apply Rel_cleaned | apply Rel_performance ]
    | match goal with |- preserves _ (if ?b then _ else _) => destruct b end ].

Lemma except_handler_preserves : preserves Rel except_handler.
Proof. unfold except_handler. preserve. Qed.

Lemma mvo_optimization_preserves data w : preserves Rel (mvo_optimization data w).
Proof. unfold mvo_optimization. cbv zeta. preserve. Qed.

Lemma mvo_charts_preserves data w : preserves Rel (mvo_charts data w).
Proof. unfold mvo_charts. cbv zeta. preserve. Qed.

Lemma mvo_metrics_preserves bmk w : preserves Rel (mvo_metrics bmk w).
Proof. unfold mvo_metrics. cbv zeta. preserve. Qed.

Lemma mvo_tab_preserves data bmk w : preserves Rel (mvo_tab data bmk w).
Proof.
  unfold mvo_tab. apply preserves_try_except; [|apply except_handler_preserves].
  apply preserves_bind; [apply mvo_optimization_preserves|intros _].
  apply preserves_bind; [apply mvo_charts_preserves|intros _].
  apply mvo_metrics_preserves.
Qed.

Lemma bl_optimization_preserves data w rets : preserves Rel (bl_optimization data w rets).
Proof. unfold bl_optimization. cbv zeta. preserve. Qed.

Lemma bl_charts_preserves data w rets : preserves Rel (bl_charts data w rets).
Proof. unfold bl_charts. cbv zeta. preserve. Qed.

Lemma bl_metrics_preserves bmk w : preserves Rel (bl_metrics bmk w).
Proof. unfold bl_metrics. cbv zeta. preserve. Qed.

Lemma bl_try_preserves data bmk w rets :
  preserves Rel
    (try_except
       (bl_optimization data w rets;; bl_charts data w rets;; bl_metrics bmk w)
       except_handler).
Proof.
  apply preserves_try_except; [|apply except_handler_preserves].
  apply preserves_bind; [apply bl_optimization_preserves|intros _].
  apply preserves_bind; [apply bl_charts_preserves|intros _].
  apply bl_metrics_preserves.
Qed.

Lemma bl_tab_preserves data bmk w : preserves Rel (bl_tab data bmk w).
Proof.
  unfold bl_tab. preserve. apply bl_optimization_preserves.
Qed.

End Invariants.

(** ** What a run keeps *)

Lemma same_asset_columns_refl s : same_asset_columns s s.
Proof. intros k _ _. reflexivity. Qed.

Lemma same_asset_columns_trans s1 s2 s3 :
  same_asset_columns s1 s2 -> same_asset_columns s2 s3 -> same_asset_columns s1 s3.
Proof. intros H12 H23 k Hp Hm. rewrite (H23 k Hp Hm). apply H12; assumption. Qed.

Lemma display_extended_refl s : display_extended s s.
Proof. unfold display_extended. reflexivity. Qed.

Lemma display_extended_trans s1 s2 s3 :
  display_extended s1 s2 -> display_extended s2 s3 -> display_extended s1 s3.
Proof. unfold display_extended. intros H12 H23. etransitivity; eassumption. Qed.

Section Kept.
Context `{Optimizer}.

Lemma tabs_keep_asset_columns data bmk w :
  preserves same_asset_columns (mvo_tab data bmk w) /\
  preserves same_asset_columns (bl_tab data bmk w).
Proof.
  split; [apply mvo_tab_preserves|apply bl_tab_preserves];
    try apply same_asset_columns_refl; try apply same_asset_columns_trans;
    try (unfold same_asset_columns; intros v s k Hp Hm;
         destruct s as [r wv lbl cwv erv volv srv disp];
         cbv [returns set_returns add_event set_weights set_optimization_label
              set_cleaned_weights set_performance];
         try reflexivity; rewrite lookup_insert_ne by congruence; reflexivity).
Qed.

Lemma tabs_extend_display data bmk w :
  preserves display_extended (mvo_tab data bmk w) /\
  forall rets,
    preserves display_extended
      (try_except
         (bl_optimization data w rets;; bl_charts data w rets;; bl_metrics bmk w)
         except_handler).
Proof.
  split; [apply mvo_tab_preserves|intros rets; apply bl_try_preserves];
    try apply display_extended_refl; try apply display_extended_trans;
    try (intros v s; destruct s as [r wv lbl cwv erv volv srv disp];
         unfold display_extended;
         cbv [display set_returns add_event set_weights set_optimization_label
              set_cleaned_weights set_performance];
         first [reflexivity | apply prefix_app_r; reflexivity]).
Qed.

(** X19. Whatever the two tabs do (bounds error, failed optimisation, failed
    plot, complete report), the asset columns of [returns] hold the monthly
    returns of the price table at the end of each tab: both metrics blocks
    read the same asset returns. *)
Theorem X19_asset_returns_survive_the_tabs data bmk w :
  NoDup (columns data) -> no_reserved_column data ->
  mapM (fun k => returns (after_mvo data bmk w) !! k) (columns data)
    = Some (asset_returns data) /\
  mapM (fun k => returns (after_bl data bmk w) !! k) (columns data)
    = Some (asset_returns data).
Proof.
  intros Hnd [Hp Hm].
  destruct (tabs_keep_asset_columns data bmk w) as [Hmvo Hbl].
  assert (Hkeep : forall s, same_asset_columns (before_mvo data) s ->
            mapM (fun k => returns s !! k) (columns data) = Some (asset_returns data)).
  { intros s Hs. rewrite <- (asset_columns_selected data Hnd).
    apply mapM_agree. intros k Hk. apply list_elem_of_In in Hk.
    rewrite (Hs k) by congruence. rewrite before_mvo_eq. reflexivity. }
  split; apply Hkeep.
  - apply Hmvo.
  - eapply same_asset_columns_trans; [apply Hmvo|apply Hbl].
Qed.

(** X20. Nothing that has been displayed is ever changed or removed, whatever
    the tabs do. Every run opens with the report of the objective tab, which
    does not depend on the widgets; the Black-Litterman tab adds its header
    to what the MVO tab has shown and, when the model is built, the table of
    posterior returns, before anything its [try] block displays. *)
Theorem X20_display_only_grows data bmk w :
  (exists evs, display (after_mvo data bmk w) = objective_report data ++ evs) /\
  (exists evs, display (after_bl data bmk w) =
               display (after_mvo data bmk w) ++ bl_header ++ evs) /\
  (forall rets,
     bl_rets (columns data) (expected_returns data) (cov_matrix data) (viewdict w)
       = Some rets ->
     exists evs, display (after_bl data bmk w) =
                 display (after_mvo data bmk w) ++ bl_header ++ rets_df data rets :: evs).
Proof.
  destruct (tabs_extend_display data bmk w) as [Hmvo Hbl].
  assert (Hrets : forall rets,
            bl_rets (columns data) (expected_returns data) (cov_matrix data) (viewdict w)
              = Some rets ->
            exists evs, display (after_bl data bmk w) =
                        display (after_mvo data bmk w) ++ bl_header ++ rets_df data rets :: evs).
  { intros rets Hr. unfold after_bl. rewrite (bl_tab_intro _ _ _ _ _ Hr).
    destruct (Hbl rets (shown (bl_header ++ [rets_df data rets]) (after_mvo data bmk w)))
      as [evs Hevs].
    exists evs. rewrite Hevs.
    destruct (after_mvo data bmk w) as [r wv lbl cwv erv volv srv disp].
    cbn [shown display]. repeat rewrite <- app_assoc. reflexivity. }
  split; [|split; [|exact Hrets]].
  - specialize (Hmvo (before_mvo data)). destruct Hmvo as [evs Hevs].
    exists evs. rewrite before_mvo_eq in Hevs at 2. exact Hevs.
  - destruct (bl_rets (columns data) (expected_returns data) (cov_matrix data) (viewdict w))
      as [rets|] eqn:Hr.
    + destruct (Hrets rets eq_refl) as [evs Hevs]. eexists. exact Hevs.
    + exists []. unfold after_bl. rewrite (bl_tab_outside_universe _ _ _ _ Hr).
      destruct (after_mvo data bmk w) as [r wv lbl cwv erv volv srv disp].
      cbn [snd shown display]. rewrite app_nil_r. reflexivity.
Qed.

End Kept.

Lemma sample_NoDup : NoDup (columns Sample.data).
Proof.
  repeat constructor; cbn; intros Hin; inversion Hin as [|? ? ? Hin']; inversion Hin'.
Defined.

Lemma X19_witness :
  mapM (fun k => returns (@after_mvo Sample.optimizer Sample.data Sample.bmk_prices
                            (Sample.widgets_of "Efficient Return" 0 1)) !! k)
       (columns Sample.data) = Some (asset_returns Sample.data) /\
  mapM (fun k => returns (@after_bl Sample.optimizer Sample.data Sample.bmk_prices
                            (Sample.widgets_of "Efficient Return" 0 1)) !! k)
       (columns Sample.data) = Some (asset_returns Sample.data).
Proof.
  exact (@X19_asset_returns_survive_the_tabs Sample.optimizer Sample.data Sample.bmk_prices
           (Sample.widgets_of "Efficient Return" 0 1) sample_NoDup sample_columns).
Defined.

(** ** Loading and cleaning *)

Section CleaningProperties.
Import Cleaning.

Lemma remove_commas_clean s : ~ In comma (String.list_ascii_of_string (remove_commas s)).
Proof.
  induction s as [|c s IH]; cbn [remove_commas]; [intros []|].
  destruct (Ascii.eqb_spec c comma) as [->|Hne]; [exact IH|].
  cbn [String.list_ascii_of_string]. intros [E|Hin]; [congruence|contradiction].
Qed.

Lemma remove_commas_id s :
  ~ In comma (String.list_ascii_of_string s) -> remove_commas s = s.
Proof.
  induction s as [|c s IH]; cbn [remove_commas String.list_ascii_of_string]; [reflexivity|].
  intros Hno. destruct (Ascii.eqb_spec c comma) as [->|Hne].
  - exfalso. apply Hno. left. reflexivity.
  - f_equal. apply IH. intros Hin. apply Hno. right. exact Hin.
Qed.

(** X21. Removing the commas of a text leaves no comma, changes nothing else
    (a text without commas is unchanged, the other characters keep their
    order), and doing it twice changes nothing more. *)
Theorem X21_remove_commas_removes_exactly_the_commas s :
  ~ In comma (String.list_ascii_of_string (remove_commas s)) /\
  String.list_ascii_of_string (remove_commas s) =
    List.filter (fun c => negb (Ascii.eqb c comma)) (String.list_ascii_of_string s) /\
  (~ In comma (String.list_ascii_of_string s) -> remove_commas s = s) /\
  remove_commas (remove_commas s) = remove_commas s.
Proof.
  split; [apply remove_commas_clean|]. split; [|split].
  - induction s as [|c s IH]; [reflexivity|].
    cbn [remove_commas String.list_ascii_of_string List.filter].
    destruct (Ascii.eqb c comma); cbn [negb String.list_ascii_of_string]; rewrite <- IH; reflexivity.
  - apply remove_commas_id.
  - apply remove_commas_id. apply remove_commas_clean.
Qed.

Section Raising.
Variable float : string -> option (option R).
Variable numeric : string -> option (option R).

Lemma to_numeric_cells col : to_numeric numeric (cells col) = col.
Proof.
  unfold to_numeric, cells. rewrite map_map.
  etransitivity; [|apply map_id]. apply map_ext. intros [x|]; reflexivity.
Qed.

Lemma clean_column_astype col :
  clean_column float numeric col = astype_float float (replace col).
Proof.
  unfold clean_column. destruct (astype_float float (replace col)) as [floats|]; [|reflexivity].
  cbn [mbind option_bind]. rewrite to_numeric_cells. reflexivity.
Qed.

Lemma astype_float_raises col :
  astype_float float col = None <-> exists s, In (Text s) col /\ float s = None.
Proof.
  unfold astype_float. split.
  - intros Hn. apply eq_None_not_Some in Hn. rewrite mapM_is_Some in Hn.
    apply not_Forall_Exists in Hn; [|intros c; apply _].
    apply Exists_exists in Hn. destruct Hn as (c & Hin & Hc).
    apply list_elem_of_In in Hin. destruct c as [x|s|].
    + exfalso. apply Hc. eexists; reflexivity.
    + exists s. split; [exact Hin|]. cbn in Hc.
      apply eq_None_not_Some. exact Hc.
    + exfalso. apply Hc. eexists; reflexivity.
  - intros (s & Hin & Hs). apply eq_None_not_Some. rewrite mapM_is_Some.
    intros Hall. rewrite Forall_forall in Hall.
    apply list_elem_of_In in Hin. specialize (Hall _ Hin). cbn in Hall.
    rewrite Hs in Hall. destruct Hall as [x Hx]. discriminate.
Qed.

Lemma In_replace_Text s col :
  In (Text s) (replace col) <-> exists s', In (Text s') col /\ s = remove_commas s'.
Proof.
  unfold replace. rewrite in_map_iff. split.
  - intros ([x|s'|] & E & Hin); try discriminate.
    injection E as <-. exists s'. split; [exact Hin|reflexivity].
  - intros (s' & Hin & ->). exists (Text s'). split; [reflexivity|exact Hin].
Qed.

Lemma clean_raises raw :
  clean float numeric raw = None <->
  exists c, In c raw /\ clean_column float numeric (snd c) = None.
Proof.
  unfold clean. split.
  - intros Hn. apply eq_None_not_Some in Hn. unfold float_frame in Hn.
    rewrite mapM_is_Some in Hn.
    apply not_Forall_Exists in Hn; [|intros c; apply _].
    apply Exists_exists in Hn. destruct Hn as (c & Hin & Hc).
    apply list_elem_of_In in Hin. exists c. split; [exact Hin|].
    cbn in Hc. destruct (clean_column float numeric (snd c)); [|reflexivity].
    exfalso. apply Hc. eexists; reflexivity.
  - intros (c & Hin & Hc). apply eq_None_not_Some. unfold float_frame.
    rewrite mapM_is_Some.
    intros Hall. rewrite Forall_forall in Hall.
    apply list_elem_of_In in Hin. specialize (Hall _ Hin). cbn in Hall.
    rewrite Hc in Hall. destruct Hall as [x Hx]. discriminate.
Qed.

(** X22. Loading a sheet raises exactly when some text cell, once its commas
    are removed, has no float reading; missing cells never raise. *)
Theorem X22_load_raises_iff raw :
  load float numeric raw = None <->
  exists c s, In c raw /\ In (Text s) (snd c) /\ float (remove_commas s) = None.
Proof.
  unfold load.
  assert (E : (clean float numeric raw ≫= fun df => Some (dropna df)) = None <->
              clean float numeric raw = None).
  { destruct (clean float numeric raw); cbn; split; congruence. }
  rewrite E, clean_raises. split.
  - intros (c & Hin & Hc). rewrite clean_column_astype in Hc.
    apply astype_float_raises in Hc. destruct Hc as (s & Hs & Hf).
    apply In_replace_Text in Hs. destruct Hs as (s' & Hs' & ->).
    exists c, s'. repeat split; assumption.
  - intros (c & s & Hin & Hs & Hf). exists c. split; [exact Hin|].
    rewrite clean_column_astype. apply astype_float_raises.
    exists (remove_commas s). split; [|exact Hf].
    apply In_replace_Text. exists s. split; [exact Hs|reflexivity].
Qed.

End Raising.

(** X23. The second statement of the cleaning loop never changes anything:
    its input is already a float column, so [errors='coerce'] never turns a
    text into a missing value and the cleaned table does not depend on the
    parser of [pd.to_numeric]; a column is cleaned by removing the commas
    and converting to float, which either succeeds or raises. *)
Theorem X23_coerce_never_applies float numeric numeric' raw col :
  clean_column float numeric col = astype_float float (replace col) /\
  clean float numeric raw = clean float numeric' raw.
Proof.
  split; [apply clean_column_astype|].
  unfold clean. apply mapM_agree. intros c _.
  rewrite !clean_column_astype. reflexivity.
Qed.

(** ** Dropping the incomplete rows *)

Lemma kept_rows_spec df t :
  In t (kept_rows df) <->
  (t < nrows df)%nat /\ forall c, In c df -> nth t (snd c) None <> None.
Proof.
  unfold kept_rows. rewrite filter_In, in_seq. unfold notna. rewrite forallb_forall.
  split.
  - intros [Ht Hall]. split; [lia|]. intros c Hc E. specialize (Hall c Hc).
    rewrite E in Hall. discriminate.
  - intros [Ht Hall]. split; [lia|]. intros c Hc. specialize (Hall c Hc).
    destruct (nth t (snd c) None); [reflexivity|congruence].
Qed.

Lemma omap_Some_values {A B : Type} (f : A -> option B) l :
  Forall (fun x => is_Some (f x)) l -> map Some (omap f l) = map f l.
Proof.
  induction 1 as [|x l [y Hy] _ IH]; [reflexivity|].
  cbn [omap list_omap map]. rewrite Hy. cbn [map]. rewrite IH. reflexivity.
Qed.

(** X24. [dropna] keeps the columns and their names and, in every column, the
    values of the rows that are complete in all columns, and only those: no
    missing value is left and all columns end with the same length. *)
Theorem X24_dropna_keeps_the_complete_rows df :
  Forall2 (fun c c' => fst c' = fst c /\
             map Some (snd c') = map (fun t => nth t (snd c) None) (kept_rows df))
          df (dropna df) /\
  (forall t, In t (kept_rows df) <->
     (t < nrows df)%nat /\ forall c, In c df -> nth t (snd c) None <> None) /\
  Forall (fun c' => length (snd c') = length (kept_rows df)) (dropna df).
Proof.
  assert (Hsome : forall c, In c df ->
            Forall (fun t => is_Some (nth t (snd c) None)) (kept_rows df)).
  { intros c Hc. rewrite List.Forall_forall. intros t Ht.
    apply kept_rows_spec in Ht. destruct Ht as [_ Hall].
    specialize (Hall c Hc). destruct (nth t (snd c) None); [eexists; reflexivity|congruence]. }
  split; [|split; [apply kept_rows_spec|]].
  - unfold dropna. generalize (kept_rows df) Hsome. clear Hsome. intros keep Hk.
    induction df as [|c df IH]; [constructor|]. cbn [map]. constructor.
    + split; [reflexivity|]. cbn [snd]. apply omap_Some_values. apply Hk. left. reflexivity.
    + apply IH. intros c' Hc'. apply Hk. right. exact Hc'.
  - unfold dropna. rewrite List.Forall_forall. intros c' Hc'.
    apply in_map_iff in Hc'. destruct Hc' as (c & <- & Hc). cbn [snd].
    rewrite <- (length_map Some), omap_Some_values by (apply Hsome; exact Hc).
    apply length_map.
Qed.

(** ** A sheet of numbers *)

Lemma omap_map {A B C : Type} (f : B -> option C) (g : A -> B) l :
  omap f (map g l) = omap (fun x => f (g x)) l.
Proof.
  induction l as [|x l IH]; [reflexivity|].
  cbn [map omap list_omap]. rewrite IH. reflexivity.
Qed.

Lemma omap_nth_Some (col : list R) :
  omap (fun t => nth t (map Some col) None) (seq 0 (length col)) = col.
Proof.
  induction col as [|x col IH]; [reflexivity|].
  cbn [length]. rewrite <- cons_seq, <- seq_shift.
  cbn [omap list_omap map nth]. rewrite omap_map. cbn [nth]. rewrite IH. reflexivity.
Qed.

Lemma filter_all {A : Type} (f : A -> bool) l :
  (forall x, In x l -> f x = true) -> List.filter f l = l.
Proof.
  induction l as [|x l IH]; intros Hall; [reflexivity|].
  cbn [List.filter]. rewrite (Hall x) by (left; reflexivity).
  rewrite IH by (intros y Hy; apply Hall; right; exact Hy). reflexivity.
Qed.

Section Numbers.
Variable float : string -> option (option R).
Variable numeric : string -> option (option R).

Lemma clean_column_numbers col :
  clean_column float numeric (map Num col) = Some (map Some col).
Proof.
  rewrite clean_column_astype. unfold replace, astype_float. rewrite map_map. cbv beta.
  apply mapM_Some_2. induction col as [|x col IH]; cbn [map]; constructor; auto.
Qed.

Lemma clean_sheet df :
  clean float numeric (sheet df) = Some (map (fun c => (fst c, map Some (snd c))) df).
Proof.
  unfold clean, sheet. apply mapM_Some_2.
  induction df as [|c df IH]; cbn [map]; constructor; [|exact IH].
  cbn [fst snd]. rewrite clean_column_numbers. reflexivity.
Qed.

(** X25. A sheet that holds only numbers, in columns of one length, is loaded
    as it is: no parsing takes place and no row is dropped. *)
Theorem X25_load_sheet_of_numbers df n :
  Forall (fun c => length (snd c) = n) df ->
  load float numeric (sheet df) = Some df.
Proof.
  intros Hlen. unfold load. rewrite clean_sheet. cbn [mbind option_bind]. f_equal.
  set (fl := map (fun c => (fst c, map Some (snd c))) df).
  assert (Hn : df <> [] -> nrows fl = n).
  { destruct Hlen as [|c df Hc _]; [congruence|]. intros _. cbn [fl map nrows snd].
    rewrite length_map. exact Hc. }
  assert (Hk : df <> [] -> kept_rows fl = seq 0 n).
  { intros Hne. unfold kept_rows. rewrite (Hn Hne). apply filter_all.
    intros t Ht. apply in_seq in Ht. unfold notna. apply forallb_forall.
    intros c' Hc'. unfold fl in Hc'. apply in_map_iff in Hc'.
    destruct Hc' as (c & <- & Hc). cbn [snd].
    rewrite List.Forall_forall in Hlen. specialize (Hlen c Hc).
    rewrite (nth_indep _ None (Some 0)) by (rewrite length_map; lia).
    rewrite map_nth. reflexivity. }
  destruct (decide (df = [])) as [->|Hne]; [reflexivity|].
  unfold dropna. rewrite (Hk Hne). unfold fl. rewrite map_map.
  etransitivity; [|apply map_id]. apply map_ext_in. intros [k col] Hc. cbn [fst snd].
  f_equal. rewrite List.Forall_forall in Hlen. specialize (Hlen _ Hc). cbn [snd] in Hlen.
  rewrite <- Hlen. apply omap_nth_Some.
Qed.

End Numbers.

End CleaningProperties.

Lemma X25_witness :
  Cleaning.load (fun _ => None) (fun _ => None) (Cleaning.sheet Sample.data)
  = Some Sample.data.
Proof.
  apply (X25_load_sheet_of_numbers (fun _ => None) (fun _ => None) Sample.data 3).
  repeat constructor.
Defined.

(** ** The correlation matrix *)

Lemma dot_cons x a y b : dot (x :: a) (y :: b) = x * y + dot a b.
Proof. reflexivity. Qed.

Lemma dot_comm a b : dot a b = dot b a.
Proof.
  revert b. induction a as [|x a IH]; intros [|y b]; try reflexivity.
  rewrite !dot_cons, IH. ring.
Qed.

Lemma dot_self_nonneg a : 0 <= dot a a.
Proof. induction a as [|x a IH]; [cbv; lra|]. rewrite dot_cons. nra. Qed.

Lemma dot_cauchy_schwarz a b : dot a b * dot a b <= dot a a * dot b b.
Proof.
  revert b. induction a as [|x a IH]; intros [|y b].
  - change (dot [] []) with 0. lra.
  - change (dot [] (y :: b)) with 0. change (dot [] []) with 0. lra.
  - change (dot (x :: a) []) with 0. change (dot [] []) with 0.
    rewrite Rmult_0_r. lra.
  - rewrite !dot_cons. specialize (IH b).
    pose proof (dot_self_nonneg a) as HA. pose proof (dot_self_nonneg b) as HB.
    set (S := dot a b) in *. set (A := dot a a) in *. set (B := dot b b) in *.
    assert (Hm : 2 * (x * y * S) <= x * x * B + y * y * A).
    { assert (Hsq : (2 * (x * y * S)) * (2 * (x * y * S)) <=
                    (x * x * B + y * y * A) * (x * x * B + y * y * A)).
      { assert (H1 : (x * y) * (x * y) * (S * S) <= (x * y) * (x * y) * (A * B)).
        { apply Rmult_le_compat_l; [nra|exact IH]. }
        pose proof (Rle_0_sqr (x * x * B - y * y * A)) as H2. unfold Rsqr in H2.
        nra. }
      assert (Hw : 0 <= x * x * B + y * y * A) by nra.
      destruct (Rle_lt_dec (2 * (x * y * S)) (x * x * B + y * y * A)) as [Hle|Hgt];
        [exact Hle|]. exfalso. nra. }
    nra.
Qed.

Lemma mget_correlation_matrix returns i j :
  (i < length returns)%nat -> (j < length returns)%nat ->
  mget (correlation_matrix returns) i j =
  corr (snd (nth i returns (EmptyString, []))) (snd (nth j returns (EmptyString, []))).
Proof.
  intros Hi Hj. unfold mget, correlation_matrix.
  set (d := (EmptyString, @nil R)).
  rewrite (nth_indep _ [] ((fun a => map (fun b => corr (snd a) (snd b)) returns) d))
    by (rewrite length_map; exact Hi).
  rewrite (map_nth (fun a => map (fun b => corr (snd a) (snd b)) returns)).
  rewrite (nth_indep _ 0 ((fun b => corr (snd (nth i returns d)) (snd b)) d))
    by (rewrite length_map; exact Hj).
  rewrite (map_nth (fun b => corr (snd (nth i returns d)) (snd b))). reflexivity.
Qed.

Lemma second_moment_nonzero zs :
  np_var zs <> 0 ->
  dot (map (fun z => z - mean zs) zs) (map (fun z => z - mean zs) zs) <> 0.
Proof.
  intros Hv E. apply Hv. unfold np_var. unfold dot in E.
  rewrite (Rsum_zip_self (fun z => z - mean zs)) in E. rewrite E. unfold Rdiv. ring.
Qed.

Lemma corr_sym xs ys : corr xs ys = corr ys xs.
Proof. unfold corr. cbv zeta. rewrite dot_comm, Rmult_comm. reflexivity. Qed.

Lemma corr_self xs :
  np_var xs <> 0 -> corr xs xs = 1.
Proof.
  intros Hv. unfold corr. cbv zeta.
  set (A := dot _ _).
  assert (HA : 0 <= A) by apply dot_self_nonneg.
  assert (HA' : A <> 0) by (apply second_moment_nonzero; exact Hv).
  rewrite sqrt_square by exact HA. field. exact HA'.
Qed.

Lemma corr_bounded xs ys :
  np_var xs <> 0 -> np_var ys <> 0 -> -1 <= corr xs ys <= 1.
Proof.
  intros Hx Hy. unfold corr. cbv zeta.
  set (dx := map _ xs). set (dy := map _ ys).
  pose proof (dot_cauchy_schwarz dx dy) as Hcs.
  pose proof (dot_self_nonneg dx) as HA. pose proof (dot_self_nonneg dy) as HB.
  pose proof (second_moment_nonzero xs Hx) as HA'.
  pose proof (second_moment_nonzero ys Hy) as HB'.
  fold dx in HA'. fold dy in HB'.
  set (S := dot dx dy) in *. set (A := dot dx dx) in *. set (B := dot dy dy) in *.
  assert (HAB : 0 < A * B) by (apply Rmult_lt_0_compat; lra).
  assert (Hs : 0 < sqrt (A * B)) by (apply sqrt_lt_R0; exact HAB).
  assert (Hss : sqrt (A * B) * sqrt (A * B) = A * B) by (apply sqrt_sqrt; lra).
  assert (Hb : - sqrt (A * B) <= S <= sqrt (A * B)) by (split; nra).
  split.
  - apply (Rmult_le_reg_r (sqrt (A * B))); [exact Hs|].
    unfold Rdiv. rewrite Rmult_assoc, Rinv_l by lra. lra.
  - apply (Rmult_le_reg_r (sqrt (A * B))); [exact Hs|].
    unfold Rdiv. rewrite Rmult_assoc, Rinv_l by lra. lra.
Qed.

(** X26. The correlation matrix of the heat map is symmetric; on a column
    that is not constant its diagonal entry is 1, and between two such
    columns its entries lie between -1 and 1. *)
Theorem X26_correlation_matrix_properties returns i j :
  (i < length returns)%nat -> (j < length returns)%nat ->
  let C := correlation_matrix returns in
  mget C i j = mget C j i /\
  (np_var (snd (nth i returns (EmptyString, []))) <> 0 ->
   mget C i i = 1 /\
   (np_var (snd (nth j returns (EmptyString, []))) <> 0 -> -1 <= mget C i j <= 1)).
Proof.
  intros Hi Hj C. unfold C. rewrite !mget_correlation_matrix by assumption.
  split; [apply corr_sym|].
  intros Hvi. split; [apply corr_self; exact Hvi|].
  intros Hvj. apply corr_bounded; assumption.
Qed.

Lemma X26_witness :
  let C := correlation_matrix [("a"%string, [1; 3]); ("b"%string, [4; 2])] in
  mget C 0 1 = mget C 1 0 /\ mget C 0 0 = 1 /\ -1 <= mget C 0 1 <= 1.
Proof.
  assert (Hv : forall x y : R, x <> y -> np_var [x; y] <> 0).
  { intros x y Hxy. cbv [np_var mean Rsum map foldr length INR]. intros E.
    apply Hxy. assert (Hs : (x - y) * (x - y) = 0) by (field_simplify in E; nra). nra. }
  destruct (X26_correlation_matrix_properties
              [("a"%string, [1; 3]); ("b"%string, [4; 2])] 0 1)
    as (Hs & Hd); [cbn; lia|cbn; lia|].
  destruct Hd as (Hd & Hb); [apply Hv; lra|].
  split; [exact Hs|]. split; [exact Hd|]. apply Hb. apply Hv. lra.
Defined.
